(** * WeSplit receipt agent: extraction core

    A shallow embedding of the receipt-extraction pipeline of the AiAgent
    service and the properties its specification states about it:

    - [ResponseParser.extract_json_from_response]
        (src/core/response_parser.py),
    - the pydantic models and [parse_receipt_json]
        (src/core/json_formatter.py),
    - [OpenRouterClient.get_generation_stats]
        (src/api/openrouter_client.py),
    - [ErrorHandler] and [ExtractionOrchestrator]
        (src/core/error_handler.py, src/core/extraction_orchestrator.py),
    - [OpenRouterClient.analyze_receipt] (src/api/openrouter_client.py),
    - the answer of [analyze_bill] (api_server.py),
    - the categories and the prompts
        (src/config/categories.py, src/utils/prompt_builder.py).

    Conventions.  A Python [str] is a list of code points ([text]); a
    Python [float] is a primitive binary64 float; a Python [int] is a [Z].
    [None] is [Datatypes.None] of an [option].  Code that may raise returns
    in a sum [exn + A]; a [try] whose [except Exception] clause returns is
    a case analysis on that sum ([guarded] for code with effects). *)

From Stdlib Require Import String Ascii.
From Stdlib Require Import List ZArith NArith Lia Bool.
From Stdlib Require Import QArith Qabs.
From Stdlib Require Import Floats.
From Stdlib Require Import DecimalString.
Import ListNotations.
Open Scope list_scope.

Set Implicit Arguments.
Set Warnings "-register-all".

(* ================================================================== *)
(** * Python values used throughout *)
(* ================================================================== *)

Module Py.

(** A [str]: the sequence of its code points. *)
Definition text := list N.

Definition text_eqb (a b : text) : bool :=
  if list_eq_dec N.eq_dec a b then true else false.

(** A literal, written as a Rocq string of ASCII characters. *)
Definition t (s : string) : text := map N_of_ascii (list_ascii_of_string s).

(** A literal in which an apostrophe stands for the double quote (code
    point 34); used to write JSON documents. *)
Definition jt (s : string) : text :=
  map (fun c => if N.eqb c 39 then 34%N else c) (t s).

(** [prefix.startswith]: does [s] start with [p]? *)
Fixpoint startswith (p s : text) : bool :=
  match p, s with
  | [], _ => true
  | _ :: _, [] => false
  | a :: p', b :: s' => N.eqb a b && startswith p' s'
  end.

(** [r] occurs in [s] as a contiguous slice. *)
Definition substring (r s : text) : Prop :=
  exists pre post, s = pre ++ r ++ post.

(** [sep.join(parts)]. *)
Fixpoint join (sep : text) (parts : list text) : text :=
  match parts with
  | [] => []
  | [p] => p
  | p :: rest => p ++ sep ++ join sep rest
  end.

(** [s[a:b]] for [0 <= a <= b]. *)
Definition slice (s : text) (a b : Z) : text :=
  firstn (Z.to_nat (b - a)) (skipn (Z.to_nat a) s).

(** Exceptions: the class and the message [str(e)] gives. *)
Inductive exn_class :=
| ValueError | JSONDecodeError | TypeError | AttributeError
| ValidationError | OtherException.

Record exn := Exn { exn_kind : exn_class; str : text }.

(** The outcome of code that may raise. *)
Definition raises (A : Type) := (exn + A)%type.

(** The value found under a dictionary key: the key may be missing, bound
    to [None], or bound to a value. *)
Inductive entry (A : Type) :=
| Missing
| IsNone
| Bound (a : A).
Arguments Missing {A}.
Arguments IsNone {A}.

(** [d.get(key, default)] where the default is a value of the expected
    shape; a key bound to [None] yields [None]. *)
Definition get_or {A} (e : entry A) (default : A) : option A :=
  match e with
  | Missing => Some default
  | IsNone => None
  | Bound a => Some a
  end.

End Py.
Import Py.

(* ================================================================== *)
(** * The standard [json] decoder, as far as the pipeline relies on it *)
(* ================================================================== *)

Module Json.

(** What [json.loads] produces: [dict] (pairs in document order), [list],
    [str], [int], [float], [True]/[False], [None]. *)
Inductive json :=
| JNull
| JBool (b : bool)
| JInt (z : Z)
| JFloat (f : float)
| JStr (s : text)
| JArr (items : list json)
| JObj (pairs : list (text * json)).

Abbreviation c_quote := 34%N (only parsing).
Abbreviation c_backslash := 92%N (only parsing).
Abbreviation c_lbrace := 123%N (only parsing).
Abbreviation c_rbrace := 125%N (only parsing).
Abbreviation c_lbracket := 91%N (only parsing).
Abbreviation c_rbracket := 93%N (only parsing).
Abbreviation c_colon := 58%N (only parsing).
Abbreviation c_comma := 44%N (only parsing).
Abbreviation c_minus := 45%N (only parsing).
Abbreviation c_plus := 43%N (only parsing).
Abbreviation c_dot := 46%N (only parsing).
Abbreviation c_zero := 48%N (only parsing).

(** A [dict] built from pairs keeps the last value of a repeated key. *)
Fixpoint dict_get (key : text) (pairs : list (text * json)) : option json :=
  match pairs with
  | [] => None
  | (k, v) :: rest =>
      match dict_get key rest with
      | Some v' => Some v'
      | None => if text_eqb k key then Some v else None
      end
  end.

(** [WHITESPACE]: blank, tab, line feed, carriage return. *)
Definition is_ws (c : N) : bool :=
  N.eqb c 32 || N.eqb c 9 || N.eqb c 10 || N.eqb c 13.

Fixpoint skip_ws (s : text) : text :=
  match s with
  | c :: r => if is_ws c then skip_ws r else s
  | [] => []
  end.

Definition is_digit (c : N) : bool := N.leb 48 c && N.leb c 57.

Fixpoint take_digits (s : text) : list N * text :=
  match s with
  | c :: r =>
      if is_digit c
      then let (ds, rest) := take_digits r in (c :: ds, rest)
      else ([], s)
  | [] => ([], [])
  end.

Definition digits_value (ds : list N) : Z :=
  fold_left (fun acc d => (10 * acc + Z.of_N (d - 48))%Z) ds 0%Z.

(** [float(literal)]: the binary64 number nearest to [m * 10^e10], ties
    to even, overflow to infinity. *)
Definition float_of_decimal (neg : bool) (m : Z) (e10 : Z) : float :=
  match m with
  | Zpos p =>
      if (0 <=? e10)%Z
      then SF2Prim (binary_normalize prec emax
                      (if neg then (- (m * 10 ^ e10))%Z else (m * 10 ^ e10)%Z)
                      0 false)
      else SF2Prim (SFdiv prec emax (S754_finite neg p 0)
                      (S754_finite false (Z.to_pos (10 ^ (- e10))) 0))
  | _ => if neg then (-0)%float else 0%float
  end.

(** [NUMBER_RE]: an optional minus sign and an integer part (a single
    zero, or a non-zero digit followed by digits), then optionally a
    fraction (a dot and digits) and optionally an exponent (e or E, an
    optional sign, digits). *)
Definition match_integer (s : text) : option (list N * text) :=
  match s with
  | c :: r =>
      if N.eqb c c_zero then Some ([c], r)
      else if is_digit c then Some (take_digits s)
      else None
  | [] => None
  end.

Definition match_frac (s : text) : option (list N * text) :=
  match s with
  | c :: r =>
      if N.eqb c c_dot then
        match take_digits r with
        | ([], _) => None
        | (ds, rest) => Some (ds, rest)
        end
      else None
  | [] => None
  end.

Definition match_exp (s : text) : option (Z * text) :=
  match s with
  | c :: r =>
      if N.eqb c 101 || N.eqb c 69 then
        let (neg, r1) :=
          match r with
          | sg :: r' =>
              if N.eqb sg c_minus then (true, r')
              else if N.eqb sg c_plus then (false, r')
              else (false, r)
          | [] => (false, r)
          end in
        match take_digits r1 with
        | ([], _) => None
        | (ds, rest) =>
            Some (if neg then (- digits_value ds)%Z else digits_value ds, rest)
        end
      else None
  | [] => None
  end.

(** A number: [int(integer)] when there is neither fraction nor
    exponent, [float(integer + frac + exp)] otherwise. *)
Definition match_number (s : text) : option (json * text) :=
  let (neg, s1) :=
    match s with
    | c :: r => if N.eqb c c_minus then (true, r) else (false, s)
    | [] => (false, s)
    end in
  match match_integer s1 with
  | None => None
  | Some (ints, r1) =>
      let (frac, r2) :=
        match match_frac r1 with
        | Some (fr, r) => (Some fr, r)
        | None => (None, r1)
        end in
      let (exp, r3) :=
        match match_exp r2 with
        | Some (e, r) => (Some e, r)
        | None => (None, r2)
        end in
      match frac, exp with
      | None, None =>
          Some (JInt (if neg then (- digits_value ints)%Z
                      else digits_value ints), r3)
      | _, _ =>
          let fr := match frac with Some fr => fr | None => [] end in
          let e := match exp with Some e => e | None => 0%Z end in
          Some (JFloat (float_of_decimal neg (digits_value (ints ++ fr))
                          (e - Z.of_nat (length fr))), r3)
      end
  end.

Definition hex_value (c : N) : option N :=
  if N.leb 48 c && N.leb c 57 then Some (c - 48)%N
  else if N.leb 97 c && N.leb c 102 then Some (c - 87)%N
  else if N.leb 65 c && N.leb c 70 then Some (c - 55)%N
  else None.

Definition hex4 (a b c d : N) : option N :=
  match hex_value a, hex_value b, hex_value c, hex_value d with
  | Some x, Some y, Some z, Some w => Some (((x * 16 + y) * 16 + z) * 16 + w)%N
  | _, _, _, _ => None
  end.

(** [BACKSLASH]: the one-character escapes. *)
Definition backslash (c : N) : option N :=
  if N.eqb c c_quote then Some c_quote
  else if N.eqb c c_backslash then Some c_backslash
  else if N.eqb c 47 then Some 47%N
  else if N.eqb c 98 then Some 8%N
  else if N.eqb c 102 then Some 12%N
  else if N.eqb c 110 then Some 10%N
  else if N.eqb c 114 then Some 13%N
  else if N.eqb c 116 then Some 9%N
  else None.

Definition is_high_surrogate (u : N) : bool := N.leb 55296 u && N.leb u 56319.
Definition is_low_surrogate (u : N) : bool := N.leb 56320 u && N.leb u 57343.

(** [scanstring] in strict mode, from just after the opening quote:
    the decoded string and the text after the closing quote. *)
Fixpoint scanstring (s : text) : option (text * text) :=
  let continue (u : N) (r : option (text * text)) :=
    match r with
    | Some (body, rest) => Some (u :: body, rest)
    | None => None
    end in
  match s with
  | [] => None
  | c :: r =>
      if N.eqb c c_quote then Some ([], r)
      else if N.eqb c c_backslash then
        match r with
        | [] => None
        | e :: r1 =>
            if N.eqb e 117 then
              match r1 with
              | h1 :: h2 :: h3 :: h4 :: r2 =>
                  match hex4 h1 h2 h3 h4 with
                  | None => None
                  | Some uni =>
                      match r2 with
                      | b :: u :: g1 :: g2 :: g3 :: g4 :: r3 =>
                          match hex4 g1 g2 g3 g4 with
                          | Some uni2 =>
                              if is_high_surrogate uni && N.eqb b c_backslash
                                 && N.eqb u 117 && is_low_surrogate uni2
                              then continue
                                     (65536 + ((uni - 55296) * 1024
                                               + (uni2 - 56320)))%N
                                     (scanstring r3)
                              else continue uni (scanstring r2)
                          | None => continue uni (scanstring r2)
                          end
                      | _ => continue uni (scanstring r2)
                      end
                  end
              | _ => None
              end
            else
              match backslash e with
              | Some ch => continue ch (scanstring r1)
              | None => None
              end
        end
      else if N.ltb c 32 then None
      else continue c (scanstring r)
  end.

Section Containers.
(** [JSONArray] and [JSONObject] receive the value scanner as an
    argument, as in the decoder. *)
Variable scan_once : text -> option (json * text).

(** The loop of [JSONArray], entered at the start of a value; [n]
    bounds the number of iterations. *)
Fixpoint JSONArray_loop (n : nat) (s : text) : option (list json * text) :=
  match n with
  | O => None
  | S n' =>
      match scan_once s with
      | None => None
      | Some (v, r1) =>
          match skip_ws r1 with
          | c :: r2 =>
              if N.eqb c c_rbracket then Some ([v], r2)
              else if N.eqb c c_comma then
                match JSONArray_loop n' (skip_ws r2) with
                | Some (vs, rest) => Some (v :: vs, rest)
                | None => None
                end
              else None
          | [] => None
          end
      end
  end.

(** [JSONArray], from just after the opening bracket. *)
Definition JSONArray (s : text) : option (json * text) :=
  match skip_ws s with
  | c :: r =>
      if N.eqb c c_rbracket then Some (JArr [], r)
      else
        match JSONArray_loop (length s) (skip_ws s) with
        | Some (vs, rest) => Some (JArr vs, rest)
        | None => None
        end
  | [] => None
  end.

(** The loop of [JSONObject], entered just after the opening quote of
    a key. *)
Fixpoint JSONObject_loop (n : nat) (s : text)
  : option (list (text * json) * text) :=
  match n with
  | O => None
  | S n' =>
      match scanstring s with
      | None => None
      | Some (key, r1) =>
          match skip_ws r1 with
          | c :: r2 =>
              if N.eqb c c_colon then
                match scan_once (skip_ws r2) with
                | None => None
                | Some (v, r3) =>
                    match skip_ws r3 with
                    | d :: r4 =>
                        if N.eqb d c_rbrace then Some ([(key, v)], r4)
                        else if N.eqb d c_comma then
                          match skip_ws r4 with
                          | q :: r5 =>
                              if N.eqb q c_quote then
                                match JSONObject_loop n' r5 with
                                | Some (ps, rest) => Some ((key, v) :: ps, rest)
                                | None => None
                                end
                              else None
                          | [] => None
                          end
                        else None
                    | [] => None
                    end
                end
              else None
          | [] => None
          end
      end
  end.

(** [JSONObject], from just after the opening brace. *)
Definition JSONObject (s : text) : option (json * text) :=
  match skip_ws s with
  | c :: r =>
      if N.eqb c c_rbrace then Some (JObj [], r)
      else if N.eqb c c_quote then
        match JSONObject_loop (length s) r with
        | Some (ps, rest) => Some (JObj ps, rest)
        | None => None
        end
      else None
  | [] => None
  end.
End Containers.

(** [scan_once]: one JSON value at the head of [s] and the text after
    it.  [depth] bounds the nesting of containers (the recursion depth
    of the decoder). *)
Fixpoint scan_once (depth : nat) (s : text) : option (json * text) :=
  match depth with
  | O => None
  | S d =>
      match s with
      | [] => None
      | c :: r =>
          if N.eqb c c_quote then
            match scanstring r with
            | Some (str, rest) => Some (JStr str, rest)
            | None => None
            end
          else if N.eqb c c_lbrace then JSONObject (scan_once d) r
          else if N.eqb c c_lbracket then JSONArray (scan_once d) r
          else if startswith (t "null") s then Some (JNull, skipn 4 s)
          else if startswith (t "true") s then Some (JBool true, skipn 4 s)
          else if startswith (t "false") s then Some (JBool false, skipn 5 s)
          else
            match match_number s with
            | Some res => Some res
            | None =>
                if startswith (t "NaN") s then Some (JFloat nan, skipn 3 s)
                else if startswith (t "Infinity") s
                then Some (JFloat infinity, skipn 8 s)
                else if startswith (t "-Infinity") s
                then Some (JFloat neg_infinity, skipn 9 s)
                else None
            end
      end
  end.

(** [JSONDecoder.raw_decode]: a value at the very start of [s]; nesting
    can not exceed the length of the text. *)
Definition raw_decode (s : text) : option (json * text) :=
  scan_once (S (length s)) s.

(** [json.loads]: surrounding whitespace is allowed, anything else after
    the value is "Extra data". [None] stands for [JSONDecodeError]. *)
Definition loads (s : text) : option json :=
  match raw_decode (skip_ws s) with
  | Some (v, rest) =>
      match skip_ws rest with
      | [] => Some v
      | _ :: _ => None
      end
  | None => None
  end.

Definition is_container (v : json) : bool :=
  match v with
  | JArr _ | JObj _ => true
  | _ => false
  end.

End Json.
Import Json.

(* ================================================================== *)
(** * src/core/response_parser.py *)
(* ================================================================== *)

Module ResponseParser.

(** ** The fence pattern

    [re.search] of the pattern made of: the literal three backquotes
    and [json]; whitespace, greedy; group 1, any characters ([DOTALL]),
    lazy; whitespace, greedy; the literal three backquotes. *)

(** [\s] on a [str] pattern: the Unicode whitespace code points. *)
Definition re_space (c : N) : bool :=
  (N.leb 9 c && N.leb c 13) || (N.leb 28 c && N.leb c 32)
  || N.eqb c 133 || N.eqb c 160 || N.eqb c 5760
  || (N.leb 8192 c && N.leb c 8202)
  || N.eqb c 8232 || N.eqb c 8233 || N.eqb c 8239 || N.eqb c 8287
  || N.eqb c 12288.

Definition fence_open : text := t "```json".
Definition fence_close : text := t "```".

(** The tail of the pattern, whitespace then the closing fence: the
    greedy run is tried at its longest first. *)
Fixpoint closing_here (s : text) : bool :=
  match s with
  | c :: r =>
      if re_space c
      then closing_here r || startswith fence_close s
      else startswith fence_close s
  | [] => false
  end.

(** The lazy group followed by the tail: the shortest group first. *)
Fixpoint lazy_group (s : text) : option text :=
  if closing_here s then Some []
  else
    match s with
    | c :: r =>
        match lazy_group r with
        | Some g => Some (c :: g)
        | None => None
        end
    | [] => None
    end.

(** The greedy whitespace after the opening fence, then the rest of the
    pattern; a shorter run is tried when the longer one fails. *)
Fixpoint after_open (s : text) : option text :=
  match s with
  | c :: r =>
      if re_space c then
        match after_open r with
        | Some g => Some g
        | None => lazy_group s
        end
      else lazy_group s
  | [] => lazy_group s
  end.

(** [re.search(...)] and [match.group(1)]: the leftmost position at
    which the pattern matches. *)
Fixpoint search_fence (s : text) : option text :=
  let here :=
    if startswith fence_open s then after_open (skipn 7 s) else None in
  match here with
  | Some g => Some g
  | None =>
      match s with
      | _ :: r => search_fence r
      | [] => None
      end
  end.

(** ** The bracket scan *)

Record scan_state := {
  start_pos : Z;
  end_pos : Z;
  depth : Z;
  in_string : bool;
  escape_next : bool;
  open_char : option N;
  close_char : option N
}.

Definition scan_init : scan_state :=
  {| start_pos := -1; end_pos := -1; depth := 0; in_string := false;
     escape_next := false; open_char := None; close_char := None |}.

Definition is_char (o : option N) (c : N) : bool :=
  match o with
  | Some x => N.eqb c x
  | None => false
  end.

(** One iteration of the [for i, char in enumerate(response_text)]
    loop; the boolean is [true] when the iteration ends in [break]. *)
Definition scan_step (i : Z) (char : N) (st : scan_state)
  : scan_state * bool :=
  if escape_next st then
    ({| start_pos := start_pos st; end_pos := end_pos st;
        depth := depth st; in_string := in_string st;
        escape_next := false;
        open_char := open_char st; close_char := close_char st |}, false)
  else if N.eqb char c_backslash then
    ({| start_pos := start_pos st; end_pos := end_pos st;
        depth := depth st; in_string := in_string st;
        escape_next := true;
        open_char := open_char st; close_char := close_char st |}, false)
  else
    let in_string' :=
      if N.eqb char c_quote && negb (escape_next st)
      then negb (in_string st) else in_string st in
    let st1 :=
      {| start_pos := start_pos st; end_pos := end_pos st;
         depth := depth st; in_string := in_string';
         escape_next := escape_next st;
         open_char := open_char st; close_char := close_char st |} in
    if in_string' then (st1, false)
    else if (start_pos st1 =? -1)%Z then
      if N.eqb char c_lbrace then
        ({| start_pos := i; end_pos := end_pos st1; depth := 1;
            in_string := in_string'; escape_next := escape_next st1;
            open_char := Some c_lbrace; close_char := Some c_rbrace |},
         false)
      else if N.eqb char c_lbracket then
        ({| start_pos := i; end_pos := end_pos st1; depth := 1;
            in_string := in_string'; escape_next := escape_next st1;
            open_char := Some c_lbracket; close_char := Some c_rbracket |},
         false)
      else (st1, false)
    else if is_char (open_char st1) char then
      ({| start_pos := start_pos st1; end_pos := end_pos st1;
          depth := depth st1 + 1;
          in_string := in_string'; escape_next := escape_next st1;
          open_char := open_char st1; close_char := close_char st1 |},
       false)
    else if is_char (close_char st1) char then
      if (depth st1 - 1 =? 0)%Z then
        ({| start_pos := start_pos st1; end_pos := i + 1;
            depth := depth st1 - 1;
            in_string := in_string'; escape_next := escape_next st1;
            open_char := open_char st1; close_char := close_char st1 |},
         true)
      else
        ({| start_pos := start_pos st1; end_pos := end_pos st1;
            depth := depth st1 - 1;
            in_string := in_string'; escape_next := escape_next st1;
            open_char := open_char st1; close_char := close_char st1 |},
         false)
    else (st1, false).

(** The loop from index [i] over the characters still to read. *)
Fixpoint scan_loop (i : Z) (s : text) (st : scan_state) : scan_state :=
  match s with
  | [] => st
  | char :: rest =>
      let (st', stop) := scan_step i char st in
      if stop then st' else scan_loop (i + 1) rest st'
  end.

Definition no_json_message : text :=
  t "Impossible d'extraire un objet ou un tableau JSON complet et valide.".

(** The first attempt: the content of a fenced block, when it decodes. *)
Definition fenced_json (response_text : text) : option text :=
  match search_fence response_text with
  | Some potential_json =>
      match loads potential_json with
      | Some _ => Some potential_json
      | None => None
      end
  | None => None
  end.

(** The second attempt: the span the bracket scan delimits, when it
    decodes. *)
Definition scanned_json (response_text : text) : option text :=
  let st := scan_loop 0 response_text scan_init in
  if negb (start_pos st =? -1)%Z && negb (end_pos st =? -1)%Z then
    let potential_json := slice response_text (start_pos st) (end_pos st) in
    match loads potential_json with
    | Some _ => Some potential_json
    | None => None
    end
  else None.

Definition extract_json_from_response (response_text : text) : raises text :=
  match fenced_json response_text with
  | Some potential_json => inr potential_json
  | None =>
      match scanned_json response_text with
      | Some potential_json => inr potential_json
      | None => inl (Exn ValueError no_json_message)
      end
  end.

End ResponseParser.
Import ResponseParser.

(* ================================================================== *)
(** * src/core/json_formatter.py *)
(* ================================================================== *)

Module JsonFormatter.

(** ** What the models rely on from pydantic

    The validation of the scalar field types ([None] when the input is
    rejected) and the text of the library's exceptions are not part of
    the repository; the development is parametric in them. *)
Inductive loc_item :=
| Field (name : text)
| Index (i : nat).

Inductive error_kind :=
| missing
| wrong_type
| value_error (msg : text).

(** One line of a [ValidationError]: where, and what. *)
Definition line_error := (list loc_item * error_kind)%type.

Class Pydantic := {
  validate_str : json -> option text;
  validate_float : json -> option float;
  validate_bool : json -> option bool;
(** [str(e)] of the [ValidationError] of a model *)
validation_error_str : text -> list line_error -> text;
(** [str(e)] of the [JSONDecodeError] of a document *)
decode_error_str : text -> text
}.

(** The result of validating a value: every error found, or the value. *)
Definition validated (A : Type) := (list line_error + A)%type.

Definition vpure {A} (a : A) : validated A := inr a.

(** Fields are validated one after the other and their errors are
    collected. *)
Definition vap {A B} (f : validated (A -> B)) (x : validated A)
  : validated B :=
  match f, x with
  | inr g, inr a => inr (g a)
  | inl e1, inl e2 => inl (e1 ++ e2)
  | inl e1, inr _ => inl e1
  | inr _, inl e2 => inl e2
  end.

Definition vmap {A B} (g : A -> B) (x : validated A) : validated B :=
  match x with
  | inr a => inr (g a)
  | inl e => inl e
  end.

Definition under (item : loc_item) {A} (x : validated A) : validated A :=
  match x with
  | inr a => inr a
  | inl es => inl (map (fun e : line_error => (item :: fst e, snd e)) es)
  end.

Definition scalar {A} (o : option A) : validated A :=
  match o with
  | Some a => inr a
  | None => inl [([], wrong_type)]
  end.

(** [Optional[T]]: [None] is accepted as it is. *)
Definition optional {A} (validate : json -> validated A) (v : json)
  : validated (option A) :=
  match v with
  | JNull => inr None
  | _ => vmap Some (validate v)
  end.

(** A field validator (mode "after"): a raised [ValueError] becomes a
    line of the validation error. *)
Definition after {A} (validator : A -> raises A) (x : validated A)
  : validated A :=
  match x with
  | inr a =>
      match validator a with
      | inr a' => inr a'
      | inl e => inl [([], value_error (str e))]
      end
  | inl es => inl es
  end.

(** A required field and a field with a default; validators do not run
    on defaults. *)
Definition required {A} (kwargs : list (text * json)) (name : text)
           (validate : json -> validated A) : validated A :=
  match dict_get name kwargs with
  | Some v => under (Field name) (validate v)
  | None => inl [([Field name], missing)]
  end.

Definition defaulted {A} (kwargs : list (text * json)) (name : text)
           (default : A) (validate : json -> validated A) : validated A :=
  match dict_get name kwargs with
  | Some v => under (Field name) (validate v)
  | None => inr default
  end.

(** A field whose type is a model: the input has to be a [dict]. *)
Definition model {A} (validate : list (text * json) -> validated A)
           (v : json) : validated A :=
  match v with
  | JObj kwargs => validate kwargs
  | _ => inl [([], wrong_type)]
  end.

(** [List[T]]: every element is validated, under its index. *)
Fixpoint list_items {A} (validate : json -> validated A) (i : nat)
         (vs : list json) : validated (list A) :=
  match vs with
  | [] => inr []
  | v :: rest =>
      vap (vmap cons (under (Index i) (validate v)))
          (list_items validate (S i) rest)
  end.

Definition list_of {A} (validate : json -> validated A) (v : json)
  : validated (list A) :=
  match v with
  | JArr vs => list_items validate 0 vs
  | _ => inl [([], wrong_type)]
  end.

(** ** The models *)

Record MerchantInfo := {
  merchant_name : option text;
  address : option text;
  phone : option text;
  vat_number : option text
}.

Record TransactionInfo := {
  date : option text;
  time : option text;
  receipt_number : option text;
  country : option text;
  currency : option text
}.

Record ReceiptItem := {
  description : text;
  quantity : float;
  unit_price : option float;
  total_price : option float;
  tax_rate : option float
}.

Record Totals := {
  subtotal : option float;
  tax : option float;
  total : option float;
  total_calculated : option float;
  total_matches : option bool
}.

Record ReceiptData := {
  is_receipt : bool;
  category : option text;
  merchant : option MerchantInfo;
  transaction : option TransactionInfo;
  items : list ReceiptItem;
  totals : option Totals;
  notes : option text;
  reason : option text
}.

Record InvalidReceipt := {
  invalid_is_receipt : bool;
  invalid_reason : text
}.

(** [ReceiptItem.must_be_positive] *)
Definition must_be_positive (v : option float) : option float :=
  match v with
  | Some x => if (x <? 0)%float then Some (abs x) else v
  | None => v
  end.

(** The same validator on [quantity], whose type has no [None]. *)
Definition must_be_positive_float (x : float) : float :=
  match must_be_positive (Some x) with
  | Some y => y
  | None => x
  end.

Definition valid_categories : list text :=
  [ t "Food & Drinks";
    t "Events & Entertainment";
    t "Travel & Transport";
    t "Housing & Utilities";
    t "Shopping & Essentials";
    t "On-Chain Life" ].

(** [v in valid_categories] *)
Definition in_list (v : text) (l : list text) : bool :=
  existsb (text_eqb v) l.

Definition invalid_category_message (v : text) : text :=
  t "Invalid category: " ++ v ++ t ". "
  ++ t "Valid categories: " ++ join (t ", ") valid_categories.

(** [ReceiptData.validate_category] *)
Definition validate_category (v : option text) : raises (option text) :=
  match v with
  | None => inr v
  | Some c =>
      if negb (in_list c valid_categories)
      then inl (Exn ValueError (invalid_category_message c))
      else inr v
  end.

(** [sum(...)]: the additions start from zero, in the order of the
    items. *)
Definition sum (xs : list float) : float :=
  fold_left (fun acc x => (acc + x)%float) xs 0%float.

(** [item.total_price for item in items if item.total_price is not None] *)
Fixpoint non_null_total_prices (its : list ReceiptItem) : list float :=
  match its with
  | [] => []
  | item :: rest =>
      match total_price item with
      | Some p => p :: non_null_total_prices rest
      | None => non_null_total_prices rest
      end
  end.

Definition default_tolerance : float := 0x1.47ae147ae147bp-7%float.

(** [Totals.calculate_from_items]: the totals after the call. *)
Definition calculate_from_items (self : Totals) (its : list ReceiptItem)
           (tolerance : float) : Totals :=
  let total_calculated' := Some (sum (non_null_total_prices its)) in
  match total self with
  | Some tot =>
      {| subtotal := subtotal self; tax := tax self; total := total self;
         total_calculated := total_calculated';
         total_matches :=
           Some match total_calculated' with
                | Some tc => (abs (tot - tc) <=? tolerance)%float
                | None => false
                end |}
  | None =>
      {| subtotal := subtotal self; tax := tax self;
         total := total_calculated';
         total_calculated := total_calculated';
         total_matches := Some true |}
  end.

(** [ReceiptData.validate_totals]: the receipt after the call.  A model
    instance is always true; a list is true when it is not empty. *)
Definition validate_totals (self : ReceiptData) (tolerance : float)
  : ReceiptData :=
  match totals self, items self with
  | Some block, _ :: _ =>
      {| is_receipt := is_receipt self; category := category self;
         merchant := merchant self; transaction := transaction self;
         items := items self;
         totals := Some (calculate_from_items block (items self) tolerance);
         notes := notes self; reason := reason self |}
  | _, _ => self
  end.

Section Models.
Context {lib : Pydantic}.

Definition str_field (v : json) : validated text :=
  scalar (validate_str v).
Definition float_field (v : json) : validated float :=
  scalar (validate_float v).
Definition bool_field (v : json) : validated bool :=
  scalar (validate_bool v).

Definition lift {A} (f : A -> A) (a : A) : raises A := inr (f a).

(** [MerchantInfo], called on the entries of a [dict] *)
Definition new_MerchantInfo (kwargs : list (text * json))
  : validated MerchantInfo :=
  vap (vap (vap (vap (vpure Build_MerchantInfo)
    (defaulted kwargs (t "name") None (optional str_field)))
    (defaulted kwargs (t "address") None (optional str_field)))
    (defaulted kwargs (t "phone") None (optional str_field)))
    (defaulted kwargs (t "vat_number") None (optional str_field)).

(** [TransactionInfo], called on the entries of a [dict] *)
Definition new_TransactionInfo (kwargs : list (text * json))
  : validated TransactionInfo :=
  vap (vap (vap (vap (vap (vpure Build_TransactionInfo)
    (defaulted kwargs (t "date") None (optional str_field)))
    (defaulted kwargs (t "time") None (optional str_field)))
    (defaulted kwargs (t "receipt_number") None (optional str_field)))
    (defaulted kwargs (t "country") None (optional str_field)))
    (defaulted kwargs (t "currency") None (optional str_field)).

(** [ReceiptItem], called on the entries of a [dict] *)
Definition new_ReceiptItem (kwargs : list (text * json))
  : validated ReceiptItem :=
  vap (vap (vap (vap (vap (vpure Build_ReceiptItem)
    (required kwargs (t "description") str_field))
    (defaulted kwargs (t "quantity") 1%float
       (fun v => after (lift must_be_positive_float) (float_field v))))
    (defaulted kwargs (t "unit_price") None
       (fun v => after (lift must_be_positive) (optional float_field v))))
    (defaulted kwargs (t "total_price") None
       (fun v => after (lift must_be_positive) (optional float_field v))))
    (defaulted kwargs (t "tax_rate") None (optional float_field)).

(** [Totals], called on the entries of a [dict] *)
Definition new_Totals (kwargs : list (text * json)) : validated Totals :=
  vap (vap (vap (vap (vap (vpure Build_Totals)
    (defaulted kwargs (t "subtotal") None (optional float_field)))
    (defaulted kwargs (t "tax") None (optional float_field)))
    (defaulted kwargs (t "total") None (optional float_field)))
    (defaulted kwargs (t "total_calculated") None (optional float_field)))
    (defaulted kwargs (t "total_matches") None (optional bool_field)).

(** [ReceiptData], called on the entries of a [dict] *)
Definition new_ReceiptData (kwargs : list (text * json))
  : validated ReceiptData :=
  vap (vap (vap (vap (vap (vap (vap (vap (vpure Build_ReceiptData)
    (defaulted kwargs (t "is_receipt") true bool_field))
    (defaulted kwargs (t "category") None
       (fun v => after validate_category (optional str_field v))))
    (defaulted kwargs (t "merchant") None
       (optional (model new_MerchantInfo))))
    (defaulted kwargs (t "transaction") None
       (optional (model new_TransactionInfo))))
    (defaulted kwargs (t "items") []
       (list_of (model new_ReceiptItem))))
    (defaulted kwargs (t "totals") None (optional (model new_Totals))))
    (defaulted kwargs (t "notes") None (optional str_field)))
    (defaulted kwargs (t "reason") None (optional str_field)).

(** [InvalidReceipt], called on the entries of a [dict] *)
Definition new_InvalidReceipt (kwargs : list (text * json))
  : validated InvalidReceipt :=
  vap (vap (vpure Build_InvalidReceipt)
    (defaulted kwargs (t "is_receipt") false bool_field))
    (required kwargs (t "reason") str_field).

(** Calling a model class: the errors are raised together. *)
Definition construct {A} (title : text) (r : validated A) : raises A :=
  match r with
  | inr a => inr a
  | inl errors =>
      inl (Exn ValidationError (validation_error_str title errors))
  end.

(** The name of the type in the message of an [AttributeError]. *)
Definition type_name (v : json) : text :=
  match v with
  | JNull => t "NoneType"
  | JBool _ => t "bool"
  | JInt _ => t "int"
  | JFloat _ => t "float"
  | JStr _ => t "str"
  | JArr _ => t "list"
  | JObj _ => t "dict"
  end.

Definition no_attribute (v : json) (attr : text) : exn :=
  Exn AttributeError
      (t "'" ++ type_name v ++ t "' object has no attribute '" ++ attr
         ++ t "'").

(** The two variants [parse_receipt_json] returns. *)
Inductive parsed :=
| IsReceiptData (r : ReceiptData)
| IsInvalidReceipt (r : InvalidReceipt).

(** [parse_receipt_json], after [json.loads] *)
Definition parse_receipt_data (data : json) : raises parsed :=
  match data with
  | JObj kwargs =>
      match dict_get (t "is_receipt") kwargs with
      | Some (JBool true) =>
          match construct (t "ReceiptData") (new_ReceiptData kwargs) with
          | inr receipt =>
              inr (IsReceiptData (validate_totals receipt default_tolerance))
          | inl e => inl e
          end
      | _ =>
          match construct (t "InvalidReceipt") (new_InvalidReceipt kwargs)
          with
          | inr r => inr (IsInvalidReceipt r)
          | inl e => inl e
          end
      end
  | _ => inl (no_attribute data (t "get"))
  end.

Definition parse_receipt_json (json_str : text) : raises parsed :=
  match loads json_str with
  | None =>
      inl (Exn ValueError (t "Invalid JSON: " ++ decode_error_str json_str))
  | Some data => parse_receipt_data data
  end.

End Models.

End JsonFormatter.
Import JsonFormatter.

(* ================================================================== *)
(** * Effects: a state threaded through code that may raise *)
(* ================================================================== *)

Module Effect.

Section WithState.
Variable S : Type.

(** A computation over a state [S]: the state it leaves, and either
    the value it returns or the exception it lets escape. *)
Definition M (A : Type) := S -> raises A * S.

Definition ret {A} (a : A) : M A := fun s => (inr a, s).

Definition bind {A B} (m : M A) (k : A -> M B) : M B :=
  fun s =>
    match m s with
    | (inr a, s') => k a s'
    | (inl e, s') => (inl e, s')
    end.

Definition raise {A} (e : exn) : M A := fun s => (inl e, s).

(** A pure computation that may raise. *)
Definition pure {A} (r : raises A) : M A := fun s => (r, s).

(** [try: m] with [except Exception as e] made a value: nothing
    escapes. *)
Definition guarded {A} (m : M A) : M (raises A) :=
  fun s => let (r, s') := m s in (inr r, s').

Definition modify (f : S -> S) : M unit := fun s => (inr tt, f s).
Definition get : M S := fun s => (inr s, s).
End WithState.

Arguments ret {S A} a.
Arguments bind {S A B} m k.
Arguments raise {S A} e.
Arguments pure {S A} r.
Arguments guarded {S A} m.
Arguments modify {S} f.
Arguments get {S}.

Declare Scope effect_scope.
Delimit Scope effect_scope with effect.
Notation "x <- m ;; k" := (bind m (fun x => k))
  (at level 61, m at next level, right associativity) : effect_scope.
Notation "m ;;; k" := (bind m (fun _ => k))
  (at level 61, right associativity) : effect_scope.

End Effect.
Import Effect.

(* ================================================================== *)
(** * src/api/openrouter_client.py: [get_generation_stats] *)
(* ================================================================== *)

Module OpenRouterClient.

(** The answer of the statistics endpoint: its status code and what
    [response.json()] gives. *)
Record http_response := {
  status_code : Z;
  json_body : raises json
}.

(** What the retry loop does, in order. *)
Inductive event :=
| Request (attempt : Z)
| Sleep (seconds : Q).

(** How an iteration of the loop ends. *)
Inductive flow :=
| Return (v : json)
| Continue.

Section Stats.
(** [self.config.max_retries] and [self.config.delay]; durations are
    exact rationals. *)
Variable max_retries : Z.
Variable base_delay : Q.
(** [self.http_client.get(...)] for the request of each attempt. *)
Variable http_get : Z -> raises http_response.
(** [random.uniform(a, b)] at each attempt. *)
Variable uniform : Z -> Q -> Q -> Q.

Local Open Scope effect_scope.

Definition log_event (ev : event) : M (list event) unit :=
  modify (fun trace => trace ++ [ev]).

(** [delay = base_delay * (2 ** attempt)] *)
Definition backoff_delay (attempt : Z) : Q :=
  base_delay * inject_Z (2 ^ attempt).

(** The four lines that compute the delay, draw the jitter and
    sleep. *)
Definition backoff_sleep (attempt : Z) : M (list event) unit :=
  let delay := backoff_delay attempt in
  let jitter := uniform attempt 0 (delay * (1 # 10)) in
  let total_delay := delay + jitter in
  log_event (Sleep total_delay).

(** [json_data.get("data", {})] *)
Definition get_data (json_data : json) : raises json :=
  match json_data with
  | JObj pairs =>
      match dict_get (t "data") pairs with
      | Some v => inr v
      | None => inr (JObj [])
      end
  | _ => inl (@no_attribute json_data (t "get"))
  end.

(** The body of the [try]. *)
Definition try_body (attempt : Z) : M (list event) flow :=
  log_event (Request attempt) ;;;
  response <- pure (http_get attempt) ;;
  if (status_code response =? 200)%Z then
    json_data <- pure (json_body response) ;;
    data <- pure (get_data json_data) ;;
    ret (Return data)
  else if (status_code response =? 404)%Z
          && (attempt <? max_retries - 1)%Z then
    backoff_sleep attempt ;;;
    ret Continue
  else ret (Return JNull).

(** The [except Exception] clause. *)
Definition except_body (attempt : Z) : M (list event) flow :=
  if (attempt <? max_retries - 1)%Z then
    backoff_sleep attempt ;;;
    ret Continue
  else ret (Return JNull).

Definition iteration (attempt : Z) : M (list event) flow :=
  outcome <- guarded (try_body attempt) ;;
  match outcome with
  | inr f => ret f
  | inl _ => except_body attempt
  end.

(** [for attempt in range(max_retries)], with [remaining] iterations
    to go; [return None] after the loop. *)
Fixpoint attempts (remaining : nat) (attempt : Z) : M (list event) json :=
  match remaining with
  | O => ret JNull
  | S n =>
      f <- iteration attempt ;;
      match f with
      | Return v => ret v
      | Continue => attempts n (attempt + 1)
      end
  end.

Definition get_generation_stats : M (list event) json :=
  attempts (Z.to_nat max_retries) 0.

End Stats.

End OpenRouterClient.

(* ================================================================== *)
(** * The dictionaries exchanged with the API client and the caller *)
(* ================================================================== *)

Module Data.

(** The ["usage"] dictionary: token counts by name. *)
Definition usage_dict := list (text * Z).

Fixpoint usage_get (key : text) (u : usage_dict) (default : Z) : Z :=
  match u with
  | [] => default
  | (k, v) :: rest => if text_eqb k key then v else usage_get key rest default
  end.

(** The ["metrics"] dictionary of one call: latency, generation time,
    throughput, cost and finish reason by name, each possibly [None]. *)
Definition metrics_dict := list (text * json).

(** What [analyze_receipt] returns: ["success"] and ["content"] are
    always there, ["error"] is read when ["success"] is false,
    ["usage"] and ["metrics"] are read with [get]. *)
Record api_response := {
  success : bool;
  content : option text;
  error : text;
  usage : entry usage_dict;
  metrics : entry metrics_dict
}.

(** The arguments of one [analyze_receipt] call. *)
Record api_call := {
  image_bytes : list Byte.byte;
  mime_type : text;
  prompt : text;
  max_tokens : Z
}.

(** The value under ["data"] in a result. *)
Inductive payload :=
| model_dump (r : parsed)
| decoded_json (data : json).

(** The value under ["usage"] in a result: that of one call, or the
    three-key dictionary of the two-step mode. *)
Inductive usage_out :=
| stage_usage (u : option usage_dict)
| total_usage (validation extraction : option usage_dict) (total_tokens : Z).

(** The value under ["metrics"] in a result: that of one call, or the
    two-key dictionary of the two-step mode. *)
Inductive metrics_out :=
| stage_metrics (m : option metrics_dict)
| combined_metrics (validation extraction : option metrics_dict).

(** The dictionary [extract] returns; a key that is absent is [None],
    and ["data"] is [None] in a failure. *)
Record result := {
  r_success : bool;
  r_data : option payload;
  r_is_receipt : option bool;
  r_usage : option usage_out;
  r_metrics : option metrics_out;
  r_raw_response : option text;
  r_error : option text
}.

End Data.
Import Data.

(* ================================================================== *)
(** * src/core/error_handler.py *)
(* ================================================================== *)

Module ErrorHandler.

Definition failure (message : text) (raw : option text) : result :=
  {| r_success := false; r_data := None; r_is_receipt := None;
     r_usage := None; r_metrics := None;
     r_raw_response := raw; r_error := Some message |}.

Definition handle_image_processing_error (error : exn) : result :=
  failure (t "Erreur de traitement image : " ++ str error) None.

Definition handle_api_error (error : exn) : result :=
  failure (t "Erreur API : " ++ str error) None.

(** [if raw_response:] holds for a string that is not empty. *)
Definition handle_parsing_error (error : exn) (raw_response : option text)
  : result :=
  failure (t "Erreur de parsing : " ++ str error)
          match raw_response with
          | Some (c :: s) => Some (c :: s)
          | _ => None
          end.

Definition handle_validation_error (error : exn) : result :=
  failure (t "Erreur validation : " ++ str error) None.

Definition handle_api_validation_error (error : exn) : result :=
  failure (t "Erreur API validation : " ++ str error) None.

Definition handle_api_extraction_error (error : exn) : result :=
  failure (t "Erreur API extraction : " ++ str error) None.

End ErrorHandler.
Import ErrorHandler.

(* ================================================================== *)
(** * src/core/extraction_orchestrator.py *)
(* ================================================================== *)

Module ExtractionOrchestrator.

(** The injected collaborators and the configuration: the image
    processor and the API client may raise; the answer of the client may
    depend on the calls made before; the prompt builder is pure. *)
Class Collaborators := {
  process_image_in_memory :
    text -> bool -> raises (list Byte.byte * text);
  analyze_receipt : list api_call -> api_call -> raises api_response;
  build_extraction_prompt : bool -> text;
  build_validation_only_prompt : text;
  one_shot_max_tokens : Z;
  validation_max_tokens : Z;
  extraction_max_tokens : Z
}.

Section Orchestrator.
Context {lib : Pydantic} {deps : Collaborators}.

Local Open Scope effect_scope.

(** The state: the calls the API client has received so far. *)
Definition run := M (list api_call).

(** [await self.client.analyze_receipt(...)] *)
Definition call_client (c : api_call) : run api_response :=
  history <- get ;;
  modify (fun calls => calls ++ [c]) ;;;
  pure (analyze_receipt history c).

(** [Exception(message)] *)
Definition Exception (message : text) : exn := Exn OtherException message.

(** [self.response_parser.extract_json_from_response(response["content"])]:
    the pattern search raises [TypeError] when the content is
    [None]. *)
Definition extract_json (content : option text) : raises text :=
  match content with
  | Some response_text => extract_json_from_response response_text
  | None =>
      inl (Exn TypeError
             (t "expected string or bytes-like object, got 'NoneType'"))
  end.

(** [bool(v)] for a decoded JSON value. *)
Definition truthy (v : json) : bool :=
  match v with
  | JNull => false
  | JBool b => b
  | JInt z => negb (z =? 0)%Z
  | JFloat f => negb (f =? 0)%float
  | JStr s => match s with [] => false | _ :: _ => true end
  | JArr l => match l with [] => false | _ :: _ => true end
  | JObj l => match l with [] => false | _ :: _ => true end
  end.

(** [validation_data.get("is_receipt", False)] *)
Definition get_is_receipt (validation_data : json) : raises json :=
  match validation_data with
  | JObj pairs =>
      match dict_get (t "is_receipt") pairs with
      | Some v => inr v
      | None => inr (JBool false)
      end
  | _ => inl (no_attribute validation_data (t "get"))
  end.

(** [response.get("usage", {}).get("total_tokens", 0)] *)
Definition get_total_tokens (response : api_response) : raises Z :=
  match get_or (usage response) [] with
  | Some u => inr (usage_get (t "total_tokens") u 0)
  | None => inl (no_attribute JNull (t "get"))
  end.

Definition isinstance_ReceiptData (p : parsed) : bool :=
  match p with
  | IsReceiptData _ => true
  | IsInvalidReceipt _ => false
  end.

(** [_extract_one_shot] *)
Definition _extract_one_shot (image_data : list Byte.byte * text)
  : run result :=
  let (image_bytes, mime_type) := image_data in
  let prompt := build_extraction_prompt true in
  called <- guarded (call_client
              {| image_bytes := image_bytes; mime_type := mime_type;
                 prompt := prompt; max_tokens := one_shot_max_tokens |}) ;;
  match called with
  | inl e => ret (handle_api_error e)
  | inr response =>
      if negb (success response) then
        ret (handle_api_error (Exception (error response)))
      else
        let body : raises result :=
          match extract_json (content response) with
          | inl e => inl e
          | inr json_content =>
              match parse_receipt_json json_content with
              | inl e => inl e
              | inr receipt_data =>
                  inr {| r_success := true;
                         r_data := Some (model_dump receipt_data);
                         r_is_receipt :=
                           Some (isinstance_ReceiptData receipt_data);
                         r_usage :=
                           Some (stage_usage (get_or (usage response) []));
                         r_metrics :=
                           Some (stage_metrics
                                   (get_or (metrics response) []));
                         r_raw_response := content response;
                         r_error := None |}
              end
          end in
        match body with
        | inr r => ret r
        | inl e => ret (handle_parsing_error e (content response))
        end
  end.

(** The first [try] of the second mode after the validation call:
    the result the block returns, or [None] when control leaves the
    block at its end. *)
Definition validation_block (validation_response : api_response)
  : raises (option result) :=
  match extract_json (content validation_response) with
  | inl e => inl e
  | inr validation_json =>
      match loads validation_json with
      | None =>
          inl (Exn JSONDecodeError (decode_error_str validation_json))
      | Some validation_data =>
          match get_is_receipt validation_data with
          | inl e => inl e
          | inr flag =>
              if negb (truthy flag) then
                inr (Some
                  {| r_success := true;
                     r_is_receipt := Some false;
                     r_data := Some (decoded_json validation_data);
                     r_usage :=
                       Some (stage_usage
                               (get_or (usage validation_response) []));
                     r_metrics :=
                       Some (stage_metrics
                               (get_or (metrics validation_response) []));
                     r_raw_response := None;
                     r_error := None |})
              else inr None
          end
      end
  end.

(** The last [try] of the second mode, after the extraction call. *)
Definition extraction_block (validation_response extraction_response
                             : api_response) : raises result :=
  match extract_json (content extraction_response) with
  | inl e => inl e
  | inr json_content =>
      match parse_receipt_json json_content with
      | inl e => inl e
      | inr receipt_data =>
          match get_total_tokens validation_response with
          | inl e => inl e
          | inr validation_tokens =>
              match get_total_tokens extraction_response with
              | inl e => inl e
              | inr extraction_tokens =>
                  let total_usage :=
                    total_usage
                      (get_or (usage validation_response) [])
                      (get_or (usage extraction_response) [])
                      (validation_tokens + extraction_tokens) in
                  let combined_metrics :=
                    combined_metrics
                      (get_or (metrics validation_response) [])
                      (get_or (metrics extraction_response) []) in
                  inr {| r_success := true;
                         r_data := Some (model_dump receipt_data);
                         r_is_receipt := Some true;
                         r_usage := Some total_usage;
                         r_metrics := Some combined_metrics;
                         r_raw_response := content extraction_response;
                         r_error := None |}
              end
          end
      end
  end.

(** [_extract_two_step] *)
Definition _extract_two_step (image_data : list Byte.byte * text)
  : run result :=
  let (image_bytes, mime_type) := image_data in
  let validation_prompt := build_validation_only_prompt in
  called <- guarded (call_client
              {| image_bytes := image_bytes; mime_type := mime_type;
                 prompt := validation_prompt;
                 max_tokens := validation_max_tokens |}) ;;
  match called with
  | inl e => ret (handle_api_validation_error e)
  | inr validation_response =>
      if negb (success validation_response) then
        ret (handle_api_validation_error
               (Exception (error validation_response)))
      else
        match validation_block validation_response with
        | inl e => ret (handle_validation_error e)
        | inr (Some returned) => ret returned
        | inr None =>
            let extraction_prompt := build_extraction_prompt false in
            called' <- guarded (call_client
              {| image_bytes := image_bytes; mime_type := mime_type;
                 prompt := extraction_prompt;
                 max_tokens := extraction_max_tokens |}) ;;
            match called' with
            | inl e => ret (handle_api_extraction_error e)
            | inr extraction_response =>
                if negb (success extraction_response) then
                  ret (handle_api_extraction_error
                         (Exception (error extraction_response)))
                else
                  match extraction_block validation_response
                                         extraction_response with
                  | inr r => ret r
                  | inl e =>
                      ret (handle_parsing_error e
                             (content extraction_response))
                  end
            end
        end
  end.

(** [extract] *)
Definition extract (image_path : text) (optimize_image two_step : bool)
  : run result :=
  match process_image_in_memory image_path optimize_image with
  | inl e => ret (handle_image_processing_error e)
  | inr image_data =>
      if two_step then _extract_two_step image_data
      else _extract_one_shot image_data
  end.

End Orchestrator.

End ExtractionOrchestrator.
Import OpenRouterClient ExtractionOrchestrator.

(* ================================================================== *)
(** * An instance of the library interface, for the examples *)
(* ================================================================== *)

Module Native.

(** [float(z)] for an [int]. *)
Definition float_of_int (z : Z) : float :=
  SF2Prim (binary_normalize prec emax z 0 false).

(** Each scalar type accepts the JSON values of its own kind, and a
    [float] accepts an [int]; the texts of the library's exceptions are
    reduced to a title. *)
#[export] Instance native : Pydantic := {|
  validate_str := fun v => match v with JStr s => Some s | _ => None end;
  validate_float := fun v =>
    match v with
    | JFloat f => Some f
    | JInt z => Some (float_of_int z)
    | _ => None
    end;
  validate_bool := fun v => match v with JBool b => Some b | _ => None end;
  validation_error_str := fun title _ => t "validation error for " ++ title;
  decode_error_str := fun _ => t "JSONDecodeError"
|}.

End Native.

(* ================================================================== *)
(** * Properties of the line items *)
(* ================================================================== *)

Section LineItems.
Context {lib : Pydantic}.

Lemma abs_not_negative (x : float) : (abs x <? 0)%float = false.
Proof.
  rewrite ltb_spec, abs_spec.
  destruct (Prim2SF x) as [s | s | | s m e]; reflexivity.
Qed.

Lemma must_be_positive_not_negative (v : option float) (y : float) :
  must_be_positive v = Some y -> (y <? 0)%float = false.
Proof.
  unfold must_be_positive. destruct v as [x |]; [| discriminate].
  destruct (x <? 0)%float eqn:Hneg; intros [= <-].
  - apply abs_not_negative.
  - exact Hneg.
Qed.

Lemma vap_inr {A B} (f : validated (A -> B)) (x : validated A) (b : B) :
  vap f x = inr b -> exists g a, f = inr g /\ x = inr a /\ b = g a.
Proof.
  destruct f as [e1 | g], x as [e2 | a]; simpl; try discriminate.
  intros [= <-]. eauto.
Qed.

Lemma under_inr {A} (item : loc_item) (x : validated A) (a : A) :
  under item x = inr a -> x = inr a.
Proof. destruct x; simpl; congruence. Qed.

Lemma after_lift_inr {A} (f : A -> A) (x : validated A) (a : A) :
  after (lift f) x = inr a -> exists a0, x = inr a0 /\ a = f a0.
Proof.
  destruct x as [es | a0]; simpl; [discriminate |].
  intros [= <-]. eauto.
Qed.

Lemma optional_inr {A} (validate : json -> validated A) (v : json)
      (o : option A) :
  optional validate v = inr o ->
  (v = JNull /\ o = None) \/
  (v <> JNull /\ exists a, validate v = inr a /\ o = Some a).
Proof.
  unfold optional.
  destruct v; try (intros [= <-]; left; split; reflexivity);
    (destruct (validate _) as [es | a] eqn:Hv; simpl; [discriminate |];
     intros [= <-]; right; split; [discriminate | eauto]).
Qed.

Lemma scalar_inr {A} (o : option A) (a : A) : scalar o = inr a -> o = Some a.
Proof. destruct o; simpl; congruence. Qed.

(** What a monetary field of an accepted item holds, from the entry of
    the input dictionary. *)
Definition normalized (kwargs : list (text * json)) (name : text)
           (out : option float) : Prop :=
  match dict_get name kwargs with
  | None => out = None
  | Some JNull => out = None
  | Some v =>
      exists x, validate_float v = Some x /\
                out = Some (if (x <? 0)%float then abs x else x)
  end.

Lemma optional_price_field (kwargs : list (text * json)) (name : text)
      (out : option float) :
  defaulted kwargs name None
    (fun v => after (lift must_be_positive) (optional float_field v))
  = inr out ->
  normalized kwargs name out.
Proof.
  unfold defaulted, normalized.
  destruct (dict_get name kwargs) as [v |]; [| congruence].
  intros H. apply under_inr, after_lift_inr in H.
  destruct H as (o & Ho & ->).
  apply optional_inr in Ho.
  destruct Ho as [[-> ->] | [Hv (x & Hx & ->)]]; [reflexivity |].
  apply scalar_inr in Hx.
  assert (Hgoal : exists x0, validate_float v = Some x0 /\
            must_be_positive (Some x)
            = Some (if (x0 <? 0)%float then abs x0 else x0)).
  { exists x. split; [exact Hx |]. unfold must_be_positive.
    destruct (x <? 0)%float; reflexivity. }
  destruct v; try exact Hgoal. congruence.
Qed.


End LineItems.

(** A discount line, with negative amounts. *)
Definition discount_line : list (text * json) :=
  [ (t "description", JStr (t "Discount"));
    (t "quantity", JInt (-2));
    (t "unit_price", JFloat (-1.5)%float);
    (t "total_price", JNull);
    (t "tax_rate", JFloat (-0.25)%float) ].

Definition discount_item : ReceiptItem :=
  {| description := t "Discount"; quantity := 2%float;
     unit_price := Some 1.5%float; total_price := None;
     tax_rate := Some (-0.25)%float |}.


(* ================================================================== *)
(** * Properties of the category *)
(* ================================================================== *)

Section Category.
Context {lib : Pydantic}.

Lemma text_eqb_eq (a b : text) : text_eqb a b = true <-> a = b.
Proof.
  unfold text_eqb. destruct (list_eq_dec N.eq_dec a b); split;
    congruence.
Qed.

Lemma in_list_In (v : text) (l : list text) : in_list v l = true <-> In v l.
Proof.
  unfold in_list. rewrite existsb_exists. split.
  - intros (x & Hx & Heq). apply text_eqb_eq in Heq. subst. exact Hx.
  - intros H. exists v. split; [exact H | apply text_eqb_eq; reflexivity].
Qed.

Lemma substring_refl (s : text) : substring s s.
Proof. exists [], []. rewrite app_nil_r. reflexivity. Qed.

Lemma substring_app_l (r s p : text) : substring r s -> substring r (p ++ s).
Proof.
  intros (pre & post & ->). exists (p ++ pre), post.
  rewrite <- app_assoc. reflexivity.
Qed.

Lemma substring_app_r (r s p : text) : substring r s -> substring r (s ++ p).
Proof.
  intros (pre & post & ->). exists pre, (post ++ p).
  rewrite <- !app_assoc. reflexivity.
Qed.

Lemma join_substring (sep c : text) (l : list text) :
  In c l -> substring c (join sep l).
Proof.
  induction l as [| p rest IH]; [intros [] |].
  intros [-> | Hin].
  - destruct rest; [apply substring_refl |].
    simpl. apply substring_app_r, substring_refl.
  - destruct rest as [| q rest']; [destruct Hin |].
    change (join sep (p :: q :: rest')) with (p ++ sep ++ join sep (q :: rest')).
    apply substring_app_l, substring_app_l, IH, Hin.
Qed.

(** A validation result that is a failure with [e] among its lines. *)
Definition has_error {A} (e : line_error) (r : validated A) : Prop :=
  match r with
  | inl es => In e es
  | inr _ => False
  end.

Lemma has_error_vap_r {A B} (f : validated (A -> B)) (x : validated A)
      (e : line_error) :
  has_error e x -> has_error e (vap f x).
Proof.
  destruct f as [e1 | g], x as [e2 | a]; simpl; try tauto.
  intros H. apply in_or_app. right. exact H.
Qed.

Lemma has_error_vap_l {A B} (f : validated (A -> B)) (x : validated A)
      (e : line_error) :
  has_error e f -> has_error e (vap f x).
Proof.
  destruct f as [e1 | g], x as [e2 | a]; simpl; try tauto.
  intros H. apply in_or_app. left. exact H.
Qed.


End Category.

(* ================================================================== *)
(** * Properties of the totals *)
(* ================================================================== *)

Section TotalsReconciliation.
Context {lib : Pydantic}.

Lemma calculate_from_items_spec (self : Totals) (its : list ReceiptItem)
      (tolerance : float) :
  let tc := sum (non_null_total_prices its) in
  let out := calculate_from_items self its tolerance in
  total_calculated out = Some tc
  /\ subtotal out = subtotal self /\ tax out = tax self
  /\ match total self with
     | Some x =>
         total out = Some x
         /\ total_matches out = Some (abs (x - tc) <=? tolerance)%float
     | None => total out = Some tc /\ total_matches out = Some true
     end.
Proof.
  unfold calculate_from_items.
  destruct (total self) as [x |] eqn:Htot; simpl; rewrite ?Htot; auto.
Qed.

Lemma validate_totals_items (self : ReceiptData) (tolerance : float) :
  items (validate_totals self tolerance) = items self.
Proof.
  unfold validate_totals.
  destruct (totals self) eqn:Ht, (items self) eqn:Hi; simpl; congruence.
Qed.

Lemma validate_totals_recalculates (self : ReceiptData) (tolerance : float)
      (block : Totals) :
  totals self = Some block -> items self <> [] ->
  totals (validate_totals self tolerance)
  = Some (calculate_from_items block (items self) tolerance).
Proof.
  unfold validate_totals. intros -> Hne.
  destruct (items self) eqn:Hi; [contradiction | reflexivity].
Qed.

(** The guard of [validate_totals]: without a totals block or without
    items nothing is recalculated. *)
Lemma validate_totals_guard (self : ReceiptData) (tolerance : float) :
  totals self = None \/ items self = [] ->
  validate_totals self tolerance = self.
Proof.
  unfold validate_totals. intros [-> | ->]; [reflexivity |].
  destruct (totals self) eqn:Ht; reflexivity.
Qed.

Lemma parse_receipt_data_receipt (data : json) (r : ReceiptData) :
  parse_receipt_data data = inr (IsReceiptData r) ->
  exists kwargs receipt,
    data = JObj kwargs
    /\ dict_get (t "is_receipt") kwargs = Some (JBool true)
    /\ new_ReceiptData kwargs = inr receipt
    /\ r = validate_totals receipt default_tolerance.
Proof.
  unfold parse_receipt_data.
  destruct data as [| | | | | | kwargs]; try discriminate.
  destruct (dict_get (t "is_receipt") kwargs) as [[| [|] | | | | |] |] eqn:Hflag;
    try (destruct (construct _ (new_InvalidReceipt kwargs)); discriminate).
  unfold construct.
  destruct (new_ReceiptData kwargs) as [errors | receipt] eqn:Hnew;
    [discriminate |].
  intros [= <-]. exists kwargs, receipt. auto.
Qed.

(** C3 (amended). For every valid-receipt record the schema validator
    produces that has a totals block and at least one line item:
    [total_calculated] is the sum of the non-null [total_price] of the
    items; when the validated input states a total, it is kept and
    [total_matches] tells whether [|total - total_calculated| <= 0.01];
    when it states none, [total] is set to [total_calculated] and
    [total_matches] to true. *)
Theorem totals_reconciled (data : json) (r : ReceiptData) (block : Totals) :
  parse_receipt_data data = inr (IsReceiptData r) ->
  totals r = Some block ->
  items r <> [] ->
  let tc := sum (non_null_total_prices (items r)) in
  total_calculated block = Some tc
  /\ exists kwargs receipt stated,
       data = JObj kwargs
       /\ new_ReceiptData kwargs = inr receipt
       /\ totals receipt = Some stated
       /\ items receipt = items r
       /\ match total stated with
          | Some x =>
              total block = Some x
              /\ total_matches block
                 = Some (abs (x - tc) <=? default_tolerance)%float
          | None => total block = Some tc /\ total_matches block = Some true
          end.
Proof.
  intros Hparse Hblock Hitems tc.
  apply parse_receipt_data_receipt in Hparse.
  destruct Hparse as (kwargs & receipt & -> & _ & Hnew & ->).
  rewrite validate_totals_items in Hitems. subst tc.
  rewrite validate_totals_items.
  destruct (totals receipt) as [stated |] eqn:Hstated.
  - rewrite (validate_totals_recalculates receipt default_tolerance
               Hstated Hitems) in Hblock.
    injection Hblock as <-.
    pose proof (calculate_from_items_spec stated (items receipt)
                  default_tolerance) as Hspec.
    cbv zeta in Hspec. destruct Hspec as (Htc & _ & _ & Htotal).
    split; [exact Htc |].
    exists kwargs, receipt, stated. auto.
  - rewrite validate_totals_guard in Hblock by (left; exact Hstated).
    congruence.
Qed.

End TotalsReconciliation.

(** Two items priced 5.0 and 3.0 and a totals block that states no
    total. *)
Definition two_items_document : text :=
  jt "{'is_receipt': true, 'items': [{'description': 'tea', 'total_price': 5.0}, {'description': 'cake', 'total_price': 3.0}], 'totals': {}}".

Definition two_items_totals : Totals :=
  {| subtotal := None; tax := None; total := Some 8%float;
     total_calculated := Some 8%float; total_matches := Some true |}.

Definition two_items_receipt : ReceiptData :=
  {| is_receipt := true; category := None; merchant := None;
     transaction := None;
     items :=
       [ {| description := t "tea"; quantity := 1%float; unit_price := None;
            total_price := Some 5%float; tax_rate := None |};
         {| description := t "cake"; quantity := 1%float; unit_price := None;
            total_price := Some 3%float; tax_rate := None |} ];
     totals := Some two_items_totals; notes := None; reason := None |}.

Example two_items_parsed :
  parse_receipt_json (lib := Native.native) two_items_document
  = inr (IsReceiptData two_items_receipt).
Proof. vm_compute. reflexivity. Qed.

(** The totals of the two items: 8.0, and a match. *)
Lemma totals_reconciled_witness :
  (exists data,
      loads two_items_document = Some data
      /\ parse_receipt_data (lib := Native.native) data
         = inr (IsReceiptData two_items_receipt))
  /\ total_calculated two_items_totals = Some 8%float
  /\ total two_items_totals = Some 8%float
  /\ total_matches two_items_totals = Some true.
Proof.
  destruct (loads two_items_document) as [data |] eqn:Hloads;
    [| vm_compute in Hloads; discriminate].
  assert (Hparse : parse_receipt_data (lib := Native.native) data
                   = inr (IsReceiptData two_items_receipt)).
  { vm_compute in Hloads. injection Hloads as <-. vm_compute. reflexivity. }
  split; [exists data; split; [reflexivity | exact Hparse] |].
  split; [| split; reflexivity].
  exact (proj1 (@totals_reconciled Native.native data two_items_receipt
                  two_items_totals Hparse eq_refl
                  ltac:(discriminate))).
Defined.

(** The totals of the specification's other example: items priced 5.00
    and 3.50 with a stated total of 8.50, then of 9.00. *)
Example stated_total_matches :
  calculate_from_items
    {| subtotal := None; tax := None; total := Some 8.5%float;
       total_calculated := None; total_matches := None |}
    [ {| description := []; quantity := 1%float; unit_price := None;
         total_price := Some 5%float; tax_rate := None |};
      {| description := []; quantity := 1%float; unit_price := None;
         total_price := Some 3.5%float; tax_rate := None |} ]
    default_tolerance
  = {| subtotal := None; tax := None; total := Some 8.5%float;
       total_calculated := Some 8.5%float; total_matches := Some true |}.
Proof. vm_compute. reflexivity. Qed.

Example stated_total_differs :
  total_matches
    (calculate_from_items
       {| subtotal := None; tax := None; total := Some 9%float;
          total_calculated := None; total_matches := None |}
       [ {| description := []; quantity := 1%float; unit_price := None;
            total_price := Some 5%float; tax_rate := None |};
         {| description := []; quantity := 1%float; unit_price := None;
            total_price := Some 3.5%float; tax_rate := None |} ]
       default_tolerance)
  = Some false.
Proof. vm_compute. reflexivity. Qed.

(** A receipt with a totals block and no item. *)
Definition no_items_document : text :=
  jt "{'is_receipt': true, 'items': [], 'totals': {}}".

(** C3, as stated, fails: the validator produces a valid-receipt record
    whose input states no total and in which no total is set,
    [total_matches] is not true and [total_calculated] is not the sum of
    the prices. *)
Lemma totals_untouched_without_items :
  exists r block,
    parse_receipt_json (lib := Native.native) no_items_document
    = inr (IsReceiptData r)
    /\ is_receipt r = true
    /\ totals r = Some block
    /\ total block = None
    /\ total_matches block <> Some true
    /\ total_calculated block <> Some (sum (non_null_total_prices (items r))).
Proof.
  eexists. eexists.
  split; [vm_compute; reflexivity |].
  repeat split; simpl; discriminate.
Qed.

(* ================================================================== *)
(** * Properties of the statistics fetcher *)
(* ================================================================== *)

Section BackoffStats.
Variable max_retries : Z.
Variable base_delay : Q.
Variable http_get : Z -> raises http_response.
Variable uniform : Z -> Q -> Q -> Q.

Local Abbreviation fetch := (get_generation_stats max_retries base_delay http_get uniform).
Local Abbreviation loop := (attempts max_retries base_delay http_get uniform).

(** The request of attempt [k] is answered 200 with a body that decodes
    to a dictionary, whose ["data"] entry (or the empty dictionary) is
    [data]. *)
Definition answers_200 (k : Z) (data : json) : Prop :=
  exists response json_data,
    http_get k = inr response /\ status_code response = 200%Z
    /\ json_body response = inr json_data /\ get_data json_data = inr data.

(** The request of attempt [k] is answered 404, or raises. *)
Definition answers_404_or_raises (k : Z) : Prop :=
  (exists response, http_get k = inr response
                    /\ status_code response = 404%Z)
  \/ (exists e, http_get k = inl e).

(** The request of attempt [k] is answered with another status. *)
Definition answers_other_status (k : Z) : Prop :=
  exists response,
    http_get k = inr response
    /\ status_code response <> 200%Z /\ status_code response <> 404%Z.

(** The sleep that follows a failed attempt [k]. *)
Definition jitter (k : Z) : Q :=
  uniform k 0 (base_delay * inject_Z (2 ^ k) * (1 # 10)).

Definition sleep_after (k : Z) : event :=
  Sleep (base_delay * inject_Z (2 ^ k) + jitter k).

(** The events of [n] failed attempts in a row, starting at attempt [a]:
    each request is followed by its sleep. *)
Fixpoint retries (n : nat) (a : Z) : list event :=
  match n with
  | O => []
  | S n' => Request a :: sleep_after a :: retries n' (a + 1)
  end.

Lemma iteration_retry (a : Z) (trace : list event) :
  answers_404_or_raises a -> (a < max_retries - 1)%Z ->
  iteration max_retries base_delay http_get uniform a trace
  = (inr Continue, trace ++ [Request a; sleep_after a]).
Proof.
  intros Hretry Hlt. apply Z.ltb_lt in Hlt.
  unfold iteration, try_body, except_body, backoff_sleep, log_event,
    backoff_delay, sleep_after, jitter, bind, guarded, pure, ret, modify.
  destruct Hretry as [(response & -> & Hstatus) | (e & ->)].
  - rewrite Hstatus, Hlt. simpl. rewrite <- app_assoc. reflexivity.
  - rewrite Hlt. simpl. rewrite <- app_assoc. reflexivity.
Qed.

Lemma iteration_exhausted (a : Z) (trace : list event) :
  answers_404_or_raises a -> (max_retries - 1 <= a)%Z ->
  iteration max_retries base_delay http_get uniform a trace
  = (inr (Return JNull), trace ++ [Request a]).
Proof.
  intros Hretry Hge. apply Z.ltb_ge in Hge.
  unfold iteration, try_body, except_body, backoff_sleep, log_event,
    bind, guarded, pure, ret, modify.
  destruct Hretry as [(response & -> & Hstatus) | (e & ->)].
  - rewrite Hstatus, Hge. reflexivity.
  - rewrite Hge. reflexivity.
Qed.

Lemma iteration_200 (a : Z) (data : json) (trace : list event) :
  answers_200 a data ->
  iteration max_retries base_delay http_get uniform a trace
  = (inr (Return data), trace ++ [Request a]).
Proof.
  intros (response & json_data & Hget & Hstatus & Hbody & Hdata).
  unfold iteration, try_body, bind, guarded, pure, ret, log_event, modify.
  rewrite Hget, Hstatus, Hbody, Hdata. reflexivity.
Qed.

Lemma iteration_other_status (a : Z) (trace : list event) :
  answers_other_status a ->
  iteration max_retries base_delay http_get uniform a trace
  = (inr (Return JNull), trace ++ [Request a]).
Proof.
  intros (response & Hget & H200 & H404).
  apply Z.eqb_neq in H200, H404.
  unfold iteration, try_body, bind, guarded, pure, ret, log_event, modify.
  rewrite Hget, H200, H404. reflexivity.
Qed.

(** Whatever the answers, an iteration raises nothing; it begins with
    its request. *)
Lemma iteration_returns (a : Z) (trace : list event) :
  exists f more,
    iteration max_retries base_delay http_get uniform a trace
    = (inr f, trace ++ Request a :: more).
Proof.
  unfold iteration, try_body, except_body, backoff_sleep, bind, guarded,
    pure, ret, log_event, modify.
  destruct (http_get a) as [e | response]; simpl.
  - destruct (a <? max_retries - 1)%Z; simpl.
    + do 2 eexists. rewrite <- app_assoc. reflexivity.
    + do 2 eexists. reflexivity.
  - destruct (status_code response =? 200)%Z.
    + destruct (json_body response) as [e | json_data]; simpl.
      * destruct (a <? max_retries - 1)%Z; simpl.
        -- do 2 eexists. rewrite <- app_assoc. reflexivity.
        -- do 2 eexists. reflexivity.
      * destruct (get_data json_data) as [e | data]; simpl.
        -- destruct (a <? max_retries - 1)%Z; simpl.
           ++ do 2 eexists. rewrite <- app_assoc. reflexivity.
           ++ do 2 eexists. reflexivity.
        -- do 2 eexists. reflexivity.
    + destruct ((status_code response =? 404)%Z && (a <? max_retries - 1)%Z);
        simpl.
      * do 2 eexists. rewrite <- app_assoc. reflexivity.
      * do 2 eexists. reflexivity.
Qed.

Lemma attempts_returns (n : nat) :
  forall a trace, exists v more, loop n a trace = (inr v, trace ++ more).
Proof.
  induction n as [| n IH]; intros a trace; simpl.
  - unfold ret. exists JNull, []. rewrite app_nil_r. reflexivity.
  - unfold bind.
    destruct (iteration_returns a trace) as (f & more & ->).
    destruct f as [v |].
    + unfold ret. eauto.
    + destruct (IH (a + 1)%Z (trace ++ Request a :: more))
        as (v & more' & ->).
      exists v, ((Request a :: more) ++ more').
      rewrite <- app_assoc. reflexivity.
Qed.

(** A run with an iteration to go begins with the request of that
    attempt. *)
Lemma attempts_first_request (n : nat) (a : Z) (trace : list event) :
  exists v more, loop (S n) a trace = (inr v, trace ++ Request a :: more).
Proof.
  cbn [attempts]. unfold bind.
  destruct (iteration_returns a trace) as (f & more & ->).
  destruct f as [v |].
  - unfold ret. eauto.
  - destruct (attempts_returns n (a + 1)%Z (trace ++ Request a :: more))
      as (v & more' & ->).
    exists v, (more ++ more'). rewrite <- app_assoc. reflexivity.
Qed.

Lemma retries_snoc (n : nat) :
  forall a, retries (S n) a
            = retries n a ++ [Request (a + Z.of_nat n);
                              sleep_after (a + Z.of_nat n)].
Proof.
  induction n as [| n IH]; intros a.
  - simpl. rewrite Z.add_0_r. reflexivity.
  - change (retries (S (S n)) a)
      with (Request a :: sleep_after a :: retries (S n) (a + 1)).
    rewrite IH. simpl.
    replace (a + 1 + Z.of_nat n)%Z with (a + Z.pos (Pos.of_succ_nat n))%Z
      by lia.
    reflexivity.
Qed.

(** [k] failed attempts in a row, each with attempts remaining, are
    each followed by their sleep and by the next attempt. *)
Lemma attempts_after_retries (k : nat) :
  forall n a trace,
    (forall j, (a <= j < a + Z.of_nat k)%Z -> answers_404_or_raises j) ->
    (a + Z.of_nat k <= max_retries - 1)%Z ->
    loop (k + n) a trace = loop n (a + Z.of_nat k) (trace ++ retries k a).
Proof.
  induction k as [| k IH]; intros n a trace Hretry Hbound.
  - simpl. rewrite Z.add_0_r, app_nil_r. reflexivity.
  - change (loop (S k + n) a trace)
      with (bind (iteration max_retries base_delay http_get uniform a)
                 (fun f => match f with
                           | Return v => ret v
                           | Continue => loop (k + n) (a + 1)
                           end) trace).
    unfold bind. rewrite iteration_retry by (try apply Hretry; lia).
    rewrite IH by (try (intros j Hj; apply Hretry); lia).
    replace (a + 1 + Z.of_nat k)%Z with (a + Z.of_nat (S k))%Z by lia.
    simpl retries. rewrite <- app_assoc. reflexivity.
Qed.

Lemma run_from_prefix (k : Z) :
  (0 <= k < max_retries)%Z ->
  (forall j, (0 <= j < k)%Z -> answers_404_or_raises j) ->
  fetch [] = loop (S (Z.to_nat (max_retries - 1 - k))) k
                  (retries (Z.to_nat k) 0).
Proof.
  intros Hk Hretry. unfold get_generation_stats.
  replace (Z.to_nat max_retries)
    with (Z.to_nat k + S (Z.to_nat (max_retries - 1 - k)))%nat by lia.
  rewrite attempts_after_retries.
  - rewrite Z2Nat.id by lia. reflexivity.
  - intros j Hj. apply Hretry. lia.
  - lia.
Qed.


End BackoffStats.

(** Three 404 answers, then a 200 with a payload; and 404 for ever. *)
Definition stats_payload : json :=
  JObj [ (t "latency", JInt 120); (t "generation_time", JInt 900) ].

Definition answer (status : Z) (body : json) : raises http_response :=
  inr {| status_code := status; json_body := inr body |}.

Definition three_404_then_200 (attempt : Z) : raises http_response :=
  if (attempt <? 3)%Z then answer 404 (JObj [])
  else answer 200 (JObj [ (t "data", stats_payload) ]).

Definition always_404 (attempt : Z) : raises http_response :=
  answer 404 (JObj []).

(** A source of jitter that always draws the lower bound. *)
Definition lowest (attempt : Z) (a b : Q) : Q := a.

Example three_404_then_200_run :
  get_generation_stats 4 (1 # 2) three_404_then_200 lowest []
  = (inr stats_payload,
     [ Request 0; Sleep (1 # 2); Request 1; Sleep (2 # 2);
       Request 2; Sleep (4 # 2); Request 3 ]).
Proof. vm_compute. reflexivity. Qed.

Example always_404_run :
  get_generation_stats 4 (1 # 2) always_404 lowest []
  = (inr JNull,
     [ Request 0; Sleep (1 # 2); Request 1; Sleep (2 # 2);
       Request 2; Sleep (4 # 2); Request 3 ]).
Proof. vm_compute. reflexivity. Qed.


(* ================================================================== *)
(** * Properties of the orchestrator *)
(* ================================================================== *)

Section Pipeline.
Context {lib : Pydantic} {deps : Collaborators}.

(** The calls the two modes issue. *)
Definition one_shot_call (image_data : list Byte.byte * text) : api_call :=
  {| image_bytes := fst image_data; mime_type := snd image_data;
     prompt := build_extraction_prompt true;
     max_tokens := one_shot_max_tokens |}.

Definition validation_call (image_data : list Byte.byte * text) : api_call :=
  {| image_bytes := fst image_data; mime_type := snd image_data;
     prompt := build_validation_only_prompt;
     max_tokens := validation_max_tokens |}.

Definition extraction_call (image_data : list Byte.byte * text) : api_call :=
  {| image_bytes := fst image_data; mime_type := snd image_data;
     prompt := build_extraction_prompt false;
     max_tokens := extraction_max_tokens |}.

(** [_extract_one_shot], step by step. *)
Lemma one_shot_unfold (image_data : list Byte.byte * text)
      (calls : list api_call) :
  _extract_one_shot image_data calls
  = let c := one_shot_call image_data in
    (inr match analyze_receipt calls c with
         | inl e => handle_api_error e
         | inr response =>
             if negb (success response)
             then handle_api_error (Exception (error response))
             else
               match extract_json (content response) with
               | inl e => handle_parsing_error e (content response)
               | inr json_content =>
                   match parse_receipt_json json_content with
                   | inl e => handle_parsing_error e (content response)
                   | inr receipt_data =>
                       {| r_success := true;
                          r_data := Some (model_dump receipt_data);
                          r_is_receipt :=
                            Some (isinstance_ReceiptData receipt_data);
                          r_usage :=
                            Some (stage_usage (get_or (usage response) []));
                          r_metrics :=
                            Some (stage_metrics (get_or (metrics response) []));
                          r_raw_response := content response;
                          r_error := None |}
                   end
               end
         end, calls ++ [c]).
Proof.
  destruct image_data as [image_bytes mime_type].
  unfold _extract_one_shot, call_client, one_shot_call, bind, guarded, get,
    modify, pure, ret. simpl.
  destruct (analyze_receipt calls _) as [e | response]; [reflexivity |].
  destruct (success response); simpl; [| reflexivity].
  destruct (extract_json (content response)) as [e | json_content];
    [reflexivity |].
  destruct (parse_receipt_json json_content); reflexivity.
Qed.

(** [_extract_two_step], step by step. *)
Lemma two_step_unfold (image_data : list Byte.byte * text)
      (calls : list api_call) :
  _extract_two_step image_data calls
  = let c1 := validation_call image_data in
    let c2 := extraction_call image_data in
    match analyze_receipt calls c1 with
    | inl e => (inr (handle_api_validation_error e), calls ++ [c1])
    | inr validation_response =>
        if negb (success validation_response)
        then (inr (handle_api_validation_error
                     (Exception (error validation_response))),
              calls ++ [c1])
        else
          match validation_block validation_response with
          | inl e => (inr (handle_validation_error e), calls ++ [c1])
          | inr (Some returned) => (inr returned, calls ++ [c1])
          | inr None =>
              (inr match analyze_receipt (calls ++ [c1]) c2 with
                   | inl e => handle_api_extraction_error e
                   | inr extraction_response =>
                       if negb (success extraction_response)
                       then handle_api_extraction_error
                              (Exception (error extraction_response))
                       else
                         match extraction_block validation_response
                                                extraction_response with
                         | inr r => r
                         | inl e =>
                             handle_parsing_error
                               e (content extraction_response)
                         end
                   end, (calls ++ [c1]) ++ [c2])
          end
    end.
Proof.
  destruct image_data as [image_bytes mime_type].
  unfold _extract_two_step, call_client, validation_call, extraction_call,
    bind, guarded, get, modify, pure, ret. simpl.
  destruct (analyze_receipt calls _) as [e | validation_response];
    [reflexivity |].
  destruct (success validation_response); simpl; [| reflexivity].
  destruct (validation_block validation_response) as [e | [returned |]];
    try reflexivity.
  destruct (analyze_receipt (calls ++ _) _) as [e | extraction_response];
    [reflexivity |].
  destruct (success extraction_response); simpl; [| reflexivity].
  destruct (extraction_block validation_response extraction_response);
    reflexivity.
Qed.

(** The six messages of the error handler, by stage. *)
Definition stage_prefixes : list text :=
  [ t "Erreur de traitement image : "; t "Erreur API : ";
    t "Erreur de parsing : "; t "Erreur validation : ";
    t "Erreur API validation : "; t "Erreur API extraction : " ].

(** A success carries data and no error; a failure carries no data and
    the message of one stage. *)
Definition is_success (r : result) : Prop :=
  r_success r = true /\ r_error r = None /\ r_data r <> None.

Definition is_stage_failure (r : result) : Prop :=
  r_success r = false /\ r_data r = None
  /\ exists prefix e, In prefix stage_prefixes
                      /\ r_error r = Some (prefix ++ str e).

Lemma failure_is_stage_failure (prefix : text) (e : exn) (raw : option text) :
  In prefix stage_prefixes -> is_stage_failure (failure (prefix ++ str e) raw).
Proof.
  intros Hin. unfold is_stage_failure, failure. simpl.
  repeat split. exists prefix, e. auto.
Qed.

Ltac stage_failure :=
  right;
  first [ unfold handle_image_processing_error
        | unfold handle_api_error
        | unfold handle_parsing_error
        | unfold handle_validation_error
        | unfold handle_api_validation_error
        | unfold handle_api_extraction_error ];
  apply failure_is_stage_failure; simpl; tauto.

Lemma validation_block_success (validation_response : api_response)
      (returned : result) :
  validation_block validation_response = inr (Some returned) ->
  is_success returned /\ r_is_receipt returned = Some false.
Proof.
  unfold validation_block.
  destruct (extract_json (content validation_response)) as [e | vj];
    [discriminate |].
  destruct (loads vj) as [vd |]; [| discriminate].
  destruct (get_is_receipt vd) as [e | flag]; [discriminate |].
  destruct (negb (truthy flag)); [| discriminate].
  intros [= <-]. unfold is_success. simpl.
  repeat split; discriminate.
Qed.

Lemma extraction_block_success (validation_response extraction_response
                                : api_response) (r : result) :
  extraction_block validation_response extraction_response = inr r ->
  is_success r
  /\ r_is_receipt r = Some true
  /\ exists json_content receipt_data validation_tokens extraction_tokens,
       extract_json (content extraction_response) = inr json_content
       /\ parse_receipt_json json_content = inr receipt_data
       /\ get_total_tokens validation_response = inr validation_tokens
       /\ get_total_tokens extraction_response = inr extraction_tokens
       /\ r_data r = Some (model_dump receipt_data)
       /\ r_usage r
          = Some (total_usage (get_or (usage validation_response) [])
                              (get_or (usage extraction_response) [])
                              (validation_tokens + extraction_tokens))
       /\ r_metrics r
          = Some (combined_metrics (get_or (metrics validation_response) [])
                                   (get_or (metrics extraction_response) [])).
Proof.
  unfold extraction_block.
  destruct (extract_json (content extraction_response)) as [e | jc] eqn:Hjc;
    [discriminate |].
  destruct (parse_receipt_json jc) as [e | rd] eqn:Hrd; [discriminate |].
  destruct (get_total_tokens validation_response) as [e | vt] eqn:Hvt;
    [discriminate |].
  destruct (get_total_tokens extraction_response) as [e | et] eqn:Het;
    [discriminate |].
  intros [= <-]. unfold is_success. simpl.
  split; [repeat split; discriminate |]. split; [reflexivity |].
  exists jc, rd, vt, et. repeat split; assumption.
Qed.


(** C5. In the two-step mode, when the image is prepared, the validation
    call succeeds and its content decodes to a dictionary whose
    [is_receipt] is false, the result is a success with
    [is_receipt = False], the decoded dictionary as data and the usage and
    metrics of the validation response; the validation call is the only
    call made. *)
Theorem validation_rejects_without_extraction
        (image_path : text) (optimize_image : bool) (calls : list api_call)
        (image_data : list Byte.byte * text)
        (validation_response : api_response)
        (validation_json : text) (pairs : list (text * json)) :
  process_image_in_memory image_path optimize_image = inr image_data ->
  analyze_receipt calls (validation_call image_data)
  = inr validation_response ->
  success validation_response = true ->
  extract_json (content validation_response) = inr validation_json ->
  loads validation_json = Some (JObj pairs) ->
  dict_get (t "is_receipt") pairs = Some (JBool false) ->
  extract image_path optimize_image true calls
  = (inr {| r_success := true;
            r_data := Some (decoded_json (JObj pairs));
            r_is_receipt := Some false;
            r_usage :=
              Some (stage_usage (get_or (usage validation_response) []));
            r_metrics :=
              Some (stage_metrics (get_or (metrics validation_response) []));
            r_raw_response := None;
            r_error := None |},
     calls ++ [validation_call image_data]).
Proof.
  intros Himage Hcall Hsuccess Hjson Hloads Hflag.
  unfold extract. rewrite Himage, two_step_unfold. cbv zeta.
  rewrite Hcall, Hsuccess. simpl negb. cbv iota.
  unfold validation_block. rewrite Hjson, Hloads.
  unfold get_is_receipt. rewrite Hflag. reflexivity.
Qed.

(** What the last block of the two-step mode returns when neither usage
    is [None]: the sum of the two token counts and the two metrics side
    by side. *)
Lemma two_step_usage_combined
      (validation_response extraction_response : api_response)
      (json_content : text) (receipt_data : parsed)
      (validation_usage extraction_usage : usage_dict) :
  extract_json (content extraction_response) = inr json_content ->
  parse_receipt_json json_content = inr receipt_data ->
  get_or (usage validation_response) [] = Some validation_usage ->
  get_or (usage extraction_response) [] = Some extraction_usage ->
  extraction_block validation_response extraction_response
  = inr {| r_success := true;
           r_data := Some (model_dump receipt_data);
           r_is_receipt := Some true;
           r_usage :=
             Some (total_usage
                     (Some validation_usage) (Some extraction_usage)
                     (usage_get (t "total_tokens") validation_usage 0
                      + usage_get (t "total_tokens") extraction_usage 0));
           r_metrics :=
             Some (combined_metrics
                     (get_or (metrics validation_response) [])
                     (get_or (metrics extraction_response) []));
           r_raw_response := content extraction_response;
           r_error := None |}.
Proof.
  intros Hjson Hparse Hv He.
  unfold extraction_block, get_total_tokens.
  rewrite Hjson, Hparse, Hv, He. reflexivity.
Qed.

(** When the usage of either response is [None], the same block raises
    although the content was parsed. *)
Lemma two_step_usage_none
      (validation_response extraction_response : api_response)
      (json_content : text) (receipt_data : parsed) :
  extract_json (content extraction_response) = inr json_content ->
  parse_receipt_json json_content = inr receipt_data ->
  usage validation_response = IsNone \/ usage extraction_response = IsNone ->
  extraction_block validation_response extraction_response
  = inl (no_attribute JNull (t "get")).
Proof.
  intros Hjson Hparse Hnone.
  unfold extraction_block, get_total_tokens. rewrite Hjson, Hparse.
  destruct Hnone as [-> | ->]; simpl; [reflexivity |].
  destruct (get_or (usage validation_response) []); reflexivity.
Qed.


End Pipeline.

(* ================================================================== *)
(** * Scripted runs of the orchestrator *)
(* ================================================================== *)

Definition sample_image : list Byte.byte * text := ([], t "image/jpeg").

Definition no_more_answers : exn := Exn OtherException (t "no answer left").

(** Collaborators whose client gives the scripted answers in order. *)
Definition scripted (answers : list (raises api_response)) : Collaborators :=
  {| process_image_in_memory := fun _ _ => inr sample_image;
     analyze_receipt := fun history _ =>
       nth (length history) answers (inl no_more_answers);
     build_extraction_prompt := fun include_validation =>
       if include_validation then t "validate, then extract" else t "extract";
     build_validation_only_prompt := t "is this a receipt?";
     one_shot_max_tokens := 2000;
     validation_max_tokens := 100;
     extraction_max_tokens := 2000 |}.

Definition reply (content : text) (usage : entry usage_dict)
           (metrics : entry metrics_dict) : raises api_response :=
  inr {| success := true; content := Some content; error := [];
         usage := usage; metrics := metrics |}.

Definition tokens (n : Z) : entry usage_dict :=
  Bound [ (t "prompt_tokens", n - 10); (t "completion_tokens", 10);
          (t "total_tokens", n) ]%Z.

Definition finished : entry metrics_dict :=
  Bound [ (t "finish_reason", JStr (t "stop")) ].

Definition blank_page_text : text :=
  jt "{'is_receipt': false, 'reason': 'blank page'}".

Definition blank_page_pairs : list (text * json) :=
  [ (t "is_receipt", JBool false); (t "reason", JStr (t "blank page")) ].

Definition blank_page_script : Collaborators :=
  scripted [ reply blank_page_text (tokens 60) finished ].

(** A blank page: one call, and a success that is not a receipt. *)
Lemma validation_rejects_without_extraction_witness :
  loads blank_page_text = Some (JObj blank_page_pairs)
  /\ extract (lib := Native.native) (deps := blank_page_script)
             (t "page.jpg") true true []
     = (inr {| r_success := true;
               r_data := Some (decoded_json (JObj blank_page_pairs));
               r_is_receipt := Some false;
               r_usage :=
                 Some (stage_usage
                         (Some [ (t "prompt_tokens", 50);
                                 (t "completion_tokens", 10);
                                 (t "total_tokens", 60) ]%Z));
               r_metrics :=
                 Some (stage_metrics
                         (Some [ (t "finish_reason", JStr (t "stop")) ]));
               r_raw_response := None;
               r_error := None |},
        [ {| image_bytes := []; mime_type := t "image/jpeg";
             prompt := t "is this a receipt?"; max_tokens := 100 |} ]).
Proof.
  assert (Hloads : loads blank_page_text = Some (JObj blank_page_pairs))
    by (vm_compute; reflexivity).
  split; [exact Hloads |].
  refine (@validation_rejects_without_extraction
            Native.native blank_page_script (t "page.jpg") true []
            sample_image _ blank_page_text blank_page_pairs
            eq_refl eq_refl eq_refl _ Hloads eq_refl).
  vm_compute. reflexivity.
Defined.

(** The answer to the validation call says the image is a receipt; the
    answer to the extraction call says it is not. *)
Definition validated_text : text := jt "{'is_receipt': true}".

Definition blurry_text : text :=
  jt "{'is_receipt': false, 'reason': 'too blurry to read'}".

Definition second_thoughts_script : Collaborators :=
  scripted [ reply validated_text (tokens 60) finished;
             reply blurry_text (tokens 900) finished ].

Example second_thoughts_run :
  exists r calls,
    extract (lib := Native.native) (deps := second_thoughts_script)
            (t "receipt.jpg") true true []
    = (inr r, calls)
    /\ length calls = 2%nat
    /\ r_success r = true
    /\ r_is_receipt r = Some true
    /\ r_data r
       = Some (model_dump
                 (IsInvalidReceipt
                    {| invalid_is_receipt := false;
                       invalid_reason := t "too blurry to read" |}))
    /\ r_usage r
       = Some (total_usage
                 (Some [ (t "prompt_tokens", 50); (t "completion_tokens", 10);
                         (t "total_tokens", 60) ]%Z)
                 (Some [ (t "prompt_tokens", 890); (t "completion_tokens", 10);
                         (t "total_tokens", 900) ]%Z)
                 960).
Proof.
  do 2 eexists. split; [vm_compute; reflexivity |].
  repeat split.
Qed.

(** The same answer in the one-shot mode. *)
Example one_shot_not_a_receipt :
  exists r calls,
    extract (lib := Native.native)
            (deps := scripted [ reply blurry_text (tokens 900) finished ])
            (t "receipt.jpg") true false []
    = (inr r, calls)
    /\ r_success r = true
    /\ r_is_receipt r = Some false.
Proof.
  do 2 eexists. split; [vm_compute; reflexivity |].
  split; reflexivity.
Qed.

(** Both calls succeed and the extraction answer is a valid receipt, but
    the answer to the validation call has no usage (the client returns
    ["usage": None] when the provider sent none). *)
Definition usage_none_script : Collaborators :=
  scripted [ reply validated_text IsNone finished;
             reply two_items_document (tokens 900) finished ].

(** C8, at the failing input: in the two-step mode both calls succeed
    and the extraction answer is parsed, yet the result is a failure
    reported as a parsing error, with no usage and no metrics. *)
Theorem two_step_fails_on_usage_none :
  parse_receipt_json (lib := Native.native) two_items_document
  = inr (IsReceiptData two_items_receipt)
  /\ extract (lib := Native.native) (deps := usage_none_script)
             (t "receipt.jpg") true true []
     = (inr {| r_success := false; r_data := None; r_is_receipt := None;
               r_usage := None; r_metrics := None;
               r_raw_response := Some two_items_document;
               r_error :=
                 Some (t "Erreur de parsing : 'NoneType' object has no attribute 'get'") |},
        [ {| image_bytes := []; mime_type := t "image/jpeg";
             prompt := t "is this a receipt?"; max_tokens := 100 |};
          {| image_bytes := []; mime_type := t "image/jpeg";
             prompt := t "extract"; max_tokens := 2000 |} ])
  /\ extract (lib := Native.native)
             (deps := scripted [ reply two_items_document IsNone finished ])
             (t "receipt.jpg") true false []
     = (inr {| r_success := true;
               r_data := Some (model_dump (IsReceiptData two_items_receipt));
               r_is_receipt := Some true;
               r_usage := Some (stage_usage None);
               r_metrics :=
                 Some (stage_metrics
                         (Some [ (t "finish_reason", JStr (t "stop")) ]));
               r_raw_response := Some two_items_document;
               r_error := None |},
        [ {| image_bytes := []; mime_type := t "image/jpeg";
             prompt := t "validate, then extract"; max_tokens := 2000 |} ]).
Proof.
  split; [exact two_items_parsed |].
  split; vm_compute; reflexivity.
Qed.

(* ================================================================== *)
(** * Properties of the bracket scan *)
(* ================================================================== *)

Unset Implicit Arguments.

Section BracketScan.

(** The loop over [s] when no iteration ends in [break]: the state it
    leaves; [None] when one does. *)
Fixpoint scan_through (i : Z) (s : text) (st : scan_state)
  : option scan_state :=
  match s with
  | [] => Some st
  | char :: rest =>
      let (st', stop) := scan_step i char st in
      if stop then None else scan_through (i + 1) rest st'
  end.

Lemma scan_through_app (a b : text) :
  forall i st st1,
    scan_through i a st = Some st1 ->
    scan_through i (a ++ b) st
    = scan_through (i + Z.of_nat (length a)) b st1.
Proof.
  induction a as [| c a IH]; intros i st st1; simpl.
  - intros [= <-]. rewrite Z.add_0_r. reflexivity.
  - destruct (scan_step i c st) as [st' stop].
    destruct stop; [discriminate |].
    intros H. rewrite (IH _ _ _ H). f_equal. lia.
Qed.

Lemma scan_loop_app (a b : text) :
  forall i st st1,
    scan_through i a st = Some st1 ->
    scan_loop i (a ++ b) st = scan_loop (i + Z.of_nat (length a)) b st1.
Proof.
  induction a as [| c a IH]; intros i st st1; simpl.
  - intros [= <-]. rewrite Z.add_0_r. reflexivity.
  - destruct (scan_step i c st) as [st' stop].
    destruct stop; [discriminate |].
    intros H. rewrite (IH _ _ _ H). f_equal. lia.
Qed.

Definition with_in_string (b : bool) (st : scan_state) : scan_state :=
  {| start_pos := start_pos st; end_pos := end_pos st; depth := depth st;
     in_string := b; escape_next := escape_next st;
     open_char := open_char st; close_char := close_char st |}.

Definition with_escape_next (b : bool) (st : scan_state) : scan_state :=
  {| start_pos := start_pos st; end_pos := end_pos st; depth := depth st;
     in_string := in_string st; escape_next := b;
     open_char := open_char st; close_char := close_char st |}.

(** The span was opened by a brace or by a bracket. *)
Definition brackets (st : scan_state) : Prop :=
  (open_char st = Some c_lbrace /\ close_char st = Some c_rbrace)
  \/ (open_char st = Some c_lbracket /\ close_char st = Some c_rbracket).

(** Inside an open span, outside a string. *)
Definition in_span (st : scan_state) : Prop :=
  start_pos st <> (-1)%Z /\ in_string st = false /\ escape_next st = false
  /\ (1 <= depth st)%Z /\ brackets st.

(** A piece of text over which the scan, inside an open span, passes
    without a [break] and comes back to the state it started from. *)
Definition inert (c : text) : Prop :=
  forall i st, in_span st -> scan_through i c st = Some st.

(** A piece of text that ends the string the scan is in. *)
Definition closes_string (raw : text) : Prop :=
  forall i st,
    in_string st = true -> escape_next st = false -> brackets st ->
    scan_through i raw st = Some (with_in_string false st).

(** Neither a quote, nor a backslash, nor a brace, nor a bracket. *)
Definition plain (c : N) : bool :=
  negb (N.eqb c c_quote || N.eqb c c_backslash || N.eqb c c_lbrace
        || N.eqb c c_rbrace || N.eqb c c_lbracket || N.eqb c c_rbracket).

Lemma inert_nil : inert [].
Proof. intros i st _. reflexivity. Qed.

Lemma inert_app (a b : text) : inert a -> inert b -> inert (a ++ b).
Proof.
  intros Ha Hb i st Hst.
  rewrite (scan_through_app a b i st st (Ha i st Hst)). apply Hb, Hst.
Qed.

Lemma scan_step_plain (i : Z) (c : N) (st : scan_state) :
  in_span st -> plain c = true -> scan_step i c st = (st, false).
Proof.
  destruct st as [sp ep d ins esc oc cc].
  unfold in_span, brackets, plain. simpl.
  intros (Hsp & -> & -> & Hd & Hoc) Hc.
  apply negb_true_iff in Hc. repeat apply orb_false_iff in Hc as [Hc ?].
  unfold scan_step. simpl. rewrite Hc. simpl.
  match goal with H : N.eqb c c_backslash = false |- _ => rewrite H end.
  apply Z.eqb_neq in Hsp. rewrite Hsp.
  destruct Hoc as [[-> ->] | [-> ->]]; simpl;
    repeat match goal with H : N.eqb c _ = false |- _ => rewrite H; clear H end;
    reflexivity.
Qed.

Lemma inert_plain (c : text) : forallb plain c = true -> inert c.
Proof.
  induction c as [| ch c IH]; simpl; [intros _; apply inert_nil |].
  intros H. apply andb_true_iff in H as [Hch Hc].
  intros i st Hst. simpl. rewrite (scan_step_plain i ch st Hst Hch).
  apply IH; assumption.
Qed.

Lemma scan_step_in_string (i : Z) (c : N) (st : scan_state) :
  in_string st = true -> escape_next st = false ->
  N.eqb c c_quote = false -> N.eqb c c_backslash = false ->
  scan_step i c st = (st, false).
Proof.
  destruct st as [sp ep d ins esc oc cc]. simpl.
  intros -> -> Hq Hb. unfold scan_step. simpl. rewrite Hb, Hq. reflexivity.
Qed.

Lemma scan_step_backslash (i : Z) (st : scan_state) :
  escape_next st = false ->
  scan_step i c_backslash st = (with_escape_next true st, false).
Proof.
  destruct st as [sp ep d ins esc oc cc]. simpl.
  intros ->. reflexivity.
Qed.

Lemma scan_step_escaped (i : Z) (c : N) (st : scan_state) :
  escape_next st = true ->
  scan_step i c st = (with_escape_next false st, false).
Proof.
  destruct st as [sp ep d ins esc oc cc]. simpl.
  intros ->. reflexivity.
Qed.

Lemma scan_step_quote_closes (i : Z) (st : scan_state) :
  in_string st = true -> escape_next st = false -> brackets st ->
  scan_step i c_quote st = (with_in_string false st, false).
Proof.
  destruct st as [sp ep d ins esc oc cc]. unfold brackets. simpl.
  intros -> -> Hoc. unfold scan_step, with_in_string. simpl.
  destruct (sp =? -1)%Z; [reflexivity |].
  destruct Hoc as [[-> ->] | [-> ->]]; reflexivity.
Qed.

Lemma scan_step_quote_opens (i : Z) (st : scan_state) :
  in_string st = false -> escape_next st = false ->
  scan_step i c_quote st = (with_in_string true st, false).
Proof.
  destruct st as [sp ep d ins esc oc cc]. simpl.
  intros -> ->. reflexivity.
Qed.

Lemma closes_string_quote : closes_string [c_quote].
Proof.
  intros i st Hin Hesc Hbr. simpl.
  rewrite (scan_step_quote_closes i st Hin Hesc Hbr). reflexivity.
Qed.

Lemma closes_string_char (c : N) (raw : text) :
  N.eqb c c_quote = false -> N.eqb c c_backslash = false ->
  closes_string raw -> closes_string (c :: raw).
Proof.
  intros Hq Hb Hraw i st Hin Hesc Hbr. simpl.
  rewrite (scan_step_in_string i c st Hin Hesc Hq Hb).
  apply Hraw; assumption.
Qed.

Lemma closes_string_escape (e : N) (raw : text) :
  closes_string raw -> closes_string (c_backslash :: e :: raw).
Proof.
  intros Hraw i st Hin Hesc Hbr. simpl.
  rewrite (scan_step_backslash i st Hesc).
  rewrite scan_step_escaped by reflexivity.
  replace (with_escape_next false (with_escape_next true st)) with st
    by (destruct st; simpl in *; subst; reflexivity).
  apply Hraw; assumption.
Qed.

Lemma inert_string (raw : text) : closes_string raw -> inert (c_quote :: raw).
Proof.
  intros Hraw i st (Hsp & Hin & Hesc & Hd & Hbr). simpl.
  rewrite (scan_step_quote_opens i st Hin Hesc).
  rewrite (Hraw (i + 1)%Z (with_in_string true st)); try assumption;
    try reflexivity.
  destruct st; simpl in *; subst; reflexivity.
Qed.

Ltac n_bools :=
  repeat match goal with
         | H : _ && _ = true |- _ => apply andb_true_iff in H; destruct H
         | H : _ || _ = false |- _ => apply orb_false_iff in H; destruct H
         | H : _ || _ = true |- _ => apply orb_true_iff in H; destruct H
         | H : negb _ = true |- _ => apply negb_true_iff in H
         | H : N.eqb _ _ = true |- _ => apply N.eqb_eq in H
         | H : N.eqb _ _ = false |- _ => apply N.eqb_neq in H
         | H : N.leb _ _ = true |- _ => apply N.leb_le in H
         | H : N.leb _ _ = false |- _ => apply N.leb_gt in H
         | H : N.ltb _ _ = true |- _ => apply N.ltb_lt in H
         | H : N.ltb _ _ = false |- _ => apply N.ltb_ge in H
         end.

Lemma plain_spec (c : N) :
  plain c = true
  <-> (c <> 34 /\ c <> 92 /\ c <> 123 /\ c <> 125 /\ c <> 91 /\ c <> 93)%N.
Proof.
  unfold plain. rewrite negb_true_iff, !orb_false_iff, !N.eqb_neq. tauto.
Qed.

Lemma digit_plain (c : N) : is_digit c = true -> plain c = true.
Proof.
  unfold is_digit. intros H. n_bools. apply plain_spec. lia.
Qed.

Lemma sign_plain (c : N) :
  N.eqb c c_minus = true \/ N.eqb c c_plus = true -> plain c = true.
Proof. intros H. apply plain_spec. destruct H; n_bools; subst; lia. Qed.

Lemma ws_plain (c : N) : is_ws c = true -> plain c = true.
Proof.
  unfold is_ws. intros H. apply plain_spec. n_bools; subst; lia.
Qed.

(** The text a scanner reads: [s] is a piece with property [P] followed
    by the text left. *)
Definition reads (P : text -> Prop) (s rest : text) : Prop :=
  exists c, s = c ++ rest /\ P c.

Definition all_plain (c : text) : Prop := forallb plain c = true.

Lemma skip_ws_reads (s : text) : reads all_plain s (skip_ws s).
Proof.
  induction s as [| c s IH]; simpl.
  - exists []. split; reflexivity.
  - destruct (is_ws c) eqn:Hws.
    + destruct IH as (w & Hw & Hplain). exists (c :: w). split.
      * simpl. f_equal. exact Hw.
      * unfold all_plain. simpl. rewrite (ws_plain c Hws). exact Hplain.
    + exists []. split; reflexivity.
Qed.

Lemma take_digits_reads (s : text) :
  forall ds rest, take_digits s = (ds, rest) -> s = ds ++ rest /\ all_plain ds.
Proof.
  induction s as [| c s IH]; simpl; intros ds rest.
  - intros [= <- <-]. split; reflexivity.
  - destruct (is_digit c) eqn:Hd.
    + destruct (take_digits s) as [ds' rest'].
      intros [= <- <-]. destruct (IH ds' rest' eq_refl) as [-> Hplain].
      split; [reflexivity |].
      unfold all_plain. simpl. rewrite (digit_plain c Hd). exact Hplain.
    + intros [= <- <-]. split; reflexivity.
Qed.

Lemma startswith_reads (p s : text) :
  startswith p s = true -> s = p ++ skipn (length p) s.
Proof.
  revert s. induction p as [| a p IH]; intros s; simpl; [reflexivity |].
  destruct s as [| b s]; [discriminate |].
  intros H. n_bools. subst. f_equal. apply IH. assumption.
Qed.

Lemma all_plain_app (a b : text) :
  all_plain a -> all_plain b -> all_plain (a ++ b).
Proof.
  unfold all_plain. intros Ha Hb. rewrite forallb_app, Ha, Hb. reflexivity.
Qed.

Lemma match_integer_reads (s : text) (ints r1 : text) :
  match_integer s = Some (ints, r1) -> s = ints ++ r1 /\ all_plain ints.
Proof.
  unfold match_integer. destruct s as [| c r]; [discriminate |].
  destruct (N.eqb c c_zero) eqn:Hz.
  - intros [= <- <-]. n_bools. subst. split; reflexivity.
  - destruct (is_digit c) eqn:Hd; [| discriminate].
    intros [= H]. apply take_digits_reads. exact H.
Qed.

Lemma match_frac_reads (s : text) (fr r : text) :
  match_frac s = Some (fr, r) -> reads all_plain s r.
Proof.
  unfold match_frac. destruct s as [| c s]; [discriminate |].
  destruct (N.eqb c c_dot) eqn:Hdot; [| discriminate].
  destruct (take_digits s) as [ds rest] eqn:Hds.
  destruct (take_digits_reads s ds rest Hds) as [-> Hplain].
  destruct ds as [| d ds]; [discriminate |].
  intros [= <- <-]. exists (c :: d :: ds). split; [reflexivity |].
  n_bools. subst. exact Hplain.
Qed.

Lemma match_exp_reads (s : text) (e : Z) (r : text) :
  match_exp s = Some (e, r) -> reads all_plain s r.
Proof.
  unfold match_exp. destruct s as [| c s]; [discriminate |].
  destruct (N.eqb c 101 || N.eqb c 69) eqn:He; [| discriminate].
  assert (Hc : plain c = true) by (apply plain_spec; n_bools; subst; lia).
  assert (Hsign : exists sg r1,
             s = sg ++ r1 /\ all_plain sg
             /\ (let (neg, r1) :=
                   match s with
                   | sg0 :: r' =>
                       if N.eqb sg0 c_minus then (true, r')
                       else if N.eqb sg0 c_plus then (false, r')
                       else (false, s)
                   | [] => (false, s)
                   end in r1) = r1).
  { destruct s as [| sg0 r'].
    - exists [], []. repeat split.
    - destruct (N.eqb sg0 c_minus) eqn:Hm.
      + exists [sg0], r'. split; [reflexivity |]. split; [| reflexivity].
        unfold all_plain. simpl. rewrite sign_plain by (left; exact Hm).
        reflexivity.
      + destruct (N.eqb sg0 c_plus) eqn:Hp.
        * exists [sg0], r'. split; [reflexivity |]. split; [| reflexivity].
          unfold all_plain. simpl. rewrite sign_plain by (right; exact Hp).
          reflexivity.
        * exists [], (sg0 :: r'). repeat split. }
  destruct Hsign as (sg & r1 & Hs & Hsg & Hr1).
  destruct (match s with
            | sg0 :: r' =>
                if N.eqb sg0 c_minus then (true, r')
                else if N.eqb sg0 c_plus then (false, r')
                else (false, s)
            | [] => (false, s)
            end) as [neg r1'].
  simpl in Hr1. subst r1'.
  destruct (take_digits r1) as [ds rest] eqn:Hds.
  destruct (take_digits_reads r1 ds rest Hds) as [-> Hplain].
  destruct ds as [| d ds]; [discriminate |].
  intros [= _ <-]. exists (c :: sg ++ d :: ds). split.
  - rewrite Hs. simpl. rewrite <- app_assoc. reflexivity.
  - unfold all_plain. simpl. rewrite Hc. simpl.
    apply all_plain_app; assumption.
Qed.

Lemma match_number_reads (s : text) (v : json) (rest : text) :
  match_number s = Some (v, rest) ->
  reads all_plain s rest /\ is_container v = false.
Proof.
  unfold match_number.
  assert (Hsign : exists sg s1,
             s = sg ++ s1 /\ all_plain sg
             /\ snd (match s with
                     | c :: r => if N.eqb c c_minus then (true, r) else (false, s)
                     | [] => (false, s)
                     end) = s1).
  { destruct s as [| c r].
    - exists [], []. repeat split.
    - destruct (N.eqb c c_minus) eqn:Hm.
      + exists [c], r. split; [reflexivity |]. split; [| reflexivity].
        unfold all_plain. simpl. rewrite sign_plain by (left; exact Hm).
        reflexivity.
      + exists [], (c :: r). repeat split. }
  destruct Hsign as (sg & s1 & Hs & Hsg & Hs1).
  destruct (match s with
            | c :: r => if N.eqb c c_minus then (true, r) else (false, s)
            | [] => (false, s)
            end) as [neg s1'].
  simpl in Hs1. subst s1'.
  destruct (match_integer s1) as [[ints r1] |] eqn:Hint; [| discriminate].
  destruct (match_integer_reads s1 ints r1 Hint) as [-> Hints].
  assert (Hfrac : exists frac fc r2,
             match match_frac r1 with
             | Some (fr, r) => (Some fr, r)
             | None => (None, r1)
             end = (frac, r2)
             /\ r1 = fc ++ r2 /\ all_plain fc).
  { destruct (match_frac r1) as [[fr r] |] eqn:Hfr.
    - destruct (match_frac_reads r1 fr r Hfr) as (fc & Hfc & Hplain).
      exists (Some fr), fc, r. auto.
    - exists None, [], r1. repeat split. }
  destruct Hfrac as (frac & fc & r2 & -> & Hr1 & Hfc).
  assert (Hexp : exists exp ec r3,
             match match_exp r2 with
             | Some (e, r) => (Some e, r)
             | None => (None, r2)
             end = (exp, r3)
             /\ r2 = ec ++ r3 /\ all_plain ec).
  { destruct (match_exp r2) as [[e r] |] eqn:He.
    - destruct (match_exp_reads r2 e r He) as (ec & Hec & Hplain).
      exists (Some e), ec, r. auto.
    - exists None, [], r2. repeat split. }
  destruct Hexp as (exp & ec & r3 & -> & Hr2 & Hec).
  intros Hv.
  assert (Hrest : rest = r3 /\ is_container v = false).
  { destruct frac, exp; injection Hv as <- <-; split; reflexivity. }
  destruct Hrest as [-> Hcont]. split; [| exact Hcont].
  exists (sg ++ ints ++ fc ++ ec). split.
  - subst. rewrite <- !app_assoc. reflexivity.
  - repeat apply all_plain_app; assumption.
Qed.

(** [scanstring], one character at a time. *)
Definition continue_with (u : N) (r : option (text * text))
  : option (text * text) :=
  match r with
  | Some (body, rest) => Some (u :: body, rest)
  | None => None
  end.

(** After the four digits of a [\u] escape: a low surrogate that follows
    a high one is read with it. *)
Definition unicode_tail (uni : N) (r2 : text) : option (text * text) :=
  match r2 with
  | b :: u :: g1 :: g2 :: g3 :: g4 :: r3 =>
      match hex4 g1 g2 g3 g4 with
      | Some uni2 =>
          if is_high_surrogate uni && N.eqb b c_backslash
             && N.eqb u 117 && is_low_surrogate uni2
          then continue_with
                 (65536 + ((uni - 55296) * 1024 + (uni2 - 56320)))%N
                 (scanstring r3)
          else continue_with uni (scanstring r2)
      | None => continue_with uni (scanstring r2)
      end
  | _ => continue_with uni (scanstring r2)
  end.

Lemma scanstring_cons (c : N) (r : text) :
  scanstring (c :: r)
  = if N.eqb c c_quote then Some ([], r)
    else if N.eqb c c_backslash then
      match r with
      | [] => None
      | e :: r1 =>
          if N.eqb e 117 then
            match r1 with
            | h1 :: h2 :: h3 :: h4 :: r2 =>
                match hex4 h1 h2 h3 h4 with
                | None => None
                | Some uni => unicode_tail uni r2
                end
            | _ => None
            end
          else
            match backslash e with
            | Some ch => continue_with ch (scanstring r1)
            | None => None
            end
      end
    else if N.ltb c 32 then None
    else continue_with c (scanstring r).
Proof. reflexivity. Qed.

Lemma unicode_tail_cases (uni : N) (r2 : text) :
  unicode_tail uni r2 = continue_with uni (scanstring r2)
  \/ exists g1 g2 g3 g4 r3 uni2 x,
       r2 = c_backslash :: 117%N :: g1 :: g2 :: g3 :: g4 :: r3
       /\ hex4 g1 g2 g3 g4 = Some uni2
       /\ unicode_tail uni r2 = continue_with x (scanstring r3).
Proof.
  destruct r2 as [| b [| u [| g1 [| g2 [| g3 [| g4 r3]]]]]];
    try (left; reflexivity).
  unfold unicode_tail.
  destruct (hex4 g1 g2 g3 g4) as [uni2 |] eqn:Hhex; [| left; reflexivity].
  destruct (is_high_surrogate uni && N.eqb b c_backslash && N.eqb u 117
            && is_low_surrogate uni2) eqn:Hpair; [| left; reflexivity].
  right. n_bools. subst. do 7 eexists. repeat split. exact Hhex.
Qed.

Lemma continue_with_some (u : N) (r : option (text * text))
      (body rest : text) :
  continue_with u r = Some (body, rest) ->
  exists body', r = Some (body', rest).
Proof.
  destruct r as [[body' rest'] |]; simpl; [| discriminate].
  intros [= _ <-]. eauto.
Qed.

Lemma hex_value_ordinary (c x : N) :
  hex_value c = Some x -> N.eqb c c_quote = false /\ N.eqb c c_backslash = false.
Proof.
  unfold hex_value.
  destruct (N.leb 48 c && N.leb c 57) eqn:H1;
    [| destruct (N.leb 97 c && N.leb c 102) eqn:H2;
       [| destruct (N.leb 65 c && N.leb c 70) eqn:H3; [| discriminate]]];
    intros _; n_bools; split; apply N.eqb_neq; lia.
Qed.

Lemma closes_string_hex4 (h1 h2 h3 h4 uni : N) (raw : text) :
  hex4 h1 h2 h3 h4 = Some uni ->
  closes_string raw -> closes_string (h1 :: h2 :: h3 :: h4 :: raw).
Proof.
  unfold hex4.
  destruct (hex_value h1) as [x1 |] eqn:E1; [| discriminate].
  destruct (hex_value h2) as [x2 |] eqn:E2; [| discriminate].
  destruct (hex_value h3) as [x3 |] eqn:E3; [| discriminate].
  destruct (hex_value h4) as [x4 |] eqn:E4; [| discriminate].
  intros _ Hraw.
  apply hex_value_ordinary in E1, E2, E3, E4.
  repeat apply closes_string_char; tauto.
Qed.

(** What [scanstring] reads ends the string, for the scan too. *)
Lemma scanstring_reads (n : nat) :
  forall s body rest,
    (length s <= n)%nat ->
    scanstring s = Some (body, rest) ->
    reads closes_string s rest.
Proof.
  induction n as [| n IH]; intros s body rest Hlen.
  { destruct s; [discriminate | simpl in Hlen; lia]. }
  destruct s as [| c r]; [discriminate |]. simpl in Hlen.
  rewrite scanstring_cons.
  destruct (N.eqb c c_quote) eqn:Hq.
  { intros [= _ <-]. n_bools. subst. exists [c_quote].
    split; [reflexivity | apply closes_string_quote]. }
  destruct (N.eqb c c_backslash) eqn:Hb.
  - n_bools. subst c.
    destruct r as [| e r1]; [discriminate |]. simpl in Hlen.
    destruct (N.eqb e 117) eqn:Hu.
    + destruct r1 as [| h1 [| h2 [| h3 [| h4 r2]]]]; try discriminate.
      simpl in Hlen.
      destruct (hex4 h1 h2 h3 h4) as [uni |] eqn:Hhex; [| discriminate].
      destruct (unicode_tail_cases uni r2)
        as [-> | (g1 & g2 & g3 & g4 & r3 & uni2 & x & -> & Hhex2 & ->)];
        intros H; apply continue_with_some in H as (body' & H);
        apply IH in H; try (simpl in *; lia);
        destruct H as (raw & -> & Hraw).
      * exists (c_backslash :: e :: h1 :: h2 :: h3 :: h4 :: raw).
        split; [reflexivity |].
        apply closes_string_escape. eapply closes_string_hex4; eassumption.
      * exists (c_backslash :: e :: h1 :: h2 :: h3 :: h4
                  :: c_backslash :: 117%N :: g1 :: g2 :: g3 :: g4 :: raw).
        split; [reflexivity |].
        apply closes_string_escape. eapply closes_string_hex4; [eassumption |].
        apply closes_string_escape. eapply closes_string_hex4; eassumption.
    + destruct (backslash e) as [ch |]; [| discriminate].
      intros H. apply continue_with_some in H as (body' & H).
      apply IH in H; [| lia]. destruct H as (raw & -> & Hraw).
      exists (c_backslash :: e :: raw). split; [reflexivity |].
      apply closes_string_escape. exact Hraw.
  - destruct (N.ltb c 32); [discriminate |].
    intros H. apply continue_with_some in H as (body' & H).
    apply IH in H; [| lia]. destruct H as (raw & -> & Hraw).
    exists (c :: raw). split; [reflexivity |].
    apply closes_string_char; assumption.
Qed.

Lemma inert_cons_plain (c : N) (rest : text) :
  plain c = true -> inert rest -> inert (c :: rest).
Proof.
  intros Hc Hrest. change (c :: rest) with ([c] ++ rest).
  apply inert_app; [| exact Hrest].
  apply inert_plain. simpl. rewrite Hc. reflexivity.
Qed.

(** A container inside an open span: the scan comes back to where it
    was after the closing character. *)
Lemma inert_wrapped (open close : N) (inner : text) :
  (open = c_lbrace /\ close = c_rbrace)
  \/ (open = c_lbracket /\ close = c_rbracket) ->
  inert inner -> inert (open :: inner ++ [close]).
Proof.
  intros Hpair Hinner i st Hst.
  assert (Hdeeper :
    in_span {| start_pos := start_pos st; end_pos := end_pos st;
               depth := depth st + 1; in_string := false;
               escape_next := false;
               open_char := open_char st; close_char := close_char st |}).
  { destruct Hst as (Hsp & Hin & Hesc & Hd & Hbr).
    unfold in_span, brackets. simpl. repeat split; try assumption. lia. }
  pose proof (Hinner (i + 1)%Z _ Hdeeper) as Hdeep.
  pose proof (Hinner (i + 1)%Z _ Hst) as Hsame.
  destruct st as [sp ep d ins esc oc cc].
  destruct Hst as (Hsp & Hin & Hesc & Hd & Hbr).
  unfold brackets in Hbr. simpl in *. subst ins esc.
  assert (Hsp' : (sp =? -1)%Z = false) by (apply Z.eqb_neq; exact Hsp).
  assert (Hd' : (d + 1 - 1 =? 0)%Z = false) by (apply Z.eqb_neq; lia).
  destruct Hpair as [[-> ->] | [-> ->]], Hbr as [[-> ->] | [-> ->]];
    unfold scan_step; simpl; rewrite Hsp'; simpl.
  - rewrite (scan_through_app inner [c_rbrace] (i + 1) _ _ Hdeep).
    simpl. unfold scan_step. simpl. rewrite Hsp'. simpl. rewrite Hd'.
    replace (d + 1 - 1)%Z with d by lia. reflexivity.
  - rewrite (scan_through_app inner [c_rbrace] (i + 1) _ _ Hsame).
    simpl. unfold scan_step. simpl. rewrite Hsp'. reflexivity.
  - rewrite (scan_through_app inner [c_rbracket] (i + 1) _ _ Hsame).
    simpl. unfold scan_step. simpl. rewrite Hsp'. reflexivity.
  - rewrite (scan_through_app inner [c_rbracket] (i + 1) _ _ Hdeep).
    simpl. unfold scan_step. simpl. rewrite Hsp'. simpl. rewrite Hd'.
    replace (d + 1 - 1)%Z with d by lia. reflexivity.
Qed.

(** A value scanner whose every value is inert for the scan. *)
Definition value_reads (pv : text -> option (json * text)) : Prop :=
  forall s v rest, pv s = Some (v, rest) -> reads inert s rest.

Lemma skip_ws_inert (s : text) :
  exists w, s = w ++ skip_ws s /\ inert w.
Proof.
  destruct (skip_ws_reads s) as (w & Hw & Hplain).
  exists w. split; [exact Hw | apply inert_plain, Hplain].
Qed.

Lemma skip_ws_cons (s : text) (c : N) (r : text) :
  skip_ws s = c :: r -> exists w, s = w ++ c :: r /\ inert w.
Proof.
  intros H. destruct (skip_ws_inert s) as (w & Hw & Hinert).
  exists w. rewrite <- H. auto.
Qed.

Section ContainerReads.
Variable pv : text -> option (json * text).
Hypothesis Hpv : value_reads pv.

Lemma JSONArray_loop_reads (n : nat) :
  forall s vs rest,
    JSONArray_loop pv n s = Some (vs, rest) ->
    exists inner, s = inner ++ c_rbracket :: rest /\ inert inner.
Proof.
  induction n as [| n IH]; intros s vs rest; simpl; [discriminate |].
  destruct (pv s) as [[v r1] |] eqn:Hv; [| discriminate].
  destruct (Hpv s v r1 Hv) as (c1 & -> & Hc1).
  destruct (skip_ws r1) as [| c r2] eqn:Hws; [discriminate |].
  destruct (skip_ws_cons r1 c r2 Hws) as (w & -> & Hw).
  destruct (N.eqb c c_rbracket) eqn:Hclose.
  - intros [= _ <-]. n_bools. subst c. exists (c1 ++ w).
    split; [rewrite <- app_assoc; reflexivity | apply inert_app; assumption].
  - destruct (N.eqb c c_comma) eqn:Hcomma; [| discriminate].
    destruct (JSONArray_loop pv n (skip_ws r2)) as [[vs' rest'] |] eqn:Hloop;
      [| discriminate].
    intros [= _ <-].
    destruct (IH _ _ _ Hloop) as (inner & Hinner & Hinert).
    destruct (skip_ws_inert r2) as (w2 & Hw2 & Hw2i).
    exists (c1 ++ w ++ [c] ++ w2 ++ inner). split.
    + rewrite Hw2, Hinner. rewrite <- !app_assoc. reflexivity.
    + n_bools. subst c.
      repeat apply inert_app; try assumption.
      apply inert_plain. reflexivity.
Qed.

Lemma JSONArray_reads (s : text) (v : json) (rest : text) :
  JSONArray pv s = Some (v, rest) ->
  is_container v = true
  /\ exists inner, s = inner ++ c_rbracket :: rest /\ inert inner.
Proof.
  unfold JSONArray.
  destruct (skip_ws s) as [| c r] eqn:Hws; [discriminate |].
  destruct (N.eqb c c_rbracket) eqn:Hclose.
  - intros [= <- <-]. split; [reflexivity |].
    destruct (skip_ws_cons s c r Hws) as (w & -> & Hw).
    n_bools. subst c. exists w. auto.
  - destruct (JSONArray_loop pv (length s) (c :: r)) as [[vs rest'] |] eqn:Hloop;
      [| discriminate].
    intros [= <- <-]. split; [reflexivity |].
    destruct (JSONArray_loop_reads _ _ _ _ Hloop) as (inner & Hinner & Hinert).
    destruct (skip_ws_cons s c r Hws) as (w & -> & Hw).
    exists (w ++ inner). split.
    + rewrite Hinner, <- app_assoc. reflexivity.
    + apply inert_app; assumption.
Qed.

Lemma JSONObject_loop_reads (n : nat) :
  forall s ps rest,
    JSONObject_loop pv n s = Some (ps, rest) ->
    exists inner, s = inner ++ c_rbrace :: rest /\ inert (c_quote :: inner).
Proof.
  induction n as [| n IH]; intros s ps rest; simpl; [discriminate |].
  destruct (scanstring s) as [[key r1] |] eqn:Hkey; [| discriminate].
  destruct (scanstring_reads (length s) s key r1 (le_n _) Hkey)
    as (raw & -> & Hraw).
  apply inert_string in Hraw.
  destruct (skip_ws r1) as [| c r2] eqn:Hws1; [discriminate |].
  destruct (skip_ws_cons r1 c r2 Hws1) as (w1 & -> & Hw1).
  destruct (N.eqb c c_colon) eqn:Hcolon; [| discriminate].
  destruct (pv (skip_ws r2)) as [[v r3] |] eqn:Hv; [| discriminate].
  destruct (Hpv _ _ _ Hv) as (cv & Hcv & Hcvi).
  destruct (skip_ws_inert r2) as (w2 & Hw2 & Hw2i).
  destruct (skip_ws r3) as [| d r4] eqn:Hws3; [discriminate |].
  destruct (skip_ws_cons r3 d r4 Hws3) as (w3 & -> & Hw3).
  assert (Hhead : inert (c_quote :: raw ++ w1 ++ [c] ++ w2 ++ cv ++ w3)).
  { change (c_quote :: raw ++ w1 ++ [c] ++ w2 ++ cv ++ w3)
      with ((c_quote :: raw) ++ w1 ++ [c] ++ w2 ++ cv ++ w3).
    n_bools. subst c.
    repeat apply inert_app; try assumption. apply inert_plain. reflexivity. }
  assert (Hs : raw ++ w1 ++ c :: r2
               = (raw ++ w1 ++ [c] ++ w2 ++ cv ++ w3) ++ d :: r4).
  { rewrite Hw2, Hcv. rewrite <- !app_assoc. reflexivity. }
  rewrite Hs. clear Hs.
  destruct (N.eqb d c_rbrace) eqn:Hclose.
  - intros [= _ <-]. n_bools. subst d.
    exists (raw ++ w1 ++ [c] ++ w2 ++ cv ++ w3). auto.
  - destruct (N.eqb d c_comma) eqn:Hcomma; [| discriminate].
    destruct (skip_ws r4) as [| q r5] eqn:Hws4; [discriminate |].
    destruct (skip_ws_cons r4 q r5 Hws4) as (w4 & -> & Hw4).
    destruct (N.eqb q c_quote) eqn:Hquote; [| discriminate].
    destruct (JSONObject_loop pv n r5) as [[ps' rest'] |] eqn:Hloop;
      [| discriminate].
    intros [= _ <-].
    destruct (IH _ _ _ Hloop) as (inner & -> & Hinert).
    n_bools. subst d q.
    exists ((raw ++ w1 ++ [c] ++ w2 ++ cv ++ w3) ++ [c_comma] ++ w4
              ++ c_quote :: inner).
    split; [rewrite <- !app_assoc; reflexivity |].
    change (c_quote
              :: (raw ++ w1 ++ [c] ++ w2 ++ cv ++ w3) ++ [c_comma] ++ w4
                   ++ c_quote :: inner)
      with ((c_quote :: raw ++ w1 ++ [c] ++ w2 ++ cv ++ w3)
              ++ [c_comma] ++ w4 ++ c_quote :: inner).
    repeat apply inert_app; try assumption. apply inert_plain. reflexivity.
Qed.

Lemma JSONObject_reads (s : text) (v : json) (rest : text) :
  JSONObject pv s = Some (v, rest) ->
  is_container v = true
  /\ exists inner, s = inner ++ c_rbrace :: rest /\ inert inner.
Proof.
  unfold JSONObject.
  destruct (skip_ws s) as [| c r] eqn:Hws; [discriminate |].
  destruct (skip_ws_cons s c r Hws) as (w & -> & Hw).
  destruct (N.eqb c c_rbrace) eqn:Hclose.
  - intros [= <- <-]. split; [reflexivity |].
    n_bools. subst c. exists w. auto.
  - destruct (N.eqb c c_quote) eqn:Hquote; [| discriminate].
    destruct (JSONObject_loop pv (length (w ++ c :: r)) r)
      as [[ps rest'] |] eqn:Hloop; [| discriminate].
    intros [= <- <-]. split; [reflexivity |].
    destruct (JSONObject_loop_reads _ _ _ _ Hloop) as (inner & -> & Hinert).
    n_bools. subst c. exists (w ++ c_quote :: inner). split.
    + rewrite <- app_assoc. reflexivity.
    + apply inert_app; assumption.
Qed.

End ContainerReads.

Definition bracket_pair (open close : N) : Prop :=
  (open = c_lbrace /\ close = c_rbrace)
  \/ (open = c_lbracket /\ close = c_rbracket).

(** What [scan_once] reads is inert for the scan; a value is a container
    exactly when its text begins with a brace or a bracket, and then the
    text read is that character, an inert piece and the matching closing
    character. *)
Lemma scan_once_S (d : nat) (s : text) :
  scan_once (S d) s
  = match s with
    | [] => None
    | c :: r =>
        if N.eqb c c_quote then
          match scanstring r with
          | Some (str, rest) => Some (JStr str, rest)
          | None => None
          end
        else if N.eqb c c_lbrace then JSONObject (scan_once d) r
        else if N.eqb c c_lbracket then JSONArray (scan_once d) r
        else if startswith (t "null") s then Some (JNull, skipn 4 s)
        else if startswith (t "true") s then Some (JBool true, skipn 4 s)
        else if startswith (t "false") s then Some (JBool false, skipn 5 s)
        else
          match match_number s with
          | Some res => Some res
          | None =>
              if startswith (t "NaN") s then Some (JFloat nan, skipn 3 s)
              else if startswith (t "Infinity") s
              then Some (JFloat infinity, skipn 8 s)
              else if startswith (t "-Infinity") s
              then Some (JFloat neg_infinity, skipn 9 s)
              else None
          end
    end.
Proof. reflexivity. Qed.

Lemma some_pair_inv {A B} (a v : A) (b rest : B) :
  Some (a, b) = Some (v, rest) -> v = a /\ rest = b.
Proof. intros [= <- <-]. split; reflexivity. Qed.

Lemma scan_once_reads (d : nat) :
  forall s v rest,
    scan_once d s = Some (v, rest) ->
    reads inert s rest
    /\ (is_container v = true ->
        exists open close inner,
          bracket_pair open close
          /\ s = open :: inner ++ close :: rest /\ inert inner)
    /\ (forall c r, s = c :: r -> c = c_lbrace \/ c = c_lbracket ->
                    is_container v = true).
Proof.
  induction d as [| d IH]; intros s v rest; [discriminate |].
  assert (Hpv : value_reads (scan_once d)).
  { intros s0 v0 rest0 H0. apply (IH s0 v0 rest0 H0). }
  rewrite scan_once_S.
  destruct s as [| c r]; [discriminate |].
  destruct (N.eqb c c_quote) eqn:Hq.
  { destruct (scanstring r) as [[str rest'] |] eqn:Hstr; [| discriminate].
    intros H0. injection H0 as <- <-.
    destruct (scanstring_reads (length r) r str rest' (le_n _) Hstr)
      as (raw & -> & Hraw).
    n_bools. subst c. repeat split.
    - exists (c_quote :: raw). split; [reflexivity | apply inert_string, Hraw].
    - discriminate.
    - intros c r0 [= <- _] [H | H]; discriminate. }
  destruct (N.eqb c c_lbrace) eqn:Hbrace.
  { intros H. apply (JSONObject_reads (scan_once d) Hpv) in H.
    destruct H as (Hcont & inner & -> & Hinner).
    n_bools. subst c. repeat split.
    - exists (c_lbrace :: inner ++ [c_rbrace]). split.
      + simpl. rewrite <- app_assoc. reflexivity.
      + apply inert_wrapped; [left; auto | exact Hinner].
    - intros _. exists c_lbrace, c_rbrace, inner.
      split; [left; split; reflexivity | auto].
    - intros; exact Hcont. }
  destruct (N.eqb c c_lbracket) eqn:Hbracket.
  { intros H. apply (JSONArray_reads (scan_once d) Hpv) in H.
    destruct H as (Hcont & inner & -> & Hinner).
    n_bools. subst c. repeat split.
    - exists (c_lbracket :: inner ++ [c_rbracket]). split.
      + simpl. rewrite <- app_assoc. reflexivity.
      + apply inert_wrapped; [right; auto | exact Hinner].
    - intros _. exists c_lbracket, c_rbracket, inner.
      split; [right; split; reflexivity | auto].
    - intros; exact Hcont. }
  assert (Hhead : forall c0 r0, c :: r = c0 :: r0 ->
                                c0 = c_lbrace \/ c0 = c_lbracket -> False).
  { intros c0 r0 [= <- _] [-> | ->]; discriminate. }
  assert (Hliteral : forall p w,
             startswith p (c :: r) = true -> forallb plain p = true ->
             is_container w = false ->
             reads inert (c :: r) (skipn (length p) (c :: r))
             /\ (is_container w = true ->
                 exists open close inner,
                   bracket_pair open close
                   /\ c :: r = open :: inner ++ close :: skipn (length p) (c :: r)
                   /\ inert inner)
             /\ (forall c0 r0, c :: r = c0 :: r0 ->
                               c0 = c_lbrace \/ c0 = c_lbracket ->
                               is_container w = true)).
  { intros p w Hp Hplain Hw. repeat split.
    - exists p. split; [apply startswith_reads, Hp | apply inert_plain, Hplain].
    - rewrite Hw. discriminate.
    - intros c0 r0 Heq Hc0. destruct (Hhead c0 r0 Heq Hc0). }
  destruct (startswith (t "null") (c :: r)) eqn:Hnull.
  { intros H0. apply some_pair_inv in H0 as [-> ->].
    apply (Hliteral (t "null")); auto. }
  destruct (startswith (t "true") (c :: r)) eqn:Htrue.
  { intros H0. apply some_pair_inv in H0 as [-> ->].
    apply (Hliteral (t "true")); auto. }
  destruct (startswith (t "false") (c :: r)) eqn:Hfalse.
  { intros H0. apply some_pair_inv in H0 as [-> ->].
    apply (Hliteral (t "false")); auto. }
  destruct (match_number (c :: r)) as [[w rest'] |] eqn:Hnum.
  { intros [= <- <-].
    destruct (match_number_reads _ _ _ Hnum) as ((ch & Hch & Hplain) & Hw).
    repeat split.
    - exists ch. split; [exact Hch | apply inert_plain, Hplain].
    - rewrite Hw. discriminate.
    - intros c0 r0 Heq Hc0. destruct (Hhead c0 r0 Heq Hc0). }
  destruct (startswith (t "NaN") (c :: r)) eqn:Hnan.
  { intros H0. apply some_pair_inv in H0 as [-> ->].
    apply (Hliteral (t "NaN")); auto. }
  destruct (startswith (t "Infinity") (c :: r)) eqn:Hinf.
  { intros H0. apply some_pair_inv in H0 as [-> ->].
    apply (Hliteral (t "Infinity")); auto. }
  destruct (startswith (t "-Infinity") (c :: r)) eqn:Hninf; [| discriminate].
  intros H0. apply some_pair_inv in H0 as [-> ->].
  apply (Hliteral (t "-Infinity")); auto.
Qed.

(** An iteration sets [end_pos] exactly when it ends in [break]; it
    sets [start_pos] only at a brace or a bracket, to the index. *)
Lemma scan_step_end (i : Z) (c : N) (st st' : scan_state) (stop : bool) :
  scan_step i c st = (st', stop) ->
  (stop = true /\ end_pos st' = (i + 1)%Z)
  \/ (stop = false /\ end_pos st' = end_pos st).
Proof.
  destruct st as [sp ep d ins esc oc cc]. unfold scan_step. simpl.
  repeat match goal with
         | |- context [if ?b then _ else _] => destruct b eqn:?
         end;
    intros [= <- <-]; simpl; auto.
Qed.

Lemma scan_step_start (i : Z) (c : N) (st st' : scan_state) (stop : bool) :
  scan_step i c st = (st', stop) ->
  start_pos st' = start_pos st
  \/ (start_pos st' = i /\ (c = c_lbrace \/ c = c_lbracket)).
Proof.
  destruct st as [sp ep d ins esc oc cc]. unfold scan_step. simpl.
  repeat match goal with
         | |- context [if ?b then _ else _] => destruct b eqn:?
         end;
    intros [= <- <-]; simpl; auto; right; n_bools; auto.
Qed.

Lemma scan_loop_passes (s : text) :
  forall i st,
    (0 <= i)%Z -> end_pos st = (-1)%Z ->
    end_pos (scan_loop i s st) = (-1)%Z ->
    scan_through i s st = Some (scan_loop i s st).
Proof.
  induction s as [| c s IH]; intros i st Hi Hend; simpl; [reflexivity |].
  destruct (scan_step i c st) as [st' stop] eqn:Hstep.
  destruct (scan_step_end i c st st' stop Hstep) as [[-> He] | [-> He]].
  - intros H. rewrite He in H. lia.
  - apply IH; [lia | congruence].
Qed.

(** The scan over a text made of prose it passes over, a container, and
    anything after it. *)
Lemma scan_loop_finds_span (pre inner post : text) (open close : N) :
  bracket_pair open close -> inert inner ->
  scan_through 0 pre scan_init = Some scan_init ->
  scan_loop 0 (pre ++ (open :: inner ++ [close]) ++ post) scan_init
  = {| start_pos := Z.of_nat (length pre);
       end_pos := Z.of_nat (length pre) + 1 + Z.of_nat (length inner) + 1;
       depth := 1 - 1; in_string := false; escape_next := false;
       open_char := Some open; close_char := Some close |}.
Proof.
  intros Hpair Hinner Hpre.
  rewrite (scan_loop_app pre _ 0 scan_init scan_init Hpre).
  rewrite Z.add_0_l. set (p := Z.of_nat (length pre)).
  assert (Hp : (p =? -1)%Z = false) by (apply Z.eqb_neq; lia).
  assert (Hp' : p <> (-1)%Z) by lia.
  replace ((open :: inner ++ [close]) ++ post)
    with (open :: inner ++ close :: post)
    by (simpl; rewrite <- app_assoc; reflexivity).
  set (st1 := {| start_pos := p; end_pos := -1; depth := 1;
                 in_string := false; escape_next := false;
                 open_char := Some open; close_char := Some close |}).
  assert (Hst1 : in_span st1).
  { unfold in_span, brackets, st1. simpl.
    repeat split; try assumption; try lia.
    destruct Hpair as [[-> ->] | [-> ->]]; auto. }
  assert (Hopen : scan_step p open scan_init = (st1, false)).
  { destruct Hpair as [[-> ->] | [-> ->]]; reflexivity. }
  cbn [scan_loop]. rewrite Hopen.
  rewrite (scan_loop_app inner _ (p + 1) st1 st1 (Hinner _ _ Hst1)).
  cbn [scan_loop].
  assert (Hclose : scan_step (p + 1 + Z.of_nat (length inner)) close st1
                   = ({| start_pos := p;
                         end_pos := p + 1 + Z.of_nat (length inner) + 1;
                         depth := 1 - 1; in_string := false;
                         escape_next := false;
                         open_char := Some open; close_char := Some close |},
                      true)).
  { unfold scan_step, st1. simpl. rewrite Hp.
    destruct Hpair as [[-> ->] | [-> ->]]; reflexivity. }
  rewrite Hclose. reflexivity.
Qed.

Lemma skip_ws_head (c : N) (r : text) :
  c = c_lbrace \/ c = c_lbracket -> skip_ws (c :: r) = c :: r.
Proof. intros [-> | ->]; reflexivity. Qed.


Lemma lazy_group_prefix (s : text) :
  forall g, lazy_group s = Some g -> exists rest, s = g ++ rest.
Proof.
  induction s as [| c s IH]; intros g.
  - cbn. discriminate.
  - change (lazy_group (c :: s))
      with (if closing_here (c :: s) then Some []
            else match lazy_group s with
                 | Some g' => Some (c :: g')
                 | None => None
                 end).
    destruct (closing_here (c :: s)).
    + intros [= Hg]. subst g. exists (c :: s). reflexivity.
    + destruct (lazy_group s) as [g' |]; [| discriminate].
      intros [= Hg]. subst g. destruct (IH g' eq_refl) as (rest & ->).
      exists rest. reflexivity.
Qed.

Lemma after_open_substring (s : text) :
  forall g, after_open s = Some g -> substring g s.
Proof.
  induction s as [| c s IH]; intros g.
  - intros H. apply lazy_group_prefix in H as (rest & ->).
    exists [], rest. reflexivity.
  - cbn [after_open].
    assert (Hlazy : lazy_group (c :: s) = Some g -> substring g (c :: s)).
    { intros H. apply lazy_group_prefix in H as (rest & ->).
      exists [], rest. reflexivity. }
    destruct (re_space c); [| exact Hlazy].
    destruct (after_open s) as [g' |] eqn:Hs; [| exact Hlazy].
    intros [= <-]. apply (@substring_app_l g' s [c]). apply IH. reflexivity.
Qed.

Lemma search_fence_substring (s : text) :
  forall g, search_fence s = Some g -> substring g s.
Proof.
  induction s as [| c s IH]; intros g.
  - cbn. discriminate.
  - cbn [search_fence].
    destruct (if startswith fence_open (c :: s)
              then after_open (skipn 7 (c :: s)) else None)
      as [g' |] eqn:Hhere.
    + intros [= <-].
      destruct (startswith fence_open (c :: s)); [| discriminate].
      apply after_open_substring in Hhere.
      rewrite <- (firstn_skipn 7 (c :: s)).
      apply substring_app_l. exact Hhere.
    + intros H. apply (@substring_app_l g s [c]). apply IH. exact H.
Qed.

Lemma slice_substring (s : text) (a b : Z) : substring (slice s a b) s.
Proof.
  unfold slice.
  exists (firstn (Z.to_nat a) s),
         (skipn (Z.to_nat (b - a)) (skipn (Z.to_nat a) s)).
  rewrite firstn_skipn, firstn_skipn. reflexivity.
Qed.

(** Where the span starts, the text has a brace or a bracket. *)
Definition start_marks (whole : text) (st : scan_state) : Prop :=
  start_pos st = (-1)%Z
  \/ ((0 <= start_pos st)%Z
      /\ exists c r, skipn (Z.to_nat (start_pos st)) whole = c :: r
                     /\ (c = c_lbrace \/ c = c_lbracket)).

Lemma scan_loop_start_marks (whole : text) (s : text) :
  forall done st,
    whole = done ++ s -> start_marks whole st ->
    start_marks whole (scan_loop (Z.of_nat (length done)) s st).
Proof.
  induction s as [| c s IH]; intros done st Hwhole Hst; simpl; [exact Hst |].
  destruct (scan_step (Z.of_nat (length done)) c st) as [st' stop] eqn:Hstep.
  assert (Hst' : start_marks whole st').
  { destruct (scan_step_start _ _ _ _ _ Hstep) as [Heq | [Heq Hc]].
    - unfold start_marks. rewrite Heq. exact Hst.
    - right. rewrite Heq. split; [lia |].
      exists c, s. split; [| exact Hc].
      rewrite Nat2Z.id, Hwhole, skipn_app, skipn_all, Nat.sub_diag.
      reflexivity. }
  destruct stop; [exact Hst' |].
  replace (Z.of_nat (length done) + 1)%Z
    with (Z.of_nat (length (done ++ [c])))
    by (rewrite length_app; simpl; lia).
  apply IH; [| exact Hst'].
  rewrite Hwhole, <- app_assoc. reflexivity.
Qed.

Lemma loads_container_head (c : N) (r : text) (v : json) :
  c = c_lbrace \/ c = c_lbracket ->
  loads (c :: r) = Some v -> is_container v = true.
Proof.
  intros Hc. unfold loads. rewrite (skip_ws_head c r Hc).
  destruct (raw_decode (c :: r)) as [[v' rest] |] eqn:Hraw; [| discriminate].
  destruct (skip_ws rest); [| discriminate].
  intros [= <-].
  destruct (scan_once_reads _ _ _ _ Hraw) as (_ & _ & Hhead).
  apply (Hhead c r eq_refl Hc).
Qed.

Lemma loads_container_bracket (j : text) (v : json) :
  loads j = Some v -> is_container v = true ->
  In c_lbrace j \/ In c_lbracket j.
Proof.
  unfold loads.
  destruct (raw_decode (skip_ws j)) as [[v' rest] |] eqn:Hraw; [| discriminate].
  destruct (skip_ws rest); [| discriminate].
  intros [= <-] Hcont.
  destruct (scan_once_reads _ _ _ _ Hraw) as (_ & Hshape & _).
  destruct (Hshape Hcont) as (open & close & inner & Hpair & Heq & _).
  destruct (skip_ws_inert j) as (w & Hw & _).
  assert (Hin : In open j).
  { rewrite Hw, Heq. apply in_or_app. right. left. reflexivity. }
  destruct Hpair as [[-> _] | [-> _]]; auto.
Qed.

(** What the bracket scan returns is a slice of the text that decodes to
    an object or an array. *)
Lemma scanned_json_container (response_text r : text) :
  scanned_json response_text = Some r ->
  substring r response_text
  /\ exists v, loads r = Some v /\ is_container v = true.
Proof.
  unfold scanned_json.
  set (st := scan_loop 0 response_text scan_init).
  assert (Hmarks : start_marks response_text st).
  { apply (scan_loop_start_marks response_text response_text []);
      [reflexivity | left; reflexivity]. }
  destruct (negb (start_pos st =? -1)%Z && negb (end_pos st =? -1)%Z) eqn:Hfound;
    [| discriminate].
  destruct (loads (slice response_text (start_pos st) (end_pos st)))
    as [v |] eqn:Hloads; [| discriminate].
  intros [= <-]. split; [apply slice_substring |].
  exists v. split; [exact Hloads |].
  apply andb_true_iff in Hfound as [Hstart _].
  apply negb_true_iff, Z.eqb_neq in Hstart.
  destruct Hmarks as [Hnone | (_ & c & rest & Hskip & Hc)]; [contradiction |].
  unfold slice in Hloads. rewrite Hskip in Hloads.
  destruct (Z.to_nat (end_pos st - start_pos st)) as [| k].
  - simpl in Hloads. discriminate.
  - simpl in Hloads. apply (loads_container_head c _ v Hc Hloads).
Qed.


End BracketScan.

(* ================================================================== *)
(** * The bounds of the decoder are never the reason of a failure *)
(* ================================================================== *)

Section DecoderBounds.

Lemma reads_length (P : text -> Prop) (s rest : text) :
  reads P s rest -> (length rest <= length s)%nat.
Proof. intros (c & -> & _). rewrite length_app. lia. Qed.

Lemma skip_ws_length (s : text) : (length (skip_ws s) <= length s)%nat.
Proof.
  destruct (skip_ws_reads s) as (w & Hw & _).
  rewrite Hw at 2. rewrite length_app. lia.
Qed.

Lemma skip_ws_cons_length (s : text) (c : N) (r : text) :
  skip_ws s = c :: r -> (length r < length s)%nat.
Proof.
  intros H. pose proof (skip_ws_length s) as Hlen.
  rewrite H in Hlen. simpl in Hlen. lia.
Qed.

Section Loops.
Variables pv pv' : text -> option (json * text).
Variable limit : nat.
Hypothesis Hpv : value_reads pv.
Hypothesis Hpv' :
  forall x r, (length x <= limit)%nat -> pv x = Some r -> pv' x = Some r.

Lemma JSONArray_loop_enough (n : nat) :
  forall s r,
    JSONArray_loop pv n s = Some r ->
    forall m, (length s <= m)%nat -> (length s <= limit)%nat ->
              JSONArray_loop pv' m s = Some r.
Proof.
  induction n as [| n IH]; intros s r; simpl; [discriminate |].
  destruct (pv s) as [[v r1] |] eqn:Hv; [| discriminate].
  pose proof (reads_length _ _ _ (Hpv s v r1 Hv)) as Hr1.
  destruct (skip_ws r1) as [| c r2] eqn:Hws; [discriminate |].
  pose proof (skip_ws_cons_length r1 c r2 Hws) as Hr2.
  intros Hloop m Hm Hlimit.
  destruct m as [| m]; [lia |]. simpl.
  rewrite (Hpv' s _ Hlimit Hv), Hws.
  destruct (N.eqb c c_rbracket); [exact Hloop |].
  destruct (N.eqb c c_comma); [| discriminate].
  destruct (JSONArray_loop pv n (skip_ws r2)) as [[vs rest] |] eqn:Hrec;
    [| discriminate].
  pose proof (skip_ws_length r2) as Hr3.
  rewrite (IH _ _ Hrec m) by lia. exact Hloop.
Qed.

Lemma JSONArray_enough (s : text) (r : json * text) :
  (length s <= limit)%nat ->
  JSONArray pv s = Some r -> JSONArray pv' s = Some r.
Proof.
  intros Hlimit. unfold JSONArray.
  destruct (skip_ws s) as [| c r0] eqn:Hws; [discriminate |].
  destruct (N.eqb c c_rbracket); [trivial |].
  destruct (JSONArray_loop pv (length s) (c :: r0)) as [[vs rest] |] eqn:Hloop;
    [| discriminate].
  pose proof (skip_ws_length s) as Hlen. rewrite Hws in Hlen.
  rewrite (JSONArray_loop_enough _ _ _ Hloop (length s)) by lia.
  trivial.
Qed.

Lemma JSONObject_loop_enough (n : nat) :
  forall s r,
    JSONObject_loop pv n s = Some r ->
    forall m, (length s <= m)%nat -> (length s <= limit)%nat ->
              JSONObject_loop pv' m s = Some r.
Proof.
  induction n as [| n IH]; intros s r; simpl; [discriminate |].
  destruct (scanstring s) as [[key r1] |] eqn:Hkey; [| discriminate].
  pose proof (reads_length _ _ _
                (scanstring_reads (length s) s key r1 (le_n _) Hkey))
    as Hr1.
  destruct (skip_ws r1) as [| c r2] eqn:Hws1; [discriminate |].
  pose proof (skip_ws_cons_length r1 c r2 Hws1) as Hr2.
  destruct (N.eqb c c_colon) eqn:Hcolon; [| discriminate].
  destruct (pv (skip_ws r2)) as [[v r3] |] eqn:Hv; [| discriminate].
  pose proof (skip_ws_length r2) as Hr2'.
  pose proof (reads_length _ _ _ (Hpv _ v r3 Hv)) as Hr3.
  intros Hloop m Hm Hlimit.
  destruct m as [| m]; [lia |]. simpl.
  rewrite Hkey, Hws1, Hcolon.
  rewrite (Hpv' (skip_ws r2) _ ltac:(lia) Hv).
  destruct (skip_ws r3) as [| d r4] eqn:Hws3; [discriminate |].
  pose proof (skip_ws_cons_length r3 d r4 Hws3) as Hr4.
  destruct (N.eqb d c_rbrace); [exact Hloop |].
  destruct (N.eqb d c_comma); [| discriminate].
  destruct (skip_ws r4) as [| q r5] eqn:Hws4; [discriminate |].
  pose proof (skip_ws_cons_length r4 q r5 Hws4) as Hr5.
  destruct (N.eqb q c_quote); [| discriminate].
  destruct (JSONObject_loop pv n r5) as [[ps rest] |] eqn:Hrec;
    [| discriminate].
  rewrite (IH _ _ Hrec m) by lia. exact Hloop.
Qed.

Lemma JSONObject_enough (s : text) (r : json * text) :
  (length s <= limit)%nat ->
  JSONObject pv s = Some r -> JSONObject pv' s = Some r.
Proof.
  intros Hlimit. unfold JSONObject.
  destruct (skip_ws s) as [| c r0] eqn:Hws; [discriminate |].
  destruct (N.eqb c c_rbrace); [trivial |].
  destruct (N.eqb c c_quote); [| discriminate].
  destruct (JSONObject_loop pv (length s) r0) as [[ps rest] |] eqn:Hloop;
    [| discriminate].
  pose proof (skip_ws_cons_length s c r0 Hws) as Hlen.
  rewrite (JSONObject_loop_enough _ _ _ Hloop (length s)) by lia.
  trivial.
Qed.

End Loops.

Lemma scan_once_value_reads (d : nat) : value_reads (scan_once d).
Proof. intros s v rest H. apply (scan_once_reads d s v rest H). Qed.

(** A value found with some nesting depth is found with any depth
    greater than the length of the text. *)
Lemma scan_once_enough (d : nat) :
  forall s r,
    scan_once d s = Some r ->
    forall d', (length s < d')%nat -> scan_once d' s = Some r.
Proof.
  induction d as [| d IH]; intros s r; [discriminate |].
  intros H d' Hd'. destruct d' as [| d']; [lia |].
  rewrite scan_once_S in *.
  destruct s as [| c r0]; [discriminate |]. simpl in Hd'.
  destruct (N.eqb c c_quote); [exact H |].
  assert (Hinner : forall x res,
             (length x <= length r0)%nat ->
             scan_once d x = Some res -> scan_once d' x = Some res).
  { intros x res Hx Hres. apply (IH x res Hres). lia. }
  destruct (N.eqb c c_lbrace).
  { apply (JSONObject_enough (scan_once d) (scan_once d') (length r0)
             (scan_once_value_reads d) Hinner); [lia | exact H]. }
  destruct (N.eqb c c_lbracket).
  { apply (JSONArray_enough (scan_once d) (scan_once d') (length r0)
             (scan_once_value_reads d) Hinner); [lia | exact H]. }
  exact H.
Qed.

(** The decoder never fails for lack of depth or of iterations: a value
    found with any depth is the one [raw_decode] finds, and a loop that
    ends within any number of iterations ends within the number the
    decoder allows. *)
Theorem decoder_bounds_suffice :
  (forall d s r, scan_once d s = Some r -> raw_decode s = Some r)
  /\ (forall d n s r,
         JSONArray_loop (scan_once d) n s = Some r ->
         JSONArray_loop (scan_once d) (length s) s = Some r)
  /\ (forall d n s r,
         JSONObject_loop (scan_once d) n s = Some r ->
         JSONObject_loop (scan_once d) (length s) s = Some r).
Proof.
  split; [| split].
  - intros d s r H. unfold raw_decode.
    apply (scan_once_enough d s r H). lia.
  - intros d n s r H.
    apply (JSONArray_loop_enough (scan_once d) (scan_once d) (length s)
             (scan_once_value_reads d) (fun x res _ Hx => Hx) n s r H);
      lia.
  - intros d n s r H.
    apply (JSONObject_loop_enough (scan_once d) (scan_once d) (length s)
             (scan_once_value_reads d) (fun x res _ Hx => Hx) n s r H);
      lia.
Qed.

End DecoderBounds.

(** Prose with a brace inside a quoted string, an object, more text. *)
Definition prose_before : text := jt "Here is what I read ('{' means unclear): ".

Definition embedded_object : text :=
  jt "{'address': '12 {} Street', 'items': [1, 2]}".

Definition prose_after : text := t " } I hope this helps.".



(** A fenced block whose content is a number. *)
Definition fenced_number : text := t "```json 7 ```".


(* ================================================================== *)
(** * The fence pattern and the extractor on sample texts *)
(* ================================================================== *)

Example fence_content :
  search_fence (t "```json 7 ```") = Some (t "7").
Proof. vm_compute. reflexivity. Qed.

Example fence_empty :
  search_fence (t "```json   ```  [1] ") = Some [].
Proof. vm_compute. reflexivity. Qed.

Example fence_closed_by_next_opening :
  search_fence (t "x ```json```json a ``` b ```") = Some [].
Proof. vm_compute. reflexivity. Qed.

Example fence_not_closed :
  search_fence (t "```json a") = None.
Proof. vm_compute. reflexivity. Qed.

(** An empty fenced block does not decode; the bracket scan takes over. *)
Example empty_fence_falls_back :
  extract_json_from_response (t "```json   ```  [1] ") = inr (t "[1]").
Proof. vm_compute. reflexivity. Qed.

(** A fenced block that does not decode, before an object that does: the
    scan stops at the first closing brace and nothing is returned. *)
Example broken_fence_hides_object :
  extract_json_from_response (jt "```json {bad} ``` {'a': []}")
  = inl (Exn ValueError no_json_message).
Proof. vm_compute. reflexivity. Qed.

(** One-shot mode, the client raising on the only call: the failure of
    the API stage, and nothing is parsed. *)
Example one_shot_transport_failure :
  extract (lib := Native.native)
          (deps := scripted [ inl (Exn OtherException (t "timeout")) ])
          (t "receipt.jpg") true false []
  = (inr (failure (t "Erreur API : timeout") None),
     [ {| image_bytes := []; mime_type := t "image/jpeg";
          prompt := t "validate, then extract"; max_tokens := 2000 |} ]).
Proof. vm_compute. reflexivity. Qed.

(** The two items without any totals block: the record has no totals. *)
Example no_totals_block :
  exists r,
    parse_receipt_json (lib := Native.native)
      (jt "{'is_receipt': true, 'items': [{'description': 'tea', 'total_price': 5.0}, {'description': 'cake', 'total_price': 3.0}]}")
    = inr (IsReceiptData r)
    /\ totals r = None.
Proof. eexists. split; [vm_compute; reflexivity | reflexivity]. Qed.

(* ================================================================== *)
(** * src/api/openrouter_client.py: [analyze_receipt] *)
(* ================================================================== *)

Module Analysis.

(** What the SDK returns for a chat completion, as far as the client
    reads it: the generation id ([None] when the attribute is not
    there), the choices with the content of their message and their
    finish reason, and the token counts. *)
Record choice := {
  message_content : option text;
  finish_reason : option text
}.

Record completion_usage := {
  prompt_tokens : Z;
  completion_tokens : Z;
  total_tokens : Z
}.

Record chat_completion := {
  response_id : option text;
  response_choices : list choice;
  response_usage : option completion_usage
}.

(** How [chat.completions.create] ends: with a completion, with an
    [APIStatusError] (its status code and [str(e)]), or with another
    exception. *)
Inductive outcome :=
| Completed (response : chat_completion)
| StatusError (status_code : Z) (message : text)
| Raised (e : exn).

(** [str(n)] for an [int]. *)
Definition str_of_int (n : Z) : text :=
  t (DecimalString.NilZero.string_of_int (Z.to_int n)).

(** [str(v)] for a finish reason. *)
Definition str_of_reason (v : option text) : text :=
  match v with
  | Some s => s
  | None => t "None"
  end.

Definition and_then {A B} (r : raises A) (k : A -> raises B) : raises B :=
  match r with
  | inr a => k a
  | inl e => inl e
  end.

Local Notation "x <-- r ;; k" := (and_then r (fun x => k))
  (at level 61, r at next level, right associativity).

(** [a / b] on floats. *)
Definition true_div (a b : float) : raises float :=
  if (b =? 0)%float
  then inl (Exn OtherException (t "float division by zero"))
  else inr (a / b)%float.

(** The five entries of ["metrics"]. *)
Record metrics_values := {
  first_token_latency_ms : option Z;
  generation_time_ms : option Z;
  throughput : option float;
  cost : option float;
  finish : option text
}.

Definition or_null {A} (wrap : A -> json) (o : option A) : json :=
  match o with
  | Some a => wrap a
  | None => JNull
  end.

Definition metrics_dict_of (m : metrics_values) : metrics_dict :=
  [ (t "first_token_latency_ms", or_null JInt (first_token_latency_ms m));
    (t "generation_time_ms", or_null JInt (generation_time_ms m));
    (t "throughput", or_null JFloat (throughput m));
    (t "cost", or_null JFloat (cost m));
    (t "finish_reason", or_null JStr (finish m)) ].

(** A failure of the call: ["success"], ["error"] and ["content"]. *)
Definition failed_call (message : text) : api_response :=
  {| success := false; content := None; error := message;
     usage := Missing; metrics := Missing |}.

Section Client.
(** The configuration and the HTTP client of the statistics fetcher,
    whose request depends on the generation id. *)
Variable max_retries : Z.
Variable base_delay : Q.
Variable http_get : text -> Z -> raises http_response.
Variable uniform : Z -> Q -> Q -> Q.
(** [self.client.chat.completions.create], for the arguments of the
    call. *)
Variable create : api_call -> outcome.
(** The built-in [int] and [float]. *)
Variable py_int : json -> raises Z.
Variable py_float : json -> raises float.

Local Open Scope effect_scope.

(** [response.choices[0].message.content] when there is a choice and
    the content is not empty. *)
Definition content_to_return (response : chat_completion) : option text :=
  match response_choices response with
  | first :: _ =>
      match message_content first with
      | Some (c :: s) => Some (c :: s)
      | _ => None
      end
  | [] => None
  end.

Definition usage_data (response : chat_completion) : option usage_dict :=
  match response_usage response with
  | Some u =>
      Some [ (t "prompt_tokens", prompt_tokens u);
             (t "completion_tokens", completion_tokens u);
             (t "total_tokens", total_tokens u) ]
  | None => None
  end.

Definition finish_reason_of (response : chat_completion) : option text :=
  match response_choices response with
  | first :: _ => Some (str_of_reason (finish_reason first))
  | [] => None
  end.

(** The metrics before the statistics are read. *)
Definition initial_metrics (response : chat_completion) : metrics_values :=
  {| first_token_latency_ms := None; generation_time_ms := None;
     throughput := None; cost := None;
     finish := finish_reason_of response |}.

(** [stats.get(key)] *)
Definition stats_get (stats : json) (key : text) : raises json :=
  match stats with
  | JObj pairs =>
      match dict_get key pairs with
      | Some v => inr v
      | None => inr JNull
      end
  | _ => inl (no_attribute stats (t "get"))
  end.

(** [builtin(v)] when [v] is not [None]. *)
Definition converted {A} (builtin : json -> raises A) (v : json)
  : raises (option A) :=
  match v with
  | JNull => inr None
  | _ => x <-- builtin v ;; inr (Some x)
  end.

(** The throughput, when there are a generation time and a usage. *)
Definition throughput_of (generation_time : option Z)
           (usage : option usage_dict) : raises (option float) :=
  match generation_time, usage with
  | Some g, Some (entry :: entries) =>
      if negb (g =? 0)%Z then
        let tokens := usage_get (t "completion_tokens") (entry :: entries) 0 in
        if (tokens >? 0)%Z && (g >? 0)%Z then
          numerator <-- py_float (JInt tokens) ;;
          milliseconds <-- py_float (JInt g) ;;
          seconds <-- true_div milliseconds 1000%float ;;
          quotient <-- true_div numerator seconds ;;
          inr (Some quotient)
        else inr None
      else inr None
  | _, _ => inr None
  end.

(** The block under [if stats:]. *)
Definition with_stats (response : chat_completion) (stats : json)
  : raises metrics_values :=
  latency <-- stats_get stats (t "latency") ;;
  first_token_latency <-- converted py_int latency ;;
  gen_time <-- stats_get stats (t "generation_time") ;;
  generation_time <-- converted py_int gen_time ;;
  cost_entry <-- stats_get stats (t "usage") ;;
  cost_value <-- converted py_float cost_entry ;;
  throughput_value <-- throughput_of generation_time (usage_data response) ;;
  inr {| first_token_latency_ms := first_token_latency;
         generation_time_ms := generation_time;
         throughput := throughput_value; cost := cost_value;
         finish := finish_reason_of response |}.

(** The body of the [try] after the completion has arrived. *)
Definition completed (response : chat_completion)
  : M (list event) api_response :=
  metrics_values <-
    match response_id response with
    | Some (c :: s) =>
        stats <- get_generation_stats max_retries base_delay
                   (http_get (c :: s)) uniform ;;
        if truthy stats then pure (with_stats response stats)
        else ret (initial_metrics response)
    | _ => ret (initial_metrics response)
    end ;;
  ret {| success := true;
         content := content_to_return response;
         error := [];
         usage := match usage_data response with
                  | Some u => Bound u
                  | None => IsNone
                  end;
         metrics := Bound (metrics_dict_of metrics_values) |}.

(** [analyze_receipt]; the ["model"] entry of the result, which no
    caller reads, is left out. *)
Definition analyze_receipt (call : api_call) : M (list event) api_response :=
  match create call with
  | Completed response =>
      result <- guarded (completed response) ;;
      match result with
      | inr r => ret r
      | inl e => ret (failed_call (str e))
      end
  | StatusError status_code message =>
      ret (failed_call (t "HTTP " ++ str_of_int status_code ++ t ": "
                          ++ message))
  | Raised e => ret (failed_call (str e))
  end.

End Client.

End Analysis.

(* ================================================================== *)
(** * api_server.py: the answer of [analyze_bill] *)
(* ================================================================== *)

Module ApiServer.

(** The JSON body of an answer: the two-key body of a failure, or the
    body of a success. *)
Inductive answer_body :=
| failure_body (error : text)
| success_body (data : option payload) (is_receipt : bool)
               (processing_time confidence : float)
               (usage : usage_out) (raw_response : text).

Record http_answer := {
  status : Z;
  body : answer_body
}.

(** [result.get('metrics', {}).get('generation_time_ms', 0)]: the
    dictionary of the two-step mode has no such key. *)
Definition generation_time_ms (r : result) : raises json :=
  match r_metrics r with
  | None => inr (JInt 0)
  | Some (stage_metrics None) => inl (no_attribute JNull (t "get"))
  | Some (stage_metrics (Some m)) =>
      match dict_get (t "generation_time_ms") m with
      | Some v => inr v
      | None => inr (JInt 0)
      end
  | Some (combined_metrics _ _) => inr (JInt 0)
  end.

(** [v / 1000.0] *)
Definition per_thousand (v : json) : raises float :=
  match v with
  | JInt z =>
      let f := Native.float_of_int z in
      if is_infinity f
      then inl (Exn OtherException (t "int too large to convert to float"))
      else inr (f / 1000)%float
  | JFloat f => inr (f / 1000)%float
  | JBool b => inr ((if b then 1 else 0) / 1000)%float
  | _ =>
      inl (Exn TypeError
             (t "unsupported operand type(s) for /: '" ++ type_name v
                ++ t "' and 'float'"))
  end.

Definition processing_error (e : exn) : http_answer :=
  {| status := 500; body := failure_body (t "Processing error: " ++ str e) |}.

(** The answer built from the result of [extract]: [get] with its
    default for each entry (the ["data"] entry of a success is always
    there); the confidence is the constant 0.95. *)
Definition respond (r : result) : http_answer :=
  if negb (r_success r) then
    {| status := 500;
       body := failure_body match r_error r with
                            | Some message => message
                            | None => t "Unknown processing error"
                            end |}
  else
    match generation_time_ms r with
    | inl e => processing_error e
    | inr milliseconds =>
        match per_thousand milliseconds with
        | inl e => processing_error e
        | inr seconds =>
            {| status := 200;
               body :=
                 success_body
                   (r_data r)
                   match r_is_receipt r with
                   | Some flag => flag
                   | None => true
                   end
                   seconds
                   0x1.e666666666666p-1%float
                   match r_usage r with
                   | Some u => u
                   | None => stage_usage (Some [])
                   end
                   match r_raw_response r with
                   | Some raw => raw
                   | None => []
                   end |}
        end
    end.

Section Server.
Context {lib : Pydantic} {deps : Collaborators}.

Local Open Scope effect_scope.

(** [analyze_bill], from the point where the image has been saved at
    [image_path]: the extraction in the one-shot mode, then the
    answer. *)
Definition analyze_bill (image_path : text) : run http_answer :=
  outcome <- guarded (extract image_path true false) ;;
  match outcome with
  | inr r => ret (respond r)
  | inl e => ret (processing_error e)
  end.

End Server.

End ApiServer.

(* ================================================================== *)
(** * src/config/categories.py and src/utils/prompt_builder.py *)
(* ================================================================== *)

Module Categories.

(** A literal with characters outside ASCII, written in UTF-8: the code
    points of the text. *)
Fixpoint utf8 (bytes : list N) : text :=
  match bytes with
  | [] => []
  | b1 :: rest =>
      if N.ltb b1 128 then b1 :: utf8 rest
      else
        match rest with
        | [] => [b1]
        | b2 :: rest2 =>
            if N.ltb b1 224
            then ((b1 - 192) * 64 + (b2 - 128))%N :: utf8 rest2
            else
              match rest2 with
              | [] => [b1; b2]
              | b3 :: rest3 =>
                  if N.ltb b1 240
                  then ((b1 - 224) * 4096 + (b2 - 128) * 64 + (b3 - 128))%N
                       :: utf8 rest3
                  else
                    match rest3 with
                    | [] => [b1; b2; b3]
                    | b4 :: rest4 =>
                        ((b1 - 240) * 262144 + (b2 - 128) * 4096
                         + (b3 - 128) * 64 + (b4 - 128))%N :: utf8 rest4
                    end
              end
        end
  end.

Definition u (s : string) : text := utf8 (t s).

Record details := {
  description : text;
  examples : list text
}.

(** [EXPENSE_CATEGORIES], in the order of the dictionary. *)
Definition EXPENSE_CATEGORIES : list (text * details) :=
  [
    (t "Food & Drinks",
     {| description :=
          u "Restaurants, bars, cafés, livraisons, courses alimentaires partagées";
        examples :=
          [ u "restaurant";
            u "bar";
            u "café";
            u "supermarché";
            u "boulangerie";
            u "boucherie";
            u "épicerie";
            u "traiteur";
            u "fast-food";
            u "livraison" ] |});
    (t "Events & Entertainment",
     {| description :=
          u "Festivals, concerts, cinéma, clubs, soirées, activités de groupe";
        examples :=
          [ u "cinéma";
            u "concert";
            u "festival";
            u "théâtre";
            u "musée";
            u "parc d'attractions";
            u "bowling";
            u "escape game";
            u "karting" ] |});
    (t "Travel & Transport",
     {| description :=
          u "Transports en commun, taxis, covoiturages, essence, billets d'avion/train";
        examples :=
          [ u "taxi";
            u "uber";
            u "métro";
            u "bus";
            u "train";
            u "avion";
            u "station-service";
            u "péage";
            u "parking";
            u "location voiture" ] |});
    (t "Housing & Utilities",
     {| description :=
          u "Hébergements (Airbnb, hôtels), loyers partagés, charges, abonnements collectifs";
        examples :=
          [ u "hôtel";
            u "airbnb";
            u "loyer";
            u "électricité";
            u "eau";
            u "gaz";
            u "internet";
            u "téléphone";
            u "assurance habitation" ] |});
    (t "Shopping & Essentials",
     {| description :=
          u "Achats non alimentaires : vêtements, équipement, cadeaux, pharmacie";
        examples :=
          [ u "vêtements";
            u "chaussures";
            u "pharmacie";
            u "parfumerie";
            u "librairie";
            u "électronique";
            u "décoration";
            u "jardinage" ] |});
    (t "On-Chain Life",
     {| description :=
          u "NFTs, mints, frais de gas, wallets partagés, abonnements digitaux, apps/jeux";
        examples :=
          [ u "nft";
            u "crypto";
            u "blockchain";
            u "gas fees";
            u "mint";
            u "wallet";
            u "abonnement streaming";
            u "jeu vidéo";
            u "app mobile" ] |}) ].

(** [get_categories_as_string] *)
Definition get_categories_as_string : text :=
  join [10%N]
       (map (fun entry : text * details =>
               t "- **" ++ fst entry ++ t "**: " ++ description (snd entry))
            EXPENSE_CATEGORIES).

(** [get_category_names] *)
Definition get_category_names : list text := map fst EXPENSE_CATEGORIES.

End Categories.

Module PromptBuilder.

(** A literal in which a backquote stands for the double quote. *)
Definition q (s : string) : text :=
  map (fun c => if N.eqb c 96 then 34%N else c) (t s).

(** The lines of a text, joined by newlines. *)
Definition lines (l : list text) : text := join [10%N] l.

(** The opening of the extraction prompt. *)
Definition opening : text :=
  lines [
    q "You are an expert in receipt and bill data extraction.";
    q "Your mission is to analyze the provided image and extract all information in raw JSON format.";
    q "Return ONLY the JSON, without Markdown tags, without formatting, and without any text before or after.";
    q "";
    q "" ].

(** The validation step: a plain string, in which the doubled braces
    stay doubled. *)
Definition validation_step : text :=
  lines [
    q "**STEP 1 - VALIDATION**";
    q "First verify that the image contains a receipt or bill with expense information.";
    q "If it is NOT a receipt/bill, return only:";
    q "{{`is_receipt`: false, `reason`: `brief explanation`}}";
    q "";
    q "" ].

(** The extraction part, a formatted string around the categories. *)
Definition data_extraction (categories : text) : text :=
  lines [
    q "**DATA EXTRACTION**";
    q "If it is indeed a receipt/bill, extract the following information in raw JSON:";
    q "";
    q "**Expected format:**";
    q "{";
    q "  `is_receipt`: true,";
    q "  `category`: `expense category from the list below`,";
    q "  `merchant`: {";
    q "    `name`: `store/restaurant name`,";
    q "    `address`: `complete address`,";
    q "    `phone`: `phone number`,";
    q "    `vat_number`: `VAT number if present`";
    q "  },";
    q "  `transaction`: {";
    q "    `date`: `YYYY-MM-DD`,";
    q "    `time`: `HH:MM:SS`,";
    q "    `receipt_number`: `receipt number`,";
    q "    `country`: `country`,";
    q "    `currency`: `currency code (EUR, USD, GBP, etc.)`";
    q "  },";
    q "  `items`: [";
    q "    {";
    q "      `description`: `item name`,";
    q "      `quantity`: 1,";
    q "      `unit_price`: 0.00,";
    q "      `total_price`: 0.00,";
    q "      `tax_rate`: 0.00";
    q "    }";
    q "  ],";
    q "  `totals`: {";
    q "    `subtotal`: 0.00,";
    q "    `tax`: 0.00,";
    q "    `total`: 0.00,";
    q "    `total_calculated`: 0.00,";
    q "    `total_matches`: true";
    q "  },";
    q "  `notes`: `any observations`";
    q "}";
    q "";
    q "**EXPENSE CATEGORIES**";
    q "Choose ONE category from:";
    q "" ]
  ++ categories
  ++ lines [
    q "";
    q "";
    q "**IMPORTANT RULES**";
    q "1. Extract ALL visible information from the receipt";
    q "2. If total is present, calculate sum of items and compare (field `total_matches`)";
    q "3. If total is missing, calculate it and put it in `total_calculated`";
    q "4. Automatically detect country and currency";
    q "5. For missing fields, use null";
    q "6. Return ONLY the JSON, without text before or after";
    q "7. Handle negative amounts properly (discounts, refunds) - use absolute values";
    q "";
    q "**QUALITY ATTENTION**";
    q "- If some amounts are unreadable, indicate it in `notes`";
    q "- Verify that the sum of items matches the total";
    q "- Negative amounts (discounts/refunds) should be converted to positive values" ].

(** [build_extraction_prompt] *)
Definition build_extraction_prompt (include_validation : bool) : text :=
  let categories := Categories.get_categories_as_string in
  let prompt := opening in
  let prompt :=
    if include_validation then prompt ++ validation_step else prompt in
  prompt ++ data_extraction categories.

(** [build_prompt] *)
Definition build_prompt (include_validation : bool) : text :=
  build_extraction_prompt include_validation.

(** [build_validation_only_prompt] *)
Definition build_validation_only_prompt : text :=
  lines [
    q "Analyze this image and respond only with raw JSON:";
    q "";
    q "If it's a receipt or bill with an expense:";
    q "{`is_receipt`: true}";
    q "";
    q "Otherwise:";
    q "{`is_receipt`: false, `reason`: `brief explanation`}";
    q "";
    q "Return ONLY the JSON, without Markdown tags, without formatting, and without any text before or after." ].

End PromptBuilder.

(* ================================================================== *)
(** * More on the fence pattern *)
(* ================================================================== *)

Section FenceContent.

Lemma re_space_not_backquote (c : N) (r : text) :
  re_space c = true -> startswith fence_close (c :: r) = false.
Proof.
  intros Hc. cbn [fence_close t startswith map list_ascii_of_string].
  destruct (N.eqb (N_of_ascii "`") c) eqn:Hq; [| reflexivity].
  apply N.eqb_eq in Hq. subst c. vm_compute in Hc. discriminate.
Qed.

Lemma lazy_group_unfold (s : text) :
  lazy_group s
  = if closing_here s then Some []
    else match s with
         | c :: r =>
             match lazy_group r with
             | Some g => Some (c :: g)
             | None => None
             end
         | [] => None
         end.
Proof. destruct s; reflexivity. Qed.

Lemma lazy_group_nil (s : text) :
  lazy_group s = Some [] -> closing_here s = true.
Proof.
  rewrite lazy_group_unfold. destruct (closing_here s); [reflexivity |].
  destruct s as [| c r]; [discriminate |].
  destruct (lazy_group r); discriminate.
Qed.

(** The group never ends with whitespace: the whitespace before the
    closing fence belongs to the tail of the pattern. *)
Lemma lazy_group_last (s : text) :
  forall g c, lazy_group s = Some (g ++ [c]) -> re_space c = false.
Proof.
  induction s as [| a s IH]; intros g c; rewrite lazy_group_unfold.
  - cbn. discriminate.
  - destruct (closing_here (a :: s)) eqn:Hclose.
    + destruct g; discriminate.
    + destruct (lazy_group s) as [g' |] eqn:Hs; [| discriminate].
      intros [= Hg]. destruct g as [| b g0].
      * injection Hg as -> ->. apply lazy_group_nil in Hs.
        destruct (re_space c) eqn:Hc; [| reflexivity].
        cbn [closing_here] in Hclose. rewrite Hc, Hs in Hclose.
        discriminate.
      * injection Hg as _ ->. apply (IH g0 c eq_refl).
Qed.

Lemma lazy_group_tail (c : N) (r : text) :
  re_space c = true -> lazy_group (c :: r) <> None -> lazy_group r <> None.
Proof.
  intros Hc. rewrite lazy_group_unfold. cbn [closing_here]. rewrite Hc.
  rewrite (re_space_not_backquote c r Hc), orb_false_r.
  destruct (closing_here r) eqn:Hr.
  - intros _. rewrite lazy_group_unfold, Hr. discriminate.
  - destruct (lazy_group r); [discriminate | intros H; exact H].
Qed.

Lemma lazy_group_head (s : text) (c : N) (g : text) :
  lazy_group s = Some (c :: g) -> exists r, s = c :: r.
Proof.
  intros H. apply lazy_group_prefix in H as (rest & ->).
  exists (g ++ rest). reflexivity.
Qed.

(** The content never starts with whitespace: the greedy run after the
    opening fence takes all of it whenever the pattern matches at all. *)
Lemma after_open_head (s : text) :
  forall c g, after_open s = Some (c :: g) -> re_space c = false.
Proof.
  induction s as [| a s IH]; intros c g.
  - cbn. discriminate.
  - cbn [after_open]. destruct (re_space a) eqn:Ha.
    + destruct (after_open s) as [g' |] eqn:Hs.
      * intros [= ->]. apply (IH c g eq_refl).
      * intros H. exfalso.
        assert (Hr : lazy_group s <> None).
        { apply (lazy_group_tail a s Ha). rewrite H. discriminate. }
        apply Hr. destruct s as [| b s']; [exact Hs |].
        cbn [after_open] in Hs. destruct (re_space b).
        -- destruct (after_open s'); [discriminate | exact Hs].
        -- exact Hs.
    + intros H. destruct (lazy_group_head _ _ _ H) as (r & [= -> _]).
      exact Ha.
Qed.

Lemma after_open_lazy (s : text) :
  forall g, after_open s = Some g -> exists s', lazy_group s' = Some g.
Proof.
  induction s as [| a s IH]; intros g.
  - intros H. exists []. exact H.
  - cbn [after_open]. destruct (re_space a).
    + destruct (after_open s) as [g' |].
      * intros [= ->]. apply IH. reflexivity.
      * intros H. eauto.
    + intros H. eauto.
Qed.

Lemma search_fence_after_open (s : text) :
  forall g, search_fence s = Some g -> exists s', after_open s' = Some g.
Proof.
  induction s as [| a s IH]; intros g.
  - cbn. discriminate.
  - cbn [search_fence].
    destruct (if startswith fence_open (a :: s)
              then after_open (skipn 7 (a :: s)) else None)
      as [g' |] eqn:Hhere.
    + intros [= <-].
      destruct (startswith fence_open (a :: s)); [| discriminate]. eauto.
    + apply IH.
Qed.

(** X1. The content of a fenced block, as the pattern captures it, has
    whitespace neither at its start nor at its end. *)
Theorem fence_content_is_stripped (response_text content : text) :
  search_fence response_text = Some content ->
  (forall c rest, content = c :: rest -> re_space c = false)
  /\ (forall rest c, content = rest ++ [c] -> re_space c = false).
Proof.
  intros H. apply search_fence_after_open in H as (s1 & H1). split.
  - intros c rest ->. apply (after_open_head s1 c rest H1).
  - intros rest c ->. apply after_open_lazy in H1 as (s2 & H2).
    apply (lazy_group_last s2 rest c H2).
Qed.

End FenceContent.

(** A fenced object between newlines and spaces. *)
Definition padded_fence : text :=
  t "Result:" ++ [10%N] ++ t "```json" ++ [10%N] ++ t "  [1, 2]  " ++ [10%N]
  ++ t "```".

Lemma fence_content_is_stripped_witness :
  search_fence padded_fence = Some (t "[1, 2]")
  /\ re_space 91 = false /\ re_space 93 = false.
Proof.
  assert (H : search_fence padded_fence = Some (t "[1, 2]"))
    by (vm_compute; reflexivity).
  split; [exact H |].
  destruct (fence_content_is_stripped padded_fence (t "[1, 2]") H)
    as [Hfirst Hlast].
  split.
  - apply (Hfirst 91%N (t "1, 2]")). reflexivity.
  - apply (Hlast (t "[1, 2") 93%N). reflexivity.
Defined.

(* ================================================================== *)
(** * More on the bracket scan *)
(* ================================================================== *)

Section SpanEnd.

(** The closing character of the span, once chosen, is a brace or a
    bracket. *)
Definition closers (st : scan_state) : Prop :=
  close_char st = None \/ close_char st = Some c_rbrace
  \/ close_char st = Some c_rbracket.

Lemma scan_step_closers (i : Z) (c : N) (st st' : scan_state) (stop : bool) :
  scan_step i c st = (st', stop) -> closers st ->
  closers st' /\ (stop = true -> c = c_rbrace \/ c = c_rbracket).
Proof.
  destruct st as [sp ep d ins esc oc cc]. unfold scan_step, closers. simpl.
  intros Hstep Hcc. revert Hstep.
  repeat match goal with
         | |- context [if ?b then _ else _] => destruct b eqn:?
         end;
    intros [= <- <-]; simpl; (split; [auto | try discriminate]).
  intros _.
  match goal with H : is_char cc c = true |- _ => rename H into Hc end.
  destruct Hcc as [-> | [-> | ->]]; simpl in Hc;
    [discriminate | left | right]; apply N.eqb_eq in Hc; exact Hc.
Qed.

(** Where the scan stops, the text has a closing brace or bracket, at or
    after the start of the span. *)
Definition end_marks (whole : text) (st : scan_state) : Prop :=
  end_pos st = (-1)%Z
  \/ exists before c rest,
       whole = before ++ c :: rest
       /\ end_pos st = (Z.of_nat (length before) + 1)%Z
       /\ (start_pos st <= Z.of_nat (length before))%Z
       /\ (c = c_rbrace \/ c = c_rbracket).

Lemma scan_loop_end_marks (whole : text) (s : text) :
  forall done st,
    whole = done ++ s -> closers st -> end_pos st = (-1)%Z ->
    (start_pos st < Z.of_nat (length done))%Z ->
    end_marks whole (scan_loop (Z.of_nat (length done)) s st).
Proof.
  induction s as [| c s IH]; intros done st Hwhole Hcc Hend Hstart; simpl.
  { left. exact Hend. }
  destruct (scan_step (Z.of_nat (length done)) c st) as [st' stop] eqn:Hstep.
  destruct (scan_step_closers _ _ _ _ _ Hstep Hcc) as [Hcc' Hstop].
  assert (Hstart' : (start_pos st' <= Z.of_nat (length done))%Z).
  { destruct (scan_step_start _ _ _ _ _ Hstep) as [-> | [-> _]]; lia. }
  destruct (scan_step_end _ _ _ _ _ Hstep) as [[-> He] | [-> He]].
  - right. exists done, c, s. auto.
  - replace (Z.of_nat (length done) + 1)%Z
      with (Z.of_nat (length (done ++ [c])))
      by (rewrite length_app; simpl; lia).
    apply IH.
    + rewrite Hwhole, <- app_assoc. reflexivity.
    + exact Hcc'.
    + congruence.
    + rewrite length_app. simpl. lia.
Qed.

Lemma slice_ends (before rest : text) (c : N) (a : Z) :
  (0 <= a <= Z.of_nat (length before))%Z ->
  slice (before ++ c :: rest) a (Z.of_nat (length before) + 1)
  = skipn (Z.to_nat a) before ++ [c].
Proof.
  intros Ha. unfold slice.
  rewrite skipn_app.
  replace (Z.to_nat a - length before)%nat with 0%nat by lia.
  cbn [skipn].
  rewrite firstn_app, length_skipn.
  replace (Z.to_nat (Z.of_nat (length before) + 1 - a)
           - (length before - Z.to_nat a))%nat with 1%nat by lia.
  rewrite firstn_all2 by (rewrite length_skipn; lia).
  reflexivity.
Qed.

(** The span the scan returns ends with a closing brace or bracket. *)
Lemma scanned_json_last (response_text r : text) :
  scanned_json response_text = Some r ->
  exists r0 c, r = r0 ++ [c] /\ (c = c_rbrace \/ c = c_rbracket).
Proof.
  unfold scanned_json.
  set (st := scan_loop 0 response_text scan_init).
  assert (Hstart : start_marks response_text st).
  { apply (scan_loop_start_marks response_text response_text []);
      [reflexivity | left; reflexivity]. }
  assert (Hend : end_marks response_text st).
  { apply (scan_loop_end_marks response_text response_text []);
      [reflexivity | left; reflexivity | reflexivity | simpl; lia]. }
  destruct (negb (start_pos st =? -1)%Z && negb (end_pos st =? -1)%Z)
    eqn:Hfound; [| discriminate].
  apply andb_true_iff in Hfound as [Hs He].
  apply negb_true_iff, Z.eqb_neq in Hs, He.
  destruct Hstart as [Hnone | (Hpos & _)]; [contradiction |].
  destruct Hend as [Hnone | (before & c & rest & Hwhole & Hep & Hle & Hc)];
    [contradiction |].
  assert (Hslice : slice response_text (start_pos st) (end_pos st)
                   = skipn (Z.to_nat (start_pos st)) before ++ [c]).
  { rewrite Hep, Hwhole. apply slice_ends. lia. }
  rewrite Hslice.
  destruct (loads _); [| discriminate].
  intros [= <-].
  exists (skipn (Z.to_nat (start_pos st)) before), c.
  split; [reflexivity | exact Hc].
Qed.

Lemma skip_ws_nil (s : text) :
  skip_ws s = [] -> forall x, In x s -> is_ws x = true.
Proof.
  induction s as [| c s IH]; intros H x; [intros [] |].
  simpl in H. destruct (is_ws c) eqn:Hc; [| discriminate].
  intros [<- | Hin]; [exact Hc | apply (IH H x Hin)].
Qed.

(** A text that decodes, begins with a brace or a bracket and ends with
    a closing one is a single container: nothing follows it. *)
Lemma loads_whole_container (c : N) (r0 : text) (last : N) (v : json) :
  c = c_lbrace \/ c = c_lbracket ->
  last = c_rbrace \/ last = c_rbracket ->
  loads (c :: r0 ++ [last]) = Some v ->
  raw_decode (c :: r0 ++ [last]) = Some (v, [])
  /\ is_container v = true.
Proof.
  intros Hc Hlast Hloads.
  pose proof (loads_container_head c _ v Hc Hloads) as Hcont.
  unfold loads in Hloads. rewrite (skip_ws_head c _ Hc) in Hloads.
  destruct (raw_decode (c :: r0 ++ [last])) as [[v' rest] |] eqn:Hraw;
    [| discriminate].
  destruct (skip_ws rest) eqn:Hrest; [| discriminate].
  injection Hloads as ->. split; [| exact Hcont].
  destruct (scan_once_reads _ _ _ _ Hraw) as (Hreads & _).
  destruct Hreads as (piece & Hpiece & _).
  destruct rest as [| y rest1]; [reflexivity |]. exfalso.
  destruct (@exists_last _ (y :: rest1)) as (rest' & x & Hx); [discriminate |].
  rewrite Hx in Hrest, Hpiece.
  assert (Hws : is_ws x = true).
  { apply (skip_ws_nil _ Hrest). apply in_or_app. right. left. reflexivity. }
  change (c :: r0 ++ [last]) with ((c :: r0) ++ [last]) in Hpiece.
  rewrite app_assoc in Hpiece. apply app_inj_tail in Hpiece as [_ ->].
  destruct Hlast as [-> | ->]; discriminate.
Qed.


End SpanEnd.


(* ================================================================== *)
(** * More on the models *)
(* ================================================================== *)

Section Amounts.

Lemma abs_abs (x : float) : abs (abs x) = abs x.
Proof.
  apply Prim2SF_inj. rewrite !abs_spec.
  destruct (Prim2SF x) as [s | s | | s m e]; reflexivity.
Qed.

(** X3. The amount validator is idempotent, and it keeps the magnitude
    of the amount. *)
Theorem must_be_positive_idempotent :
  (forall v, must_be_positive (must_be_positive v) = must_be_positive v)
  /\ (forall x, must_be_positive_float (must_be_positive_float x)
                = must_be_positive_float x)
  /\ (forall x, abs (must_be_positive_float x) = abs x).
Proof.
  assert (Hidem : forall v,
             must_be_positive (must_be_positive v) = must_be_positive v).
  { intros [x |]; [| reflexivity]. unfold must_be_positive.
    destruct (x <? 0)%float eqn:Hneg.
    - rewrite abs_not_negative. reflexivity.
    - rewrite Hneg. reflexivity. }
  split; [exact Hidem |]. split.
  - intros x. unfold must_be_positive_float.
    pose proof (Hidem (Some x)) as H. unfold must_be_positive in *.
    destruct (x <? 0)%float eqn:Hneg.
    + rewrite abs_not_negative. reflexivity.
    + rewrite Hneg. reflexivity.
  - intros x. unfold must_be_positive_float, must_be_positive.
    destruct (x <? 0)%float; [apply abs_abs | reflexivity].
Qed.

End Amounts.

Section Variants.
Context {lib : Pydantic}.

Lemma has_error_under {A} (item : loc_item) (loc : list loc_item)
      (kind : error_kind) (x : validated A) :
  has_error (loc, kind) x -> has_error (item :: loc, kind) (under item x).
Proof.
  destruct x as [es | a]; simpl; [| tauto].
  intros H. apply (in_map (fun e : line_error => (item :: fst e, snd e))) in H.
  exact H.
Qed.

Lemma has_error_vmap {A B} (g : A -> B) (e : line_error) (x : validated A) :
  has_error e x -> has_error e (vmap g x).
Proof. destruct x; simpl; tauto. Qed.

Lemma has_error_construct {A} (title : text) (e : line_error)
      (x : validated A) :
  has_error e x ->
  exists errors,
    x = inl errors /\ In e errors
    /\ construct title x
       = inl (Exn ValidationError (validation_error_str title errors)).
Proof.
  destruct x as [errors | a]; simpl; [| tauto].
  intros H. exists errors. auto.
Qed.

(** X4. The answer for a document that does not say [is_receipt: true]:
    it is never the receipt variant; without a [reason] it is rejected,
    the validation error naming the missing field; with a [reason] it is
    the other variant, whose flag is false when the document has no
    [is_receipt] and otherwise what the validation of a [bool] makes of
    the entry. *)
Theorem not_a_receipt_variant (kwargs : list (text * json)) :
  dict_get (t "is_receipt") kwargs <> Some (JBool true) ->
  (forall r, parse_receipt_data (JObj kwargs) <> inr (IsReceiptData r))
  /\ (dict_get (t "reason") kwargs = None ->
      exists errors,
        parse_receipt_data (JObj kwargs)
        = inl (Exn ValidationError
                 (validation_error_str (t "InvalidReceipt") errors))
        /\ In ([Field (t "reason")], missing) errors)
  /\ (forall v s flag,
        dict_get (t "reason") kwargs = Some v -> validate_str v = Some s ->
        match dict_get (t "is_receipt") kwargs with
        | None => flag = false
        | Some entry => validate_bool entry = Some flag
        end ->
        parse_receipt_data (JObj kwargs)
        = inr (IsInvalidReceipt {| invalid_is_receipt := flag;
                                   invalid_reason := s |})).
Proof.
  intros Hflag.
  assert (Hpath : parse_receipt_data (JObj kwargs)
                  = match construct (t "InvalidReceipt")
                            (new_InvalidReceipt kwargs) with
                    | inr r => inr (IsInvalidReceipt r)
                    | inl e => inl e
                    end).
  { unfold parse_receipt_data.
    destruct (dict_get (t "is_receipt") kwargs) as [[| [|] | | | | |] |];
      try reflexivity.
    contradiction Hflag. reflexivity. }
  split; [| split].
  - intros r. rewrite Hpath.
    destruct (construct _ (new_InvalidReceipt kwargs)); discriminate.
  - intros Hreason. rewrite Hpath.
    assert (H : has_error ([Field (t "reason")], missing)
                          (new_InvalidReceipt kwargs)).
    { unfold new_InvalidReceipt. apply has_error_vap_r.
      unfold required. rewrite Hreason. left. reflexivity. }
    apply (has_error_construct (t "InvalidReceipt")) in H.
    destruct H as (errors & _ & Hin & ->). exists errors. auto.
  - intros v s flag Hreason Hstr Hentry. rewrite Hpath.
    unfold new_InvalidReceipt, defaulted, required. rewrite Hreason.
    unfold str_field, bool_field. rewrite Hstr.
    destruct (dict_get (t "is_receipt") kwargs) as [entry |].
    + rewrite Hentry. reflexivity.
    + rewrite Hentry. reflexivity.
Qed.

Lemma list_items_error {A} (validate : json -> validated A)
      (loc : list loc_item) (kind : error_kind) (vs : list json) :
  forall i k v,
    nth_error vs k = Some v -> has_error (loc, kind) (validate v) ->
    has_error (Index (i + k) :: loc, kind) (list_items validate i vs).
Proof.
  induction vs as [| v0 vs IH]; intros i k v Hnth Hv.
  - destruct k; discriminate.
  - cbn [list_items]. destruct k as [| k].
    + injection Hnth as ->. rewrite Nat.add_0_r.
      apply has_error_vap_l, has_error_vmap, has_error_under, Hv.
    + replace (i + S k)%nat with (S i + k)%nat by lia.
      apply has_error_vap_r. apply (IH (S i) k v Hnth Hv).
Qed.

(** X5. A receipt with a line item that has no [description] is
    rejected, and the validation error points at that item: its line is
    [items], the index of the item, [description], "missing". *)
Theorem item_without_description_rejected
        (kwargs : list (text * json)) (vs : list json) (k : nat)
        (item : list (text * json)) :
  dict_get (t "is_receipt") kwargs = Some (JBool true) ->
  dict_get (t "items") kwargs = Some (JArr vs) ->
  nth_error vs k = Some (JObj item) ->
  dict_get (t "description") item = None ->
  exists errors,
    parse_receipt_data (JObj kwargs)
    = inl (Exn ValidationError (validation_error_str (t "ReceiptData") errors))
    /\ In ([Field (t "items"); Index k; Field (t "description")], missing)
          errors.
Proof.
  intros Hflag Hitems Hnth Hdesc.
  assert (Hitem : has_error ([Field (t "description")], missing)
                            (model new_ReceiptItem (JObj item))).
  { cbn [model]. unfold new_ReceiptItem. do 4 apply has_error_vap_l.
    apply has_error_vap_r. unfold required. rewrite Hdesc.
    left. reflexivity. }
  assert (H : has_error
                ([Field (t "items"); Index k; Field (t "description")],
                 missing) (new_ReceiptData kwargs)).
  { unfold new_ReceiptData. do 3 apply has_error_vap_l.
    apply has_error_vap_r. unfold defaulted. rewrite Hitems.
    apply has_error_under. cbn [list_of].
    apply (list_items_error _ _ _ vs 0 k (JObj item) Hnth Hitem). }
  apply (has_error_construct (t "ReceiptData")) in H.
  destruct H as (errors & _ & Hin & Hraise). exists errors.
  unfold parse_receipt_data. rewrite Hflag, Hraise. auto.
Qed.

Lemma list_items_inr {A} (validate : json -> validated A) (vs : list json) :
  forall i out,
    list_items validate i vs = inr out ->
    Forall2 (fun v a => validate v = inr a) vs out.
Proof.
  induction vs as [| v vs IH]; intros i out; cbn [list_items].
  - intros [= <-]. constructor.
  - intros H. apply vap_inr in H. destruct H as (g & rest & Hhead & Hrest & ->).
    destruct (validate v) as [es | a] eqn:Hv; [discriminate |].
    injection Hhead as <-. constructor; [exact Hv | apply (IH _ _ Hrest)].
Qed.

(** X6. An accepted receipt has one line item for each element of the
    [items] array of the document, in the same order, each the validated
    element; without an [items] entry it has none. *)
Theorem receipt_items_in_order (kwargs : list (text * json))
        (r : ReceiptData) :
  parse_receipt_data (JObj kwargs) = inr (IsReceiptData r) ->
  match dict_get (t "items") kwargs with
  | None => items r = []
  | Some v =>
      exists vs,
        v = JArr vs
        /\ Forall2 (fun element item =>
                      exists fields,
                        element = JObj fields
                        /\ new_ReceiptItem fields = inr item)
                   vs (items r)
  end.
Proof.
  intros H. apply parse_receipt_data_receipt in H.
  destruct H as (kwargs' & receipt & [= <-] & _ & Hnew & ->).
  rewrite validate_totals_items.
  unfold new_ReceiptData in Hnew.
  apply vap_inr in Hnew. destruct Hnew as (g8 & x8 & Hnew & _ & ->).
  apply vap_inr in Hnew. destruct Hnew as (g7 & x7 & Hnew & _ & ->).
  apply vap_inr in Hnew. destruct Hnew as (g6 & x6 & Hnew & _ & ->).
  apply vap_inr in Hnew. destruct Hnew as (g5 & its & Hnew & Hits & ->).
  apply vap_inr in Hnew. destruct Hnew as (g4 & x4 & Hnew & _ & ->).
  apply vap_inr in Hnew. destruct Hnew as (g3 & x3 & Hnew & _ & ->).
  apply vap_inr in Hnew. destruct Hnew as (g2 & x2 & Hnew & _ & ->).
  apply vap_inr in Hnew. destruct Hnew as (g1 & x1 & Hnew & _ & ->).
  injection Hnew as <-. cbn [items].
  revert Hits. unfold defaulted.
  destruct (dict_get (t "items") kwargs) as [v |]; [| congruence].
  intros Hits. apply under_inr in Hits.
  destruct v as [| | | | | vs |]; try discriminate.
  exists vs. split; [reflexivity |].
  cbn [list_of] in Hits. apply list_items_inr in Hits.
  induction Hits as [| element item vs' its' Hhead _ IH]; constructor.
  - destruct element as [| | | | | | fields]; try discriminate.
    exists fields. auto.
  - exact IH.
Qed.

End Variants.

(** A document without [is_receipt] and without [reason]. *)
Lemma not_a_receipt_variant_witness :
  dict_get (t "is_receipt") [ (t "category", JNull) ] <> Some (JBool true)
  /\ forall r,
       parse_receipt_data (lib := Native.native)
                          (JObj [ (t "category", JNull) ])
       <> inr (IsReceiptData r).
Proof.
  assert (H : dict_get (t "is_receipt") [ (t "category", JNull) ]
              <> Some (JBool true)) by discriminate.
  split; [exact H |].
  exact (proj1 (not_a_receipt_variant (lib := Native.native) _ H)).
Defined.

(** A receipt whose second item has no description. *)
Definition nameless_item_document : list (text * json) :=
  [ (t "is_receipt", JBool true);
    (t "items",
     JArr [ JObj [ (t "description", JStr (t "tea")) ];
            JObj [ (t "total_price", JInt 3) ] ]) ].

Lemma item_without_description_rejected_witness :
  exists errors,
    parse_receipt_data (lib := Native.native) (JObj nameless_item_document)
    = inl (Exn ValidationError
             (@validation_error_str Native.native (t "ReceiptData") errors))
    /\ In ([Field (t "items"); Index 1; Field (t "description")], missing)
          errors.
Proof.
  apply (item_without_description_rejected (lib := Native.native)
           nameless_item_document
           [ JObj [ (t "description", JStr (t "tea")) ];
             JObj [ (t "total_price", JInt 3) ] ]
           1 [ (t "total_price", JInt 3) ]); reflexivity.
Defined.

(** A receipt with two items. *)
Definition two_lines_document : list (text * json) :=
  [ (t "is_receipt", JBool true);
    (t "items",
     JArr [ JObj [ (t "description", JStr (t "tea")) ];
            JObj [ (t "description", JStr (t "cake"));
                   (t "quantity", JInt (-2)) ] ]) ].

Lemma receipt_items_in_order_witness :
  exists r,
    parse_receipt_data (lib := Native.native) (JObj two_lines_document)
    = inr (IsReceiptData r)
    /\ match dict_get (t "items") two_lines_document with
       | None => items r = []
       | Some v =>
           exists vs,
             v = JArr vs
             /\ Forall2 (fun element item =>
                           exists fields,
                             element = JObj fields
                             /\ new_ReceiptItem (lib := Native.native) fields
                                = inr item)
                        vs (items r)
       end.
Proof.
  eexists. split.
  - vm_compute. reflexivity.
  - apply (receipt_items_in_order (lib := Native.native) two_lines_document).
    vm_compute. reflexivity.
Defined.

(* ================================================================== *)
(** * More on the statistics fetcher *)
(* ================================================================== *)

Section StatsTrace.
Variable max_retries : Z.
Variable base_delay : Q.
Variable http_get : Z -> raises http_response.
Variable uniform : Z -> Q -> Q -> Q.

Local Abbreviation fetch :=
  (get_generation_stats max_retries base_delay http_get uniform).
Local Abbreviation loop := (attempts max_retries base_delay http_get uniform).
Local Abbreviation pause := (sleep_after base_delay uniform).
Local Abbreviation failed := (retries base_delay uniform).

(** An iteration returns after its request, or, with attempts
    remaining, sleeps and goes on. *)
Lemma iteration_cases (a : Z) (trace : list event) :
  (exists v, iteration max_retries base_delay http_get uniform a trace
             = (inr (Return v), trace ++ [Request a]))
  \/ ((a < max_retries - 1)%Z
      /\ iteration max_retries base_delay http_get uniform a trace
         = (inr Continue, trace ++ [Request a; pause a])).
Proof.
  unfold iteration, try_body, except_body, backoff_sleep, backoff_delay,
    sleep_after, jitter, bind, guarded, pure, ret, log_event, modify.
  destruct (http_get a) as [e | response]; simpl.
  - destruct (a <? max_retries - 1)%Z eqn:Hlt; simpl.
    + right. apply Z.ltb_lt in Hlt. split; [exact Hlt |].
      rewrite <- app_assoc. reflexivity.
    + left. eauto.
  - destruct (status_code response =? 200)%Z.
    + destruct (json_body response) as [e | json_data]; simpl.
      * destruct (a <? max_retries - 1)%Z eqn:Hlt; simpl.
        -- right. apply Z.ltb_lt in Hlt. split; [exact Hlt |].
           rewrite <- app_assoc. reflexivity.
        -- left. eauto.
      * destruct (get_data json_data) as [e | data]; simpl.
        -- destruct (a <? max_retries - 1)%Z eqn:Hlt; simpl.
           ++ right. apply Z.ltb_lt in Hlt. split; [exact Hlt |].
              rewrite <- app_assoc. reflexivity.
           ++ left. eauto.
        -- left. eauto.
    + destruct (status_code response =? 404)%Z; simpl.
      * destruct (a <? max_retries - 1)%Z eqn:Hlt; simpl.
        -- right. apply Z.ltb_lt in Hlt. split; [exact Hlt |].
           rewrite <- app_assoc. reflexivity.
        -- left. eauto.
      * left. eauto.
Qed.

Lemma attempts_S (n : nat) (a : Z) (trace : list event) :
  loop (S n) a trace
  = match iteration max_retries base_delay http_get uniform a trace with
    | (inr (Return v), trace') => (inr v, trace')
    | (inr Continue, trace') => loop n (a + 1) trace'
    | (inl e, trace') => (inl e, trace')
    end.
Proof.
  cbn [attempts]. unfold bind.
  destruct (iteration max_retries base_delay http_get uniform a trace)
    as [[e | [v |]] trace']; reflexivity.
Qed.

Lemma attempts_shape (n : nat) :
  forall a trace,
    (a + Z.of_nat (S n) = max_retries)%Z ->
    exists v k,
      (k <= n)%nat
      /\ loop (S n) a trace
         = (inr v, trace ++ failed k a ++ [Request (a + Z.of_nat k)]).
Proof.
  induction n as [| n IH]; intros a trace Hsum; rewrite attempts_S.
  - destruct (iteration_cases a trace) as [(v & ->) | (Hlt & _)]; [| lia].
    exists v, 0%nat. split; [lia |]. simpl.
    rewrite Z.add_0_r. reflexivity.
  - destruct (iteration_cases a trace) as [(v & ->) | (Hlt & ->)].
    + exists v, 0%nat. split; [lia |]. simpl.
      rewrite Z.add_0_r. reflexivity.
    + destruct (IH (a + 1)%Z (trace ++ [Request a; pause a]))
        as (v & k & Hk & Hrun); [lia |].
      exists v, (S k). split; [lia |].
      rewrite Hrun. rewrite <- app_assoc. simpl.
      replace (a + 1 + Z.of_nat k)%Z with (a + Z.pos (Pos.of_succ_nat k))%Z
        by lia.
      reflexivity.
Qed.


(** The number of requests and the time slept in a trace. *)
Fixpoint requests (trace : list event) : nat :=
  match trace with
  | [] => 0
  | Request _ :: rest => S (requests rest)
  | Sleep _ :: rest => requests rest
  end.

Fixpoint slept (trace : list event) : Q :=
  match trace with
  | [] => 0
  | Request _ :: rest => slept rest
  | Sleep seconds :: rest => seconds + slept rest
  end.

Lemma requests_app (a b : list event) :
  requests (a ++ b) = (requests a + requests b)%nat.
Proof.
  induction a as [| [k | d] a IH]; simpl; [reflexivity | |]; rewrite IH;
    reflexivity.
Qed.

Lemma slept_app (a b : list event) : slept (a ++ b) == slept a + slept b.
Proof.
  induction a as [| [k | d] a IH]; simpl.
  - ring.
  - exact IH.
  - rewrite IH. ring.
Qed.

Lemma requests_failed (k : nat) : forall a, requests (failed k a) = k.
Proof.
  induction k as [| k IH]; intros a; simpl; [reflexivity |].
  rewrite IH. reflexivity.
Qed.

Hypothesis base_delay_not_negative : 0 <= base_delay.
Hypothesis uniform_in_range :
  forall k a b, a <= b -> a <= uniform k a b /\ uniform k a b <= b.

Lemma pow2_succ (a : Z) :
  (0 <= a)%Z -> inject_Z (2 ^ (a + 1)) == 2 * inject_Z (2 ^ a).
Proof.
  intros Ha. rewrite Z.pow_add_r by lia.
  rewrite inject_Z_mult. change (inject_Z (2 ^ 1)) with 2. ring.
Qed.

Lemma pow2_positive (a : Z) : (0 <= a)%Z -> 1 <= inject_Z (2 ^ a).
Proof.
  intros Ha. change 1 with (inject_Z 1). rewrite <- Zle_Qle.
  pose proof (Z.pow_pos_nonneg 2 a). lia.
Qed.

Lemma slept_failed (k : nat) :
  forall a,
    (0 <= a)%Z ->
    slept (failed k a)
    <= (11 # 10) * base_delay
       * (inject_Z (2 ^ (a + Z.of_nat k)) - inject_Z (2 ^ a)).
Proof.
  induction k as [| k IH]; intros a Ha.
  - simpl. rewrite Z.add_0_r. apply Qle_lteq. right. ring.
  - cbn [retries slept sleep_after].
    specialize (IH (a + 1)%Z ltac:(lia)).
    replace (a + Z.of_nat (S k))%Z with (a + 1 + Z.of_nat k)%Z by lia.
    assert (Hdelay : 0 <= base_delay * inject_Z (2 ^ a) * (1 # 10)).
    { pose proof (pow2_positive a Ha) as Hp.
      apply Qmult_le_0_compat; [| discriminate].
      apply Qmult_le_0_compat; [exact base_delay_not_negative |].
      apply (Qle_trans _ 1); [discriminate | exact Hp]. }
    destruct (uniform_in_range a 0 _ Hdelay) as [_ Hhigh].
    fold (jitter base_delay uniform a) in Hhigh.
    pose proof (pow2_succ a Ha) as Hsucc.
    set (p := inject_Z (2 ^ a)) in *.
    set (q := inject_Z (2 ^ (a + 1))) in *.
    set (top := inject_Z (2 ^ (a + 1 + Z.of_nat k))) in *.
    set (j := jitter base_delay uniform a) in *.
    set (rest := slept (retries base_delay uniform k (a + 1))) in *.
    apply (Qle_trans _ (base_delay * p + base_delay * p * (1 # 10)
                        + (11 # 10) * base_delay * (top - q))).
    + apply Qplus_le_compat; [| exact IH].
      apply Qplus_le_compat; [apply Qle_refl | exact Hhigh].
    + apply Qle_lteq. right. rewrite Hsucc. ring.
Qed.

Lemma pow2_monotone (a b : Z) :
  (0 <= a <= b)%Z -> inject_Z (2 ^ a) <= inject_Z (2 ^ b).
Proof.
  intros H. rewrite <- Zle_Qle. apply Z.pow_le_mono_r; lia.
Qed.


End StatsTrace.


(* ================================================================== *)
(** * More on the orchestrator *)
(* ================================================================== *)

Section Calls.
Context {lib : Pydantic} {deps : Collaborators}.



(** X11. A failure carries nothing but its message, and, for a parsing
    error only, the raw answer of the model when that is not empty:
    [is_receipt], [usage] and [metrics] are absent, also when the calls
    that were made reported them. *)
Theorem failure_carries_message_only
        (image_path : text) (optimize_image two_step : bool)
        (calls : list api_call) :
  exists r calls',
    extract image_path optimize_image two_step calls = (inr r, calls')
    /\ (r_success r = false ->
        r_data r = None /\ r_is_receipt r = None
        /\ r_usage r = None /\ r_metrics r = None
        /\ forall raw,
             r_raw_response r = Some raw ->
             raw <> []
             /\ exists e, r_error r = Some (t "Erreur de parsing : " ++ str e)).
Proof.
  assert (Hplain : forall message,
            r_success (failure message None) = false ->
            r_data (failure message None) = None
            /\ r_is_receipt (failure message None) = None
            /\ r_usage (failure message None) = None
            /\ r_metrics (failure message None) = None
            /\ forall raw,
                 r_raw_response (failure message None) = Some raw ->
                 raw <> []
                 /\ exists e, r_error (failure message None)
                              = Some (t "Erreur de parsing : " ++ str e)).
  { intros message _. repeat split; discriminate. }
  assert (Hparsing : forall e raw0,
            r_success (handle_parsing_error e raw0) = false ->
            r_data (handle_parsing_error e raw0) = None
            /\ r_is_receipt (handle_parsing_error e raw0) = None
            /\ r_usage (handle_parsing_error e raw0) = None
            /\ r_metrics (handle_parsing_error e raw0) = None
            /\ forall raw,
                 r_raw_response (handle_parsing_error e raw0) = Some raw ->
                 raw <> []
                 /\ exists e', r_error (handle_parsing_error e raw0)
                               = Some (t "Erreur de parsing : " ++ str e')).
  { intros e raw0 _. do 4 (split; [reflexivity |]).
    intros raw. unfold handle_parsing_error, failure. cbn [r_raw_response].
    destruct raw0 as [[| c s] |]; try discriminate.
    intros [= <-]. split; [discriminate | exists e; reflexivity]. }
  unfold extract.
  destruct (process_image_in_memory image_path optimize_image)
    as [e | image_data].
  { unfold ret. do 2 eexists. split; [reflexivity | apply Hplain]. }
  destruct two_step.
  - rewrite two_step_unfold. cbv zeta.
    destruct (analyze_receipt calls _) as [e | vr].
    { do 2 eexists. split; [reflexivity | apply Hplain]. }
    destruct (negb (success vr)).
    { do 2 eexists. split; [reflexivity | apply Hplain]. }
    destruct (validation_block vr) as [e | [returned |]] eqn:Hblock.
    { do 2 eexists. split; [reflexivity | apply Hplain]. }
    { do 2 eexists. split; [reflexivity |].
      destruct (validation_block_success _ Hblock) as [(Hs & _) _].
      congruence. }
    do 2 eexists. split; [reflexivity |].
    destruct (analyze_receipt (calls ++ _) _) as [e | er]; [apply Hplain |].
    destruct (negb (success er)); [apply Hplain |].
    destruct (extraction_block vr er) as [e | r] eqn:Hext;
      [apply Hparsing |].
    destruct (extraction_block_success _ _ Hext) as [(Hs & _) _]. congruence.
  - rewrite one_shot_unfold. cbv zeta.
    do 2 eexists. split; [reflexivity |].
    destruct (analyze_receipt calls _) as [e | response]; [apply Hplain |].
    destruct (negb (success response)); [apply Hplain |].
    destruct (extract_json (content response)) as [e | jc];
      [apply Hparsing |].
    destruct (parse_receipt_json jc) as [e | rd]; [apply Hparsing |].
    discriminate.
Qed.

End Calls.

Section StageMessages.


End StageMessages.

(** An answer to the validation call without [is_receipt]. *)
Definition reason_only_text : text := jt "{'reason': 'a landscape'}".


(** The flag is the string "no": it counts as true, and the extraction
    call is made. *)
Example string_flag_is_truthy :
  length (snd (extract (lib := Native.native)
                 (deps := scripted [ reply (jt "{'is_receipt': 'no'}")
                                           (tokens 40) finished ])
                 (t "view.jpg") true true []))
  = 2%nat.
Proof. vm_compute. reflexivity. Qed.


(* ================================================================== *)
(** * Properties of [analyze_receipt] *)
(* ================================================================== *)

Section ClientProperties.
Variable max_retries : Z.
Variable base_delay : Q.
Variable http_get : text -> Z -> raises http_response.
Variable uniform : Z -> Q -> Q -> Q.
Variable create : api_call -> Analysis.outcome.
Variable py_int : json -> raises Z.
Variable py_float : json -> raises float.

(** The shape of a response: a success has a content entry, a usage
    that is a dictionary or [None], and a metrics dictionary; a failure
    has an error message, no content, and neither usage nor metrics. *)
Definition well_formed (response : api_response) : Prop :=
  if success response
  then usage response <> Missing
       /\ exists m, metrics response = Bound (Analysis.metrics_dict_of m)
  else content response = None /\ usage response = Missing
       /\ metrics response = Missing.

Lemma failed_call_well_formed (message : text) :
  well_formed (Analysis.failed_call message).
Proof. unfold well_formed. simpl. auto. Qed.

(** X13. Whatever the SDK call does, exceptions included, and whatever
    the statistics endpoint answers, [analyze_receipt] raises nothing
    and returns a response of one of the two shapes. *)
Theorem analyze_receipt_never_raises (call : api_call) (trace : list event) :
  exists response trace',
    Analysis.analyze_receipt max_retries base_delay http_get uniform create
      py_int py_float call trace
    = (inr response, trace')
    /\ well_formed response.
Proof.
  assert (Hshape : forall response m,
            well_formed
              {| success := true;
                 content := Analysis.content_to_return response;
                 error := [];
                 usage := match Analysis.usage_data response with
                          | Some u => Bound u
                          | None => IsNone
                          end;
                 metrics := Bound (Analysis.metrics_dict_of m) |}).
  { intros response m. unfold well_formed. simpl. split.
    - destruct (Analysis.usage_data response); discriminate.
    - exists m. reflexivity. }
  unfold Analysis.analyze_receipt.
  destruct (create call) as [response | status_code message | e].
  - unfold Analysis.completed, bind, guarded, ret, pure.
    destruct (Analysis.response_id response) as [[| c s] |].
    + do 2 eexists. split; [reflexivity | apply Hshape].
    + destruct (get_generation_stats max_retries base_delay
                  (http_get (c :: s)) uniform trace) as [[e | stats] trace'].
      * do 2 eexists.
        split; [reflexivity | apply failed_call_well_formed].
      * destruct (truthy stats).
        -- destruct (Analysis.with_stats py_int py_float response stats)
             as [e | m].
           ++ do 2 eexists.
              split; [reflexivity | apply failed_call_well_formed].
           ++ do 2 eexists. split; [reflexivity | apply Hshape].
        -- do 2 eexists. split; [reflexivity | apply Hshape].
    + do 2 eexists. split; [reflexivity | apply Hshape].
  - unfold ret. do 2 eexists.
    split; [reflexivity | apply failed_call_well_formed].
  - unfold ret. do 2 eexists.
    split; [reflexivity | apply failed_call_well_formed].
Qed.

(** X14. Missing statistics degrade the metrics and nothing else: when
    the completion has no generation id, or the statistics fetcher
    returns null (or any false value), the call is a success with the
    content and the usage of the completion, and of the metrics only
    the finish reason is set. *)
Theorem missing_stats_degrade_metrics
        (call : api_call) (trace : list event)
        (response : Analysis.chat_completion) :
  create call = Analysis.Completed response ->
  match Analysis.response_id response with
  | Some (c :: s) =>
      exists stats,
        fst (get_generation_stats max_retries base_delay (http_get (c :: s))
               uniform trace) = inr stats
        /\ truthy stats = false
  | _ => True
  end ->
  fst (Analysis.analyze_receipt max_retries base_delay http_get uniform
         create py_int py_float call trace)
  = inr {| success := true;
           content := Analysis.content_to_return response;
           error := [];
           usage := match Analysis.response_usage response with
                    | Some u =>
                        Bound [ (t "prompt_tokens", Analysis.prompt_tokens u);
                                (t "completion_tokens",
                                 Analysis.completion_tokens u);
                                (t "total_tokens", Analysis.total_tokens u) ]
                    | None => IsNone
                    end;
           metrics :=
             Bound [ (t "first_token_latency_ms", JNull);
                     (t "generation_time_ms", JNull);
                     (t "throughput", JNull);
                     (t "cost", JNull);
                     (t "finish_reason",
                      match Analysis.response_choices response with
                      | first :: _ =>
                          JStr (Analysis.str_of_reason
                                  (Analysis.finish_reason first))
                      | [] => JNull
                      end) ] |}.
Proof.
  intros Hcreate Hstats.
  unfold Analysis.analyze_receipt. rewrite Hcreate.
  unfold Analysis.completed, bind, guarded, ret, pure.
  assert (Hdict :
    Analysis.metrics_dict_of (Analysis.initial_metrics response)
    = [ (t "first_token_latency_ms", JNull);
        (t "generation_time_ms", JNull);
        (t "throughput", JNull);
        (t "cost", JNull);
        (t "finish_reason",
         match Analysis.response_choices response with
         | first :: _ =>
             JStr (Analysis.str_of_reason (Analysis.finish_reason first))
         | [] => JNull
         end) ]).
  { unfold Analysis.metrics_dict_of, Analysis.initial_metrics,
      Analysis.finish_reason_of. simpl.
    destruct (Analysis.response_choices response); reflexivity. }
  assert (Husage :
    match Analysis.usage_data response with
    | Some u => Bound u
    | None => IsNone
    end
    = match Analysis.response_usage response with
      | Some u =>
          Bound [ (t "prompt_tokens", Analysis.prompt_tokens u);
                  (t "completion_tokens", Analysis.completion_tokens u);
                  (t "total_tokens", Analysis.total_tokens u) ]
      | None => IsNone
      end).
  { unfold Analysis.usage_data.
    destruct (Analysis.response_usage response); reflexivity. }
  destruct (Analysis.response_id response) as [[| c s] |].
  - simpl. rewrite Hdict, Husage. reflexivity.
  - destruct Hstats as (stats & Hrun & Hfalse).
    destruct (get_generation_stats max_retries base_delay (http_get (c :: s))
                uniform trace) as [[e | stats'] trace'].
    + discriminate.
    + simpl in Hrun. injection Hrun as ->. rewrite Hfalse. simpl.
      rewrite Hdict, Husage. reflexivity.
  - simpl. rewrite Hdict, Husage. reflexivity.
Qed.

End ClientProperties.

(** A completion with an id, one choice and no usage; the statistics
    endpoint answers 404 at every attempt. *)
Definition sample_completion (content : text) : Analysis.chat_completion :=
  {| Analysis.response_id := Some (t "gen-1");
     Analysis.response_choices :=
       [ {| Analysis.message_content := Some content;
            Analysis.finish_reason := Some (t "stop") |} ];
     Analysis.response_usage := None |}.

Definition no_conversion {A} (v : json) : raises A :=
  inl (Exn TypeError (t "not a number")).

Lemma missing_stats_degrade_metrics_witness :
  fst (Analysis.analyze_receipt 3 (1 # 2) (fun _ => always_404) lowest
         (fun _ => Analysis.Completed (sample_completion (t "{}")))
         no_conversion no_conversion
         {| image_bytes := []; mime_type := t "image/png";
            prompt := t "extract"; max_tokens := 10 |} [])
  = inr {| success := true; content := Some (t "{}"); error := [];
           usage := IsNone;
           metrics :=
             Bound [ (t "first_token_latency_ms", JNull);
                     (t "generation_time_ms", JNull);
                     (t "throughput", JNull);
                     (t "cost", JNull);
                     (t "finish_reason", JStr (t "stop")) ] |}.
Proof.
  apply (missing_stats_degrade_metrics 3 (1 # 2) (fun _ => always_404) lowest
           (fun _ => Analysis.Completed (sample_completion (t "{}")))
           no_conversion no_conversion
           {| image_bytes := []; mime_type := t "image/png";
              prompt := t "extract"; max_tokens := 10 |} []
           (sample_completion (t "{}")) eq_refl).
  exists JNull. split; vm_compute; reflexivity.
Defined.

(* ================================================================== *)
(** * Properties of the answer of the server *)
(* ================================================================== *)

Section ServerProperties.
Context {lib : Pydantic} {deps : Collaborators}.

Ltac failed_stage :=
  right;
  first [ unfold handle_image_processing_error
        | unfold handle_api_error
        | unfold handle_parsing_error ];
  apply failure_is_stage_failure; simpl; tauto.

Lemma analyze_bill_parsed
      (image_path : text) (calls : list api_call)
      (image_data : list Byte.byte * text) (response : api_response)
      (json_content : text) (receipt_data : parsed) :
  process_image_in_memory image_path true = inr image_data ->
  analyze_receipt calls (one_shot_call image_data) = inr response ->
  success response = true ->
  extract_json (content response) = inr json_content ->
  parse_receipt_json json_content = inr receipt_data ->
  ApiServer.analyze_bill image_path calls
  = (inr (ApiServer.respond
            {| r_success := true;
               r_data := Some (model_dump receipt_data);
               r_is_receipt := Some (isinstance_ReceiptData receipt_data);
               r_usage := Some (stage_usage (get_or (usage response) []));
               r_metrics :=
                 Some (stage_metrics (get_or (metrics response) []));
               r_raw_response := content response;
               r_error := None |}),
     calls ++ [one_shot_call image_data]).
Proof.
  intros Himage Hcall Hsuccess Hjson Hparse.
  unfold ApiServer.analyze_bill, bind, guarded, ret, extract.
  rewrite Himage, one_shot_unfold. cbv zeta.
  rewrite Hcall, Hsuccess, Hjson, Hparse. reflexivity.
Qed.

(** X15. The server fails a request whose extraction succeeded when the
    generation time is missing from the metrics, which is how the client
    reports statistics it could not fetch: the answer is 500 with a
    processing error, not the extracted data. *)
Theorem missing_generation_time_fails_request
        (image_path : text) (calls : list api_call)
        (image_data : list Byte.byte * text) (response : api_response)
        (json_content : text) (receipt_data : parsed) (m : metrics_dict) :
  process_image_in_memory image_path true = inr image_data ->
  analyze_receipt calls (one_shot_call image_data) = inr response ->
  success response = true ->
  extract_json (content response) = inr json_content ->
  parse_receipt_json json_content = inr receipt_data ->
  metrics response = Bound m ->
  dict_get (t "generation_time_ms") m = Some JNull ->
  ApiServer.analyze_bill image_path calls
  = (inr {| ApiServer.status := 500;
            ApiServer.body :=
              ApiServer.failure_body
                (t "Processing error: unsupported operand type(s) for /: 'NoneType' and 'float'") |},
     calls ++ [one_shot_call image_data]).
Proof.
  intros Himage Hcall Hsuccess Hjson Hparse Hmetrics Htime.
  rewrite (analyze_bill_parsed image_path calls image_data response
             json_content receipt_data Himage Hcall Hsuccess Hjson Hparse).
  unfold ApiServer.respond, ApiServer.generation_time_ms. simpl.
  rewrite Hmetrics. simpl. rewrite Htime. reflexivity.
Qed.

(** X16. With a generation time in the metrics, the answer to a parsed
    extraction is 200: the dumped record, the flag that tells which
    variant it is, the generation time in seconds, the usage of the call
    and the raw answer of the model. *)
Theorem answer_of_parsed_extraction
        (image_path : text) (calls : list api_call)
        (image_data : list Byte.byte * text) (response : api_response)
        (json_content : text) (receipt_data : parsed) (m : metrics_dict)
        (milliseconds : Z) :
  process_image_in_memory image_path true = inr image_data ->
  analyze_receipt calls (one_shot_call image_data) = inr response ->
  success response = true ->
  extract_json (content response) = inr json_content ->
  parse_receipt_json json_content = inr receipt_data ->
  metrics response = Bound m ->
  dict_get (t "generation_time_ms") m = Some (JInt milliseconds) ->
  is_infinity (Native.float_of_int milliseconds) = false ->
  exists raw,
    content response = Some raw
    /\ ApiServer.analyze_bill image_path calls
       = (inr {| ApiServer.status := 200;
                 ApiServer.body :=
                   ApiServer.success_body
                     (Some (model_dump receipt_data))
                     (isinstance_ReceiptData receipt_data)
                     (Native.float_of_int milliseconds / 1000)%float
                     0x1.e666666666666p-1%float
                     (stage_usage (get_or (usage response) []))
                     raw |},
          calls ++ [one_shot_call image_data]).
Proof.
  intros Himage Hcall Hsuccess Hjson Hparse Hmetrics Htime Hfinite.
  rewrite (analyze_bill_parsed image_path calls image_data response
             json_content receipt_data Himage Hcall Hsuccess Hjson Hparse).
  destruct (content response) as [raw |] eqn:Hcontent;
    [| discriminate Hjson].
  exists raw. split; [reflexivity |].
  unfold ApiServer.respond, ApiServer.generation_time_ms. simpl.
  rewrite Hmetrics. simpl. rewrite Htime. simpl. rewrite Hfinite.
  reflexivity.
Qed.


End ServerProperties.

(** The built-in conversions on JSON numbers, for the examples. *)
Definition number_int (v : json) : raises Z :=
  match v with
  | JInt z => inr z
  | _ => inl (Exn TypeError (t "not an int"))
  end.

Definition number_float (v : json) : raises float :=
  match v with
  | JInt z => inr (Native.float_of_int z)
  | JFloat f => inr f
  | _ => inl (Exn TypeError (t "not a number"))
  end.

(** Collaborators whose client is [analyze_receipt] over an SDK that
    completes every call with [completion], with three attempts at the
    statistics, half a second apart. *)
Definition served (completion : Analysis.chat_completion)
           (http_get : Z -> raises http_response) : Collaborators :=
  {| process_image_in_memory := fun _ _ => inr sample_image;
     analyze_receipt := fun _ call =>
       fst (Analysis.analyze_receipt 3 (1 # 2) (fun _ => http_get) lowest
              (fun _ => Analysis.Completed completion)
              number_int number_float call []);
     build_extraction_prompt := fun include_validation =>
       if include_validation then t "validate, then extract" else t "extract";
     build_validation_only_prompt := t "is this a receipt?";
     one_shot_max_tokens := 2000;
     validation_max_tokens := 100;
     extraction_max_tokens := 2000 |}.

Definition full_prompt_call : api_call :=
  {| image_bytes := []; mime_type := t "image/jpeg";
     prompt := t "validate, then extract"; max_tokens := 2000 |}.

(** The model reads the receipt, the statistics endpoint answers 404 at
    every attempt: the request fails. *)
Lemma missing_generation_time_fails_request_witness :
  parse_receipt_json (lib := Native.native) two_items_document
  = inr (IsReceiptData two_items_receipt)
  /\ ApiServer.analyze_bill
       (lib := Native.native)
       (deps := served (sample_completion two_items_document) always_404)
       (t "receipt.jpg") []
     = (inr {| ApiServer.status := 500;
               ApiServer.body :=
                 ApiServer.failure_body
                   (t "Processing error: unsupported operand type(s) for /: 'NoneType' and 'float'") |},
        [ full_prompt_call ]).
Proof.
  assert (Hparse : parse_receipt_json (lib := Native.native)
                     two_items_document
                   = inr (IsReceiptData two_items_receipt))
    by (vm_compute; reflexivity).
  split; [exact Hparse |].
  refine (@missing_generation_time_fails_request
            Native.native
            (served (sample_completion two_items_document) always_404)
            (t "receipt.jpg") [] sample_image _ two_items_document
            (IsReceiptData two_items_receipt) _
            eq_refl eq_refl _ _ Hparse _ _);
    vm_compute; reflexivity.
Defined.

(** The same receipt when the statistics arrive at the first attempt:
    the answer is 200, with the 900 milliseconds as 0.9 seconds. *)
Lemma answer_of_parsed_extraction_witness :
  exists raw,
    Some two_items_document = Some raw
    /\ ApiServer.analyze_bill
         (lib := Native.native)
         (deps := served (sample_completion two_items_document)
                         (fun _ => answer 200
                                     (JObj [ (t "data", stats_payload) ])))
         (t "receipt.jpg") []
       = (inr {| ApiServer.status := 200;
                 ApiServer.body :=
                   ApiServer.success_body
                     (Some (model_dump (IsReceiptData two_items_receipt)))
                     true
                     (Native.float_of_int 900 / 1000)%float
                     0x1.e666666666666p-1%float
                     (stage_usage None)
                     raw |},
          [ full_prompt_call ]).
Proof.
  refine (@answer_of_parsed_extraction
            Native.native
            (served (sample_completion two_items_document)
                    (fun _ => answer 200 (JObj [ (t "data", stats_payload) ])))
            (t "receipt.jpg") [] sample_image _ two_items_document
            (IsReceiptData two_items_receipt) _ 900
            eq_refl eq_refl _ _ _ _ _ _);
    vm_compute; reflexivity.
Defined.

(* ================================================================== *)
(** * Properties of the categories and of the prompts *)
(* ================================================================== *)

Section Prompts.

Lemma substring_trans (a b c : text) :
  substring a b -> substring b c -> substring a c.
Proof.
  intros (p1 & s1 & ->) (p2 & s2 & ->).
  exists (p2 ++ p1), (s1 ++ s2). rewrite <- !app_assoc. reflexivity.
Qed.

(** X18. The category validator accepts exactly the names of the
    configured categories, from which the prompt is built: the two lists
    are the same, in the same order. *)
Theorem validator_accepts_configured_categories :
  Categories.get_category_names = valid_categories
  /\ forall c,
       validate_category (Some c) = inr (Some c)
       <-> In c Categories.get_category_names.
Proof.
  assert (Hnames : Categories.get_category_names = valid_categories)
    by reflexivity.
  split; [exact Hnames |].
  intros c. rewrite Hnames. unfold validate_category.
  destruct (in_list c valid_categories) eqn:Hin; cbn [negb].
  - apply in_list_In in Hin. split; [intros _; exact Hin | reflexivity].
  - split; [discriminate |].
    intros H. apply in_list_In in H. congruence.
Qed.

Lemma category_line (c : text) :
  In c valid_categories ->
  substring (t "- **" ++ c ++ t "**: ") Categories.get_categories_as_string.
Proof.
  intros Hin.
  change valid_categories with (map fst Categories.EXPENSE_CATEGORIES) in Hin.
  apply in_map_iff in Hin as ((c' & details) & Hc & Hentry). simpl in Hc.
  subst c'.
  apply (substring_trans _
           (t "- **" ++ c ++ t "**: " ++ Categories.description details)).
  - exists [], (Categories.description details).
    rewrite <- !app_assoc. reflexivity.
  - unfold Categories.get_categories_as_string. apply join_substring.
    apply (in_map (fun entry : text * Categories.details =>
                     t "- **" ++ fst entry ++ t "**: "
                       ++ Categories.description (snd entry))) in Hentry.
    exact Hentry.
Qed.

(** X19. Both extraction prompts, with and without the validation step,
    list every category the validator accepts, as a bold name at the
    start of a list item. *)
Theorem prompt_lists_accepted_categories (include_validation : bool)
        (c : text) :
  validate_category (Some c) = inr (Some c) ->
  substring (t "- **" ++ c ++ t "**: ")
            (PromptBuilder.build_extraction_prompt include_validation).
Proof.
  intros Hvalid.
  assert (Hin : In c valid_categories).
  { unfold validate_category in Hvalid.
    destruct (in_list c valid_categories) eqn:Hc; [| discriminate].
    apply in_list_In, Hc. }
  apply (substring_trans _ Categories.get_categories_as_string);
    [apply category_line, Hin |].
  unfold PromptBuilder.build_extraction_prompt,
    PromptBuilder.data_extraction. cbv zeta.
  apply (@substring_app_l _ _ _).
  apply (@substring_app_l _ _ _).
  apply substring_app_r, substring_refl.
Qed.

Lemma loads_wrapped_in_braces (c : N) (r : text) :
  c = c_lbrace \/ c = c_lbracket -> loads (c_lbrace :: c :: r) = None.
Proof.
  intros Hc. unfold loads, raw_decode.
  change (skip_ws (c_lbrace :: c :: r)) with (c_lbrace :: c :: r).
  rewrite scan_once_S. cbn [N.eqb Pos.eqb]. unfold JSONObject.
  destruct Hc as [-> | ->]; reflexivity.
Qed.


End Prompts.

Lemma prompt_lists_accepted_categories_witness :
  validate_category (Some (t "On-Chain Life"))
  = inr (Some (t "On-Chain Life"))
  /\ substring (t "- **On-Chain Life**: ")
               (PromptBuilder.build_extraction_prompt false).
Proof.
  split; [reflexivity |].
  apply (prompt_lists_accepted_categories false (t "On-Chain Life")).
  reflexivity.
Defined.

(** The two answers the validation-only prompt shows are extracted and
    decoded. *)
Example validation_prompt_answers :
  substring (PromptBuilder.q "{`is_receipt`: true}")
            PromptBuilder.build_validation_only_prompt
  /\ extract_json_from_response (PromptBuilder.q "{`is_receipt`: true}")
     = inr (PromptBuilder.q "{`is_receipt`: true}")
  /\ extract_json_from_response
       (PromptBuilder.q "{`is_receipt`: false, `reason`: `brief explanation`}")
     = inr (PromptBuilder.q
              "{`is_receipt`: false, `reason`: `brief explanation`}").
Proof.
  split; [| split; vm_compute; reflexivity].
  unfold PromptBuilder.build_validation_only_prompt, PromptBuilder.lines.
  apply join_substring. do 3 right. left. reflexivity.
Qed.
